(** * obsidian-iconize: custom rules and the outline injector

    A shallow embedding of the custom-rule engine (doesMatchFileType,
    isApplicable, removeFromAllFiles, getSortedRules, add, addToAllFiles,
    doesMatchPath, getFileItems) and of the outline internal plugin
    (getNavItemSize, register, the mutation callback, processTreeItemInner),
    followed by the properties established for them.

    JavaScript strings are sequences of code units; they are embedded as
    [string], one character per code unit.  Numbers that hold lengths,
    indices and rule orders are embedded as [Z]. *)

From Stdlib Require Import ZArith Ascii String List Sorting.Sorted Sorting.Permutation.
From stdpp Require Import base option list gmap strings.

Local Open Scope string_scope.
Local Open Scope Z_scope.

(** ** Completion records: a call either returns or throws *)

Inductive Exn := SyntaxError | TypeError.

Inductive Res (A : Type) :=
  | Ok (a : A)
  | Throw (e : Exn).
Arguments Ok {A} a.
Arguments Throw {A} e.

(** Computations over a mutable store [S]: the store is threaded through,
    and a throw keeps the writes made before it. *)
Definition M (S A : Type) : Type := S -> Res A * S.

Definition ret {S A} (a : A) : M S A := fun st => (Ok a, st).

Definition bind {S A B} (m : M S A) (k : A -> M S B) : M S B :=
  fun st => match m st with
            | (Ok a, st') => k a st'
            | (Throw e, st') => (Throw e, st')
            end.

Definition throw {S A} (e : Exn) : M S A := fun st => (Throw e, st).

(** [try { body } catch { handler }] *)
Definition try_catch {S A} (body : M S A) (handler : Exn -> M S A) : M S A :=
  fun st => match body st with
            | (Ok a, st') => (Ok a, st')
            | (Throw e, st') => handler e st'
            end.

Definition gets {S A} (f : S -> A) : M S A := fun st => (Ok (f st), st).
Definition modify {S} (f : S -> S) : M S unit := fun st => (Ok tt, f st).

(** [for (const x of xs) body(x)] *)
Fixpoint for_each {S A} (xs : list A) (body : A -> M S unit) : M S unit :=
  match xs with
  | [] => ret tt
  | x :: xs' => bind (body x) (fun _ => for_each xs' body)
  end.

Declare Scope js_scope.
Delimit Scope js_scope with js.
Notation "'let!' x ':=' m 'in' k" := (bind m (fun x => k))
  (at level 10, x name, m at level 100, k at level 200) : js_scope.
Notation "m ';;;' k" := (bind m (fun _ => k))
  (at level 100, k at level 200, right associativity) : js_scope.

(** ** Built-ins of the language that the sources call *)

Module JS.

(** [s.split(sep)] for a one-code-unit separator. *)
Fixpoint split (sep : ascii) (s : string) : list string :=
  match s with
  | EmptyString => [EmptyString]
  | String c s' =>
      if Ascii.eqb c sep then EmptyString :: split sep s'
      else match split sep s' with
           | h :: t => String c h :: t
           | [] => [String c EmptyString]
           end
  end.

(** [xs.pop()] as a value: the last element, [undefined] on an empty array. *)
Definition pop {A} (xs : list A) : option A := last xs.

(** [s.includes(sub)] *)
Fixpoint includes (s sub : string) : bool :=
  String.prefix sub s ||
  match s with
  | EmptyString => false
  | String _ s' => includes s' sub
  end.

(** [s.length] *)
Definition length (s : string) : Z := Z.of_nat (String.length s).

Definition clamp (len i : Z) : Z := Z.max 0 (Z.min i len).

(** [s.substring(a, b)]: both ends clamped to [0, s.length], swapped when
    out of order. *)
Definition substring (s : string) (a b : Z) : string :=
  let a' := clamp (length s) a in
  let b' := clamp (length s) b in
  let from := Z.min a' b' in
  let to := Z.max a' b' in
  String.substring (Z.to_nat from) (Z.to_nat (to - from)) s.

(** [s.slice(a, b)]: a negative end counts from the end of the string. *)
Definition slice_index (len i : Z) : Z :=
  if i <? 0 then Z.max (len + i) 0 else Z.min i len.

Definition slice (s : string) (a b : Z) : string :=
  let from := slice_index (length s) a in
  let to := slice_index (length s) b in
  String.substring (Z.to_nat from) (Z.to_nat (Z.max (to - from) 0)) s.

(** [xs.sort(cmp)]: the sort is stable; for a comparator that is a
    consistent ordering its result is the one of this insertion sort. *)
Fixpoint sort_insert {A} (cmp : A -> A -> Z) (x : A) (l : list A) : list A :=
  match l with
  | [] => [x]
  | y :: l' => if cmp x y <=? 0 then x :: y :: l' else y :: sort_insert cmp x l'
  end.

Fixpoint sort {A} (cmp : A -> A -> Z) (l : list A) : list A :=
  match l with
  | [] => []
  | x :: l' => sort_insert cmp x (sort cmp l')
  end.

(** [pieces.join(sep)] *)
Fixpoint join (sep : ascii) (pieces : list string) : string :=
  match pieces with
  | [] => ""
  | [x] => x
  | x :: rest => x ++ String sep (join sep rest)
  end.

(** Whether code unit [c] occurs in [s]. *)
Fixpoint has_char (c : ascii) (s : string) : bool :=
  match s with
  | EmptyString => false
  | String d s' => Ascii.eqb d c || has_char c s'
  end.

(** The string without its first [n] code units. *)
Fixpoint drop (n : nat) (s : string) : string :=
  match n, s with
  | O, _ => s
  | S n', String _ s' => drop n' s'
  | S _, EmptyString => EmptyString
  end.

(** The text that [s.replace(pat, rep)] puts in for a string pattern:
    in the replacement [$$] stands for a [$], [$&] for the matched text,
    [$`] for what precedes the match and [$'] for what follows it; a string
    pattern has no captures, so every other [$] stands for itself. *)
Fixpoint substitution (matched before after rep : string) : string :=
  match rep with
  | EmptyString => EmptyString
  | String c rep' =>
      if Ascii.eqb c "$" then
        match rep' with
        | String d rep'' =>
            if Ascii.eqb d "$" then String "$" (substitution matched before after rep'')
            else if Ascii.eqb d "&" then matched ++ substitution matched before after rep''
            else if Ascii.eqb d "`" then before ++ substitution matched before after rep''
            else if Ascii.eqb d "'" then after ++ substitution matched before after rep''
            else String c (substitution matched before after rep')
        | EmptyString => String c EmptyString
        end
      else String c (substitution matched before after rep')
  end.

(** [s.replace(pat, rep)] for a string pattern: the first occurrence is
    replaced; [before] is what of the string was passed over. *)
Fixpoint replace_from (before s pat rep : string) : string :=
  if String.prefix pat s then
    substitution pat before (drop (String.length pat) s) rep
    ++ drop (String.length pat) s
  else match s with
       | EmptyString => EmptyString
       | String c s' =>
           String c (replace_from (before ++ String c EmptyString) s' pat rep)
       end.

Definition replace (s pat rep : string) : string :=
  replace_from EmptyString s pat rep.

(** Numbers as far as [parseFloat] produces them: a decimal
    [mantissa * 10 ^ exp10] with a sign, an infinity, or NaN.  The value
    stands for the double nearest to it. *)
Inductive number :=
  | NaN
  | Infinity (negative : bool)
  | Dec (negative : bool) (mantissa : N) (exp10 : Z).

Definition digit_of (c : ascii) : option N :=
  let n := N_of_ascii c in
  if ((48 <=? n) && (n <=? 57))%N then Some (n - 48)%N else None.

Fixpoint read_digits (s : string) (acc : N) (count : nat) : N * nat * string :=
  match s with
  | String c s' =>
      match digit_of c with
      | Some d => read_digits s' (acc * 10 + d)%N (S count)
      | None => (acc, count, s)
      end
  | EmptyString => (acc, count, s)
  end.

Definition is_white (c : ascii) : bool :=
  existsb (N.eqb (N_of_ascii c)) [9; 10; 11; 12; 13; 32]%N.

Fixpoint skip_white (s : string) : string :=
  match s with
  | String c s' => if is_white c then skip_white s' else s
  | EmptyString => s
  end.

Definition read_sign (s : string) : bool * string :=
  match s with
  | String c s' =>
      if Ascii.eqb c "-" then (true, s')
      else if Ascii.eqb c "+" then (false, s')
      else (false, s)
  | EmptyString => (false, s)
  end.

Definition read_exponent (s : string) : Z :=
  match s with
  | String c s' =>
      if Ascii.eqb c "e" || Ascii.eqb c "E" then
        let (neg, s'') := read_sign s' in
        match read_digits s'' 0%N O with
        | (_, O, _) => 0
        | (e, S _, _) => if neg then - Z.of_N e else Z.of_N e
        end
      else 0
  | EmptyString => 0
  end.

(** [parseFloat(input)]: leading white space is skipped, the longest
    prefix that is a decimal literal is read, and NaN is the result when
    there is none. *)
Definition parseFloat (input : string) : number :=
  let (neg, s) := read_sign (skip_white input) in
  if String.prefix "Infinity" s then Infinity neg
  else
    match read_digits s 0%N O with
    | (ip, ni, s1) =>
        match (match s1 with
               | String c s1' =>
                   if Ascii.eqb c "." then read_digits s1' ip O
                   else (ip, O, s1)
               | EmptyString => (ip, O, s1)
               end) with
        | (m, nf, s2) =>
            match (ni + nf)%nat with
            | O => NaN
            | S _ => Dec neg m (read_exponent s2 - Z.of_nat nf)
            end
        end
    end.

(** [a ?? b] *)
Definition nullish {A} (a : option A) (b : A) : A :=
  match a with Some v => v | None => b end.

End JS.

(** ** The pattern engine *)

(** [new RegExp(src)] either yields a matcher or throws a SyntaxError;
    [re.test(s)] on a matcher built without flags is a pure test. *)
Class RegExpEngine := {
  RegExp : Type;
  compile : string -> option RegExp;
  test : RegExp -> string -> bool
}.

(** ** Custom rules *)

Module CustomRule.

Inductive RuleFor := everything | files | folders.

Record CustomRule := {
  rule : string;
  icon : string;
  color : option string;
  for_ : RuleFor;
  useFilePath : bool;
  order : Z
}.

Inductive CustomRuleFileType := file | folder.

Inductive TAbstractFile :=
  | TFile (path : string)
  | TFolder (path : string).

Definition path (f : TAbstractFile) : string :=
  match f with TFile p => p | TFolder p => p end.

Definition instanceof_TFolder (f : TAbstractFile) : bool :=
  match f with TFolder _ => true | TFile _ => false end.

Definition RuleFor_eqb (a b : RuleFor) : bool :=
  match a, b with
  | everything, everything | files, files | folders, folders => true
  | _, _ => false
  end.

Definition CustomRuleFileType_eqb (a b : CustomRuleFileType) : bool :=
  match a, b with
  | file, file | folder, folder => true
  | _, _ => false
  end.

Definition doesMatchFileType (r : CustomRule) (fileType : CustomRuleFileType) : bool :=
  RuleFor_eqb (for_ r) everything
  || (RuleFor_eqb (for_ r) files && CustomRuleFileType_eqb fileType file)
  || (RuleFor_eqb (for_ r) folders && CustomRuleFileType_eqb fileType folder).

Record IconAssignment := {
  iconNameWithPrefix : string;
  inCustomRule : bool
}.

(** An element of the file explorer; [data_path] is its [data-path]
    attribute.  Elements are compared by identity and attribute. *)
Record HTMLElement := {
  el_id : nat;
  data_path : option string
}.

(** A rendered node that carries the icon attribute
    ([config.ICON_ATTRIBUTE_NAME]). *)
Record IconNode := {
  icon_attr : string;
  parentElement : option HTMLElement
}.

Record FileItem := {
  fi_file : TAbstractFile;
  fi_titleEl : option HTMLElement
}.

Record RenderRequest := {
  rq_path : string;
  rq_icon : string;
  rq_color : option string;
  rq_container : option HTMLElement
}.

(** What the functions read from the plugin instance: the vault index
    behind [app.vault.getAbstractFileByPath], the icon data behind
    [getIconNameFromPath], the registered file explorers with their
    [fileItems], and the reference of the settings' [rules] array. *)
Record Plugin := {
  vault : gmap string TAbstractFile;
  data : gmap string string;
  fileExplorers : list (list FileItem);
  settings_rules : nat
}.

(** The double quote as a code unit. *)
Definition dquote : ascii := "034"%char.

(** A value that the selector syntax reads as it is written when it
    stands between double quotes: it holds no double quote, no backslash, no
    line break (line feed, form feed, carriage return) and no NUL. *)
Definition selector_safe (value : string) : bool :=
  negb (existsb (fun c => JS.has_char c value)
          [dquote; "\"%char; "010"%char; "012"%char; "013"%char; "000"%char]).

(** The text of the template literal [[${name}="${value}"]]: the value
    is put between the quotes as it is. *)
Definition selector_head (name : string) : string :=
  "[" ++ name ++ "=" ++ String dquote "".

Definition attribute_selector (name value : string) : string :=
  selector_head name ++ value ++ String dquote "]".

(** What the code takes from [config] and from the document: the name
    of the icon attribute, and [document.querySelectorAll(selector)] over
    the icon nodes, which throws a SyntaxError (no result here) on a
    selector that is not valid.  The selector syntax is not part of the
    sources; one fact of it is relied on: the attribute selector with a safe
    value between double quotes selects the nodes whose attribute is that
    value, in document order. *)
Class Document := {
  ICON_ATTRIBUTE_NAME : string;
  document_querySelectorAll : string -> list IconNode -> option (list IconNode);
  document_querySelectorAll_attribute :
    forall (value : string) (nodes : list IconNode),
      selector_safe value = true ->
      document_querySelectorAll (attribute_selector ICON_ATTRIBUTE_NAME value) nodes
        = Some (List.filter (fun n => String.eqb (icon_attr n) value) nodes)
}.

#[global] Instance HTMLElement_eq_dec : EqDecision HTMLElement.
Proof. solve_decision. Defined.

#[global] Instance TAbstractFile_eq_dec : EqDecision TAbstractFile.
Proof. solve_decision. Defined.

Section WithEngine.
Context `{RegExpEngine} `{Document}.

(** The mutable store: the module-level [regexCache], the sources handed
    to [new RegExp] so far (most recent first), the [IconCache]
    singleton, the icon nodes of the document in document order, the
    render requests sent to [dom.createIconNode] (most recent first), and
    the arrays of rules held by reference. *)
Record State := {
  regexCache : gmap string (option RegExp);
  compiled : list string;
  iconCache : gmap string IconAssignment;
  iconNodes : list IconNode;
  rendered : list RenderRequest;
  heap : gmap nat (list CustomRule)
}.

Definition init : State :=
  {| regexCache := ∅; compiled := []; iconCache := ∅; iconNodes := [];
     rendered := []; heap := ∅ |}.

Definition with_regexCache (f : gmap string (option RegExp) -> gmap string (option RegExp))
    (st : State) : State :=
  {| regexCache := f (regexCache st); compiled := compiled st;
     iconCache := iconCache st; iconNodes := iconNodes st;
     rendered := rendered st; heap := heap st |}.

Definition with_compiled (f : list string -> list string) (st : State) : State :=
  {| regexCache := regexCache st; compiled := f (compiled st);
     iconCache := iconCache st; iconNodes := iconNodes st;
     rendered := rendered st; heap := heap st |}.

Definition with_iconCache (f : gmap string IconAssignment -> gmap string IconAssignment)
    (st : State) : State :=
  {| regexCache := regexCache st; compiled := compiled st;
     iconCache := f (iconCache st); iconNodes := iconNodes st;
     rendered := rendered st; heap := heap st |}.

Definition with_iconNodes (f : list IconNode -> list IconNode) (st : State) : State :=
  {| regexCache := regexCache st; compiled := compiled st;
     iconCache := iconCache st; iconNodes := f (iconNodes st);
     rendered := rendered st; heap := heap st |}.

Definition with_rendered (f : list RenderRequest -> list RenderRequest) (st : State) : State :=
  {| regexCache := regexCache st; compiled := compiled st;
     iconCache := iconCache st; iconNodes := iconNodes st;
     rendered := f (rendered st); heap := heap st |}.

Definition with_heap (f : gmap nat (list CustomRule) -> gmap nat (list CustomRule))
    (st : State) : State :=
  {| regexCache := regexCache st; compiled := compiled st;
     iconCache := iconCache st; iconNodes := iconNodes st;
     rendered := rendered st; heap := f (heap st) |}.

Local Open Scope js_scope.

(** [new RegExp(src)] *)
Definition newRegExp (src : string) : M State RegExp :=
  fun st =>
    let st' := with_compiled (cons src) st in
    match compile src with
    | Some re => (Ok re, st')
    | None => (Throw SyntaxError, st')
    end.

(** [toMatch.includes(sub)]; [undefined.includes] is a TypeError. *)
Definition str_includes (toMatch : option string) (sub : string) : M State bool :=
  match toMatch with
  | Some s => ret (JS.includes s sub)
  | None => throw TypeError
  end.

(** [regex.test(toMatch)]; an [undefined] argument is tested as the
    string "undefined". *)
Definition regexp_test (re : RegExp) (toMatch : option string) : bool :=
  test re (default "undefined" toMatch).

Definition doesMatchPath (r : CustomRule) (path : string) : M State bool :=
  let toMatch :=
    if useFilePath r then Some path else JS.pop (JS.split "/" path) in
  let! has := gets (fun st => bool_decide (is_Some (regexCache st !! rule r))) in
  (if negb has then
     try_catch
       (let! re := newRegExp (rule r) in
        modify (with_regexCache <[rule r := Some re]>))
       (fun _ => modify (with_regexCache <[rule r := None]>))
   else ret tt) ;;;
  let! regex := gets (fun st => regexCache st !! rule r) in
  match regex with
  | Some None => str_includes toMatch (rule r)
  | Some (Some re) => ret (regexp_test re toMatch)
  | None => throw TypeError
  end.

Definition getAbstractFileByPath (pl : Plugin) (p : string) : option TAbstractFile :=
  vault pl !! p.

Definition fileTypeOf (abstractFile : TAbstractFile) : CustomRuleFileType :=
  if instanceof_TFolder abstractFile then folder else file.

Definition isApplicable (pl : Plugin) (r : CustomRule) (filePath : string) : M State bool :=
  match getAbstractFileByPath pl filePath with
  | None => ret false
  | Some abstractFile =>
      let fileType := fileTypeOf abstractFile in
      let doesMatch := doesMatchFileType r fileType in
      if negb doesMatch then ret false
      else doesMatchPath r filePath
  end.

(** Modelled from the spec: [plugin.getIconNameFromPath] is not in the
    sources; it is the external icon-name lookup, which is kept apart from
    the Icon Assignment Cache and which [add] does not write. *)
Definition getIconNameFromPath (pl : Plugin) (p : string) : option string :=
  data pl !! p.

(** The test [if (hasIcon)]: the empty string counts as absent. *)
Definition truthy (v : option string) : bool :=
  match v with
  | Some s => negb (String.eqb s "")
  | None => false
  end.

(** The icon node [n] is a child of [el]. *)
Definition has_parent (el : HTMLElement) (n : IconNode) : bool :=
  bool_decide (parentElement n = Some el).

(** Modelled from the spec: [dom.doesElementHasIconNode] is not in the
    sources; it tells whether the render target already visually carries
    an icon node. *)
Definition doesElementHasIconNode (el : HTMLElement) : M State bool :=
  gets (fun st => existsb (has_parent el) (iconNodes st)).

(** Modelled from the spec: the [IconCache] singleton is not in the
    sources; [set] overwrites the assignment of a path. *)
Definition IconCache_set (p : string) (a : IconAssignment) : M State unit :=
  modify (with_iconCache <[p := a]>).

(** Modelled from the spec: [invalidate] removes the entry of a path and
    is a no-op on an absent one. *)
Definition IconCache_invalidate (p : string) : M State unit :=
  modify (with_iconCache (delete p)).

(** The title element registered for a path, as the renderer finds it
    when no container is passed. *)
Definition titleElOfPath (pl : Plugin) (p : string) : option HTMLElement :=
  match List.find (fun fi => bool_decide (path (fi_file fi) = p))
                  (concat (fileExplorers pl)) with
  | Some fi => fi_titleEl fi
  | None => None
  end.

Fixpoint set_icon_under (el : HTMLElement) (iconName : string)
    (nodes : list IconNode) : list IconNode :=
  match nodes with
  | [] => []
  | n :: rest =>
      if has_parent el n
      then {| icon_attr := iconName; parentElement := parentElement n |} :: rest
      else n :: set_icon_under el iconName rest
  end.

Definition render_into (el : HTMLElement) (iconName : string)
    (nodes : list IconNode) : list IconNode :=
  if existsb (has_parent el) nodes then set_icon_under el iconName nodes
  else nodes ++ [ {| icon_attr := iconName; parentElement := Some el |} ].

(** Modelled from the spec: [dom.createIconNode] is not in the sources;
    it requests external rendering of the icon into the target
    container.  The request is recorded; the icon node is placed under
    the container, or under the title element registered for the path
    when no container is passed; an element that already holds an icon
    node has that node reused. *)
Definition createIconNode (pl : Plugin) (p iconName : string)
    (col : option string) (container : option HTMLElement) : M State unit :=
  modify (with_rendered (cons {| rq_path := p; rq_icon := iconName;
                                 rq_color := col; rq_container := container |})) ;;;
  match (match container with Some c => Some c | None => titleElOfPath pl p end) with
  | Some el => modify (with_iconNodes (render_into el iconName))
  | None => ret tt
  end.

Fixpoint remove_first_under (el : HTMLElement) (nodes : list IconNode) : list IconNode :=
  match nodes with
  | [] => []
  | n :: rest => if has_parent el n then rest else n :: remove_first_under el rest
  end.

(** Modelled from the spec: [dom.removeIconInNode] is not in the
    sources; it removes the rendered icon node of the element (the first
    one in document order). *)
Definition removeIconInNode (el : HTMLElement) : M State unit :=
  modify (with_iconNodes (remove_first_under el)).

(** [document.querySelectorAll] with the attribute selector that the
    template literal builds from the rule's icon: the static list of the
    nodes the selector selects, or a SyntaxError when the text is not a
    valid selector. *)
Definition querySelectorAll_icon (iconName : string) : M State (list IconNode) :=
  fun st =>
    match document_querySelectorAll (attribute_selector ICON_ATTRIBUTE_NAME iconName)
            (iconNodes st) with
    | Some nodes => (Ok nodes, st)
    | None => (Throw SyntaxError, st)
    end.

(** [parent.getAttribute('data-path')] followed by the [!dataPath] test:
    an empty attribute counts as missing. *)
Definition usable_data_path (parent : HTMLElement) : option string :=
  match data_path parent with
  | Some s => if String.eqb s "" then None else Some s
  | None => None
  end.

Definition removeFromAllFiles (pl : Plugin) (r : CustomRule) : M State unit :=
  let! nodesWithIcon := querySelectorAll_icon (icon r) in
  for_each nodesWithIcon (fun node =>
    match parentElement node with
    | None => ret tt
    | Some parent =>
        match usable_data_path parent with
        | None => ret tt
        | Some dataPath =>
            match getAbstractFileByPath pl dataPath with
            | None => ret tt
            | Some abstractFile =>
                let fileType := fileTypeOf abstractFile in
                let! m := doesMatchPath r dataPath in
                if m && doesMatchFileType r fileType then
                  removeIconInNode parent ;;;
                  IconCache_invalidate dataPath
                else ret tt
            end
        end
    end).

(** [plugin.getSettings().rules.sort((a, b) => a.order - b.order)]:
    [sort] reorders the array it is called on and returns that array. *)
Definition getSortedRules (pl : Plugin) : M State nat :=
  let! rules := gets (fun st => heap st !! settings_rules pl) in
  match rules with
  | None => throw TypeError
  | Some rs =>
      modify (with_heap <[settings_rules pl :=
                 JS.sort (fun a b => order a - order b) rs]>) ;;;
      ret (settings_rules pl)
  end.

Definition add (pl : Plugin) (r : CustomRule) (f : TAbstractFile)
    (container : option HTMLElement) : M State bool :=
  let! carries :=
    match container with
    | Some c => doesElementHasIconNode c
    | None => ret false
    end in
  if carries then ret false
  else
    let hasIcon := getIconNameFromPath pl (path f) in
    if truthy hasIcon then ret false
    else
      let! doesMatch := isApplicable pl r (path f) in
      if doesMatch then
        IconCache_set (path f)
          {| iconNameWithPrefix := icon r; inCustomRule := true |} ;;;
        createIconNode pl (path f) (icon r) (color r) container ;;;
        ret true
      else ret false.

(** The inner loop of [getFileItems]: keep the items the rule applies to. *)
Fixpoint collect (pl : Plugin) (r : CustomRule) (items : list FileItem)
    : M State (list FileItem) :=
  match items with
  | [] => ret []
  | fileItem :: rest =>
      let! ok := isApplicable pl r (path (fi_file fileItem)) in
      let! more := collect pl r rest in
      ret (if ok then fileItem :: more else more)
  end.

Definition getFileItems (pl : Plugin) (r : CustomRule) : M State (list FileItem) :=
  collect pl r (concat (fileExplorers pl)).

Definition addToAllFiles (pl : Plugin) (r : CustomRule) : M State unit :=
  let! fileItems := getFileItems pl r in
  for_each fileItems (fun fileItem =>
    let! _ := add pl r (fi_file fileItem) (fi_titleEl fileItem) in ret tt).

(** A call into the module, and a run of calls against the store:
    the way the rest of the plugin drives this code.  A throw ends the
    call it occurs in; the run goes on with the next one. *)
Inductive Call :=
  | CallDoesMatchPath (r : CustomRule) (p : string)
  | CallIsApplicable (pl : Plugin) (r : CustomRule) (p : string)
  | CallAdd (pl : Plugin) (r : CustomRule) (f : TAbstractFile)
            (container : option HTMLElement)
  | CallAddToAllFiles (pl : Plugin) (r : CustomRule)
  | CallRemoveFromAllFiles (pl : Plugin) (r : CustomRule)
  | CallGetFileItems (pl : Plugin) (r : CustomRule)
  | CallGetSortedRules (pl : Plugin).

Definition exec (c : Call) (st : State) : State :=
  match c with
  | CallDoesMatchPath r p => snd (doesMatchPath r p st)
  | CallIsApplicable pl r p => snd (isApplicable pl r p st)
  | CallAdd pl r f container => snd (add pl r f container st)
  | CallAddToAllFiles pl r => snd (addToAllFiles pl r st)
  | CallRemoveFromAllFiles pl r => snd (removeFromAllFiles pl r st)
  | CallGetFileItems pl r => snd (getFileItems pl r st)
  | CallGetSortedRules pl => snd (getSortedRules pl st)
  end.

Definition run (calls : list Call) (st : State) : State :=
  fold_left (fun s c => exec c s) calls st.

(** The comparison subject of [doesMatchPath] and the verdict it
    should reach, stated without the cache. *)
Definition subject (r : CustomRule) (p : string) : string :=
  if useFilePath r then p else List.last (JS.split "/" p) "".

Definition matchesPath (r : CustomRule) (p : string) : bool :=
  match compile (rule r) with
  | Some re => test re (subject r p)
  | None => JS.includes (subject r p) (rule r)
  end.

(** Every cache entry is what compiling its key gives. *)
Definition cache_ok (st : State) : Prop :=
  forall src entry, regexCache st !! src = Some entry -> entry = compile src.

(** The store after [doesMatchPath] has looked at source [src]. *)
Definition ensure (src : string) (st : State) : State :=
  if bool_decide (is_Some (regexCache st !! src)) then st
  else with_regexCache <[src := compile src]> (with_compiled (cons src) st).

(** The path that owns an icon node: the non-empty [data-path] of its
    parent element. *)
Definition owner (n : IconNode) : option string :=
  match parentElement n with
  | Some parent => usable_data_path parent
  | None => None
  end.

(** The owning path is in the vault and the rule still matches it, by
    path and by type. *)
Definition still_matches (pl : Plugin) (r : CustomRule) (n : IconNode) : bool :=
  match owner n with
  | None => false
  | Some dataPath =>
      match getAbstractFileByPath pl dataPath with
      | None => false
      | Some abstractFile =>
          matchesPath r dataPath && doesMatchFileType r (fileTypeOf abstractFile)
      end
  end.

(** The icon nodes that [removeFromAllFiles] is to remove for a rule. *)
Definition removable (pl : Plugin) (r : CustomRule) (n : IconNode) : bool :=
  String.eqb (icon_attr n) (icon r) && still_matches pl r n.

(** No element holds two icon nodes. *)
Definition one_icon_per_element (nodes : list IconNode) : Prop :=
  NoDup (omap parentElement nodes).

(** The verdict of [isApplicable], stated without the cache. *)
Definition applicable (pl : Plugin) (r : CustomRule) (p : string) : bool :=
  match getAbstractFileByPath pl p with
  | None => false
  | Some abstractFile => doesMatchFileType r (fileTypeOf abstractFile) && matchesPath r p
  end.

(** The store after [isApplicable] has looked at a path: the pattern is
    looked at only when the entry exists and has the rule's type. *)
Definition probe (pl : Plugin) (r : CustomRule) (p : string) (st : State) : State :=
  match getAbstractFileByPath pl p with
  | None => st
  | Some abstractFile =>
      if doesMatchFileType r (fileTypeOf abstractFile) then ensure (rule r) st else st
  end.

(** The assignment [add] writes for a rule. *)
(** Whether [isApplicable] gets as far as [doesMatchPath] for a path. *)
Definition probed (pl : Plugin) (r : CustomRule) (p : string) : bool :=
  match getAbstractFileByPath pl p with
  | None => false
  | Some abstractFile => doesMatchFileType r (fileTypeOf abstractFile)
  end.

Definition assignment_of (r : CustomRule) : IconAssignment :=
  {| iconNameWithPrefix := icon r; inCustomRule := true |}.

(** The loop of [addToAllFiles] over the items [getFileItems] found. *)
Definition add_all (pl : Plugin) (r : CustomRule) (items : list FileItem)
    (st : State) : State :=
  fold_left (fun s fi => snd (add pl r (fi_file fi) (fi_titleEl fi) s)) items st.

End WithEngine.

End CustomRule.

(** ** A small pattern engine for the examples *)

(** The fragment of the pattern language used in the examples: literal
    characters, [.], an escaped punctuation character, [^] in first and [$]
    in last position.  Sources outside the fragment are not compiled by this
    engine; among them are "(" and "[" , which no ECMAScript engine compiles
    either. *)
Module SampleEngine.

Inductive Atom := Lit (c : ascii) | AnyChar.

Record Pattern := {
  bol : bool;
  atoms : list Atom;
  eol : bool
}.

Definition is_meta (c : ascii) : bool :=
  existsb (Ascii.eqb c)
    (list_ascii_of_string "^$\.*+?()[]{}|").

Fixpoint parse_atoms (s : string) : option (list Atom * bool) :=
  match s with
  | EmptyString => Some ([], false)
  | String c s' =>
      if Ascii.eqb c "$" then
        match s' with EmptyString => Some ([], true) | _ => None end
      else if Ascii.eqb c "\" then
        match s' with
        | String e s'' =>
            if is_meta e then
              match parse_atoms s'' with
              | Some (l, e') => Some (Lit e :: l, e')
              | None => None
              end
            else None
        | EmptyString => None
        end
      else if Ascii.eqb c "." then
        match parse_atoms s' with
        | Some (l, e') => Some (AnyChar :: l, e')
        | None => None
        end
      else if is_meta c then None
      else
        match parse_atoms s' with
        | Some (l, e') => Some (Lit c :: l, e')
        | None => None
        end
  end.

Definition parse (s : string) : option Pattern :=
  let (b, body) :=
    match s with
    | String c s' => if Ascii.eqb c "^" then (true, s') else (false, s)
    | EmptyString => (false, s)
    end in
  match parse_atoms body with
  | Some (l, e) => Some {| bol := b; atoms := l; eol := e |}
  | None => None
  end.

Definition atom_ok (a : Atom) (c : ascii) : bool :=
  match a with
  | Lit d => Ascii.eqb c d
  | AnyChar => negb (Ascii.eqb c "010" || Ascii.eqb c "013")
  end.

Fixpoint match_here (e : bool) (l : list Atom) (s : string) : bool :=
  match l, s with
  | [], EmptyString => true
  | [], String _ _ => negb e
  | a :: l', String c s' => atom_ok a c && match_here e l' s'
  | _ :: _, EmptyString => false
  end.

Fixpoint search (e : bool) (l : list Atom) (s : string) : bool :=
  match_here e l s ||
  match s with
  | EmptyString => false
  | String _ s' => search e l s'
  end.

Definition matches (p : Pattern) (s : string) : bool :=
  if bol p then match_here (eol p) (atoms p) s
  else search (eol p) (atoms p) s.

#[global] Instance engine : RegExpEngine :=
  {| RegExp := Pattern; compile := parse; test := matches |}.

End SampleEngine.

(** ** The outline internal plugin *)

Module Outline.

Local Set Warnings "-register-all".

Definition TREE_ITEM_CLASS : string := "tree-item-self".
Definition TREE_ITEM_INNER : string := "tree-item-inner".

(** An element as the code observes it: its identity, its class list,
    what [getText()] returns and its [innerHTML]. *)
Record ElementData := {
  el_id : nat;
  classList : list string;
  getText : string;
  innerHTML : string
}.

Inductive Node :=
  | TextNode (data : string)
  | Element (e : ElementData) (children : list Node).

Inductive MutationType := childList | attributes | characterData.

Record MutationRecord := {
  type : MutationType;
  addedNodes : list Node
}.

(** [leaf.view.tree.containerEl] *)
Record OutlineLeaf := {
  containerEl : Node
}.

(** One result of [matchAll]: [arr[0]] and [arr.index]. *)
Record RegExpMatch := {
  match_0 : string;
  match_index : Z
}.

Record Code := {
  code_text : string;
  code_index : Z
}.

Inductive LogMessage := SkippingRegistration | LeafUndefined.

(** What stays fixed while the plugin runs: the computed style of the
    document body, the [iconIdentifier] setting, and the answer of
    [requireApiVersion('1.7.2')]. *)
Record Env := {
  bodyStyle : gmap string string;
  iconIdentifier : string;
  requireApiVersion_1_7_2 : bool
}.

(** The collaborators: the shortcode pattern built from the settings with
    its [matchAll], the icon registry, and the rendered form
    ([outerHTML]) of the icon span for a name, an icon object and a font
    size. *)
Class Host := {
  ShortcodeRegex : Type;
  createIconShortcodeRegex : string -> ShortcodeRegex;
  matchAll : string -> ShortcodeRegex -> list RegExpMatch;
  IconObject : Type;
  getIconByName : string -> option IconObject;
  iconSpan_outerHTML : string -> IconObject -> JS.number -> string
}.

(** [getComputedStyle(document.body).getPropertyValue(name)]: the value
    of the property, the empty string when it is not set; never null. *)
Definition getPropertyValue (style : gmap string string) (name : string) : option string :=
  Some (default "" (style !! name)).

Definition node_id (n : Node) : nat :=
  match n with
  | Element e _ => el_id e
  | TextNode _ => O
  end.

Definition has_class (cls : string) (n : Node) : bool :=
  match n with
  | Element e _ => existsb (String.eqb cls) (classList e)
  | TextNode _ => false
  end.

(** The element descendants of a node in document order. *)
Fixpoint descendants (n : Node) : list Node :=
  match n with
  | TextNode _ => []
  | Element _ children =>
      List.flat_map
        (fun c => match c with
                  | Element _ _ => c :: descendants c
                  | TextNode _ => []
                  end) children
  end.

(** [n.querySelectorAll('.' + cls)] and [n.querySelector('.' + cls)] *)
Definition querySelectorAll (n : Node) (cls : string) : list Node :=
  List.filter (has_class cls) (descendants n).

Definition querySelector (n : Node) (cls : string) : option Node :=
  head (querySelectorAll n cls).

(** The locals of the label scan. *)
Record Locals := {
  text : string;
  trimmedLength : Z;
  html : string
}.

Section WithHost.
Context `{Host}.

(** The fields of the plugin object ([registered], [observer] and the
    two caches), the host application ([enabled] of the outline core
    plugin, the outline leaf, the observers attached to a region as
    pairs of observer and region, the number of observers constructed,
    the pending one-shot listeners of [allIconsLoaded] and the pending
    [loadIfDeferred] continuations), and what the plugin did: the labels
    handed to the label scan, the assignments to [innerHTML], the log. *)
Record State := {
  registered : bool;
  observer : option nat;
  cachedIconShortcodeRegex : option ShortcodeRegex;
  cachedNavItemSize : option JS.number;
  enabled : bool;
  leaf : option OutlineLeaf;
  attached : list (nat * nat);
  created : nat;
  onceHandlers : nat;
  deferred : nat;
  scanned : list nat;
  writes : list (nat * string);
  logs : list LogMessage
}.

(** Field updates of the store. *)
Definition set_registered (v : bool) (st : State) : State :=
  {| registered := v; observer := observer st;
     cachedIconShortcodeRegex := cachedIconShortcodeRegex st;
     cachedNavItemSize := cachedNavItemSize st;
     enabled := enabled st; leaf := leaf st;
     attached := attached st; created := created st;
     onceHandlers := onceHandlers st; deferred := deferred st;
     scanned := scanned st; writes := writes st; logs := logs st |}.

Definition set_observer (v : option nat) (st : State) : State :=
  {| registered := registered st; observer := v;
     cachedIconShortcodeRegex := cachedIconShortcodeRegex st;
     cachedNavItemSize := cachedNavItemSize st;
     enabled := enabled st; leaf := leaf st;
     attached := attached st; created := created st;
     onceHandlers := onceHandlers st; deferred := deferred st;
     scanned := scanned st; writes := writes st; logs := logs st |}.

Definition set_cachedIconShortcodeRegex (v : option ShortcodeRegex) (st : State) : State :=
  {| registered := registered st; observer := observer st;
     cachedIconShortcodeRegex := v;
     cachedNavItemSize := cachedNavItemSize st;
     enabled := enabled st; leaf := leaf st;
     attached := attached st; created := created st;
     onceHandlers := onceHandlers st; deferred := deferred st;
     scanned := scanned st; writes := writes st; logs := logs st |}.

Definition set_cachedNavItemSize (v : option JS.number) (st : State) : State :=
  {| registered := registered st; observer := observer st;
     cachedIconShortcodeRegex := cachedIconShortcodeRegex st;
     cachedNavItemSize := v;
     enabled := enabled st; leaf := leaf st;
     attached := attached st; created := created st;
     onceHandlers := onceHandlers st; deferred := deferred st;
     scanned := scanned st; writes := writes st; logs := logs st |}.

Definition set_enabled (v : bool) (st : State) : State :=
  {| registered := registered st; observer := observer st;
     cachedIconShortcodeRegex := cachedIconShortcodeRegex st;
     cachedNavItemSize := cachedNavItemSize st;
     enabled := v; leaf := leaf st;
     attached := attached st; created := created st;
     onceHandlers := onceHandlers st; deferred := deferred st;
     scanned := scanned st; writes := writes st; logs := logs st |}.

Definition set_leaf (v : option OutlineLeaf) (st : State) : State :=
  {| registered := registered st; observer := observer st;
     cachedIconShortcodeRegex := cachedIconShortcodeRegex st;
     cachedNavItemSize := cachedNavItemSize st;
     enabled := enabled st; leaf := v;
     attached := attached st; created := created st;
     onceHandlers := onceHandlers st; deferred := deferred st;
     scanned := scanned st; writes := writes st; logs := logs st |}.

Definition set_attached (v : list (nat * nat)) (st : State) : State :=
  {| registered := registered st; observer := observer st;
     cachedIconShortcodeRegex := cachedIconShortcodeRegex st;
     cachedNavItemSize := cachedNavItemSize st;
     enabled := enabled st; leaf := leaf st;
     attached := v; created := created st;
     onceHandlers := onceHandlers st; deferred := deferred st;
     scanned := scanned st; writes := writes st; logs := logs st |}.

Definition set_created (v : nat) (st : State) : State :=
  {| registered := registered st; observer := observer st;
     cachedIconShortcodeRegex := cachedIconShortcodeRegex st;
     cachedNavItemSize := cachedNavItemSize st;
     enabled := enabled st; leaf := leaf st;
     attached := attached st; created := v;
     onceHandlers := onceHandlers st; deferred := deferred st;
     scanned := scanned st; writes := writes st; logs := logs st |}.

Definition set_onceHandlers (v : nat) (st : State) : State :=
  {| registered := registered st; observer := observer st;
     cachedIconShortcodeRegex := cachedIconShortcodeRegex st;
     cachedNavItemSize := cachedNavItemSize st;
     enabled := enabled st; leaf := leaf st;
     attached := attached st; created := created st;
     onceHandlers := v; deferred := deferred st;
     scanned := scanned st; writes := writes st; logs := logs st |}.

Definition set_deferred (v : nat) (st : State) : State :=
  {| registered := registered st; observer := observer st;
     cachedIconShortcodeRegex := cachedIconShortcodeRegex st;
     cachedNavItemSize := cachedNavItemSize st;
     enabled := enabled st; leaf := leaf st;
     attached := attached st; created := created st;
     onceHandlers := onceHandlers st; deferred := v;
     scanned := scanned st; writes := writes st; logs := logs st |}.

Definition set_scanned (v : list nat) (st : State) : State :=
  {| registered := registered st; observer := observer st;
     cachedIconShortcodeRegex := cachedIconShortcodeRegex st;
     cachedNavItemSize := cachedNavItemSize st;
     enabled := enabled st; leaf := leaf st;
     attached := attached st; created := created st;
     onceHandlers := onceHandlers st; deferred := deferred st;
     scanned := v; writes := writes st; logs := logs st |}.

Definition set_writes (v : list (nat * string)) (st : State) : State :=
  {| registered := registered st; observer := observer st;
     cachedIconShortcodeRegex := cachedIconShortcodeRegex st;
     cachedNavItemSize := cachedNavItemSize st;
     enabled := enabled st; leaf := leaf st;
     attached := attached st; created := created st;
     onceHandlers := onceHandlers st; deferred := deferred st;
     scanned := scanned st; writes := v; logs := logs st |}.

Definition set_logs (v : list LogMessage) (st : State) : State :=
  {| registered := registered st; observer := observer st;
     cachedIconShortcodeRegex := cachedIconShortcodeRegex st;
     cachedNavItemSize := cachedNavItemSize st;
     enabled := enabled st; leaf := leaf st;
     attached := attached st; created := created st;
     onceHandlers := onceHandlers st; deferred := deferred st;
     scanned := scanned st; writes := writes st; logs := v |}.

Definition init : State :=
  {| registered := false; observer := None; cachedIconShortcodeRegex := None;
     cachedNavItemSize := None; enabled := true; leaf := None; attached := [];
     created := O; onceHandlers := O; deferred := O; scanned := [];
     writes := []; logs := [] |}.

Local Open Scope js_scope.

Section WithEnv.
Variable env : Env.

Definition getIconShortcodeRegex : M State ShortcodeRegex :=
  let! cached := gets cachedIconShortcodeRegex in
  match cached with
  | Some re => ret re
  | None =>
      let re := createIconShortcodeRegex (iconIdentifier env) in
      modify (set_cachedIconShortcodeRegex (Some re)) ;;;
      ret re
  end.

Definition getNavItemSize : M State JS.number :=
  let! cached := gets cachedNavItemSize in
  match cached with
  | None =>
      let size :=
        JS.parseFloat
          (JS.nullish (getPropertyValue (bodyStyle env) "--nav-item-size") "16") in
      modify (set_cachedNavItemSize (Some size)) ;;;
      ret size
  | Some size => ret size
  end.

(** The [leaf] getter; reading a property of its [undefined] result
    is a TypeError. *)
Definition get_leaf : M State (option OutlineLeaf) :=
  let! l := gets leaf in
  match l with
  | None => modify (fun st => set_logs (LeafUndefined :: logs st) st) ;;; ret None
  | Some lf => ret (Some lf)
  end.

Definition leaf_containerEl : M State Node :=
  let! l := get_leaf in
  match l with
  | Some lf => ret (containerEl lf)
  | None => throw TypeError
  end.

(** One iteration of the loop over the shortcodes of a label. *)
Definition scan_code (el : ElementData) (iconIdentifierLength : Z) (code : Code)
    (l : Locals) : M State Locals :=
  let shortcode := code_text code in
  let iconName :=
    JS.slice shortcode iconIdentifierLength
             (JS.length shortcode - iconIdentifierLength) in
  match getIconByName iconName with
  | Some iconObject =>
      let startIndex := code_index code - trimmedLength l in
      let endIndex := code_index code + JS.length (code_text code) - trimmedLength l in
      let str :=
        JS.substring (text l) 0 startIndex
        ++ JS.substring (text l) endIndex (JS.length (text l)) in
      let! fontSize := getNavItemSize in
      let newHTML :=
        JS.replace (html l) shortcode
                   (iconSpan_outerHTML iconName iconObject fontSize) in
      modify (fun st => set_writes ((el_id el, newHTML) :: writes st) st) ;;;
      ret {| text := str;
             trimmedLength := trimmedLength l + JS.length (code_text code);
             html := newHTML |}
  | None => ret l
  end.

Fixpoint scan_codes (el : ElementData) (iconIdentifierLength : Z)
    (codes : list Code) (l : Locals) : M State Locals :=
  match codes with
  | [] => ret l
  | code :: rest =>
      let! l' := scan_code el iconIdentifierLength code l in
      scan_codes el iconIdentifierLength rest l'
  end.

(** The shortcodes of a label in the order the loop visits them. *)
Definition codes_of (re : ShortcodeRegex) (label : string) : list Code :=
  List.map (fun arr => {| code_text := match_0 arr; code_index := match_index arr |})
           (JS.sort (fun a b => match_index a - match_index b) (matchAll label re)).

(** [querySelector] yields an element or null; the call is recorded once
    the argument is known not to be null. *)
Definition processTreeItemInner (treeItemInner : option Node) : M State unit :=
  match treeItemInner with
  | None | Some (TextNode _) => ret tt
  | Some (Element el _) =>
      modify (fun st => set_scanned (el_id el :: scanned st) st) ;;;
      let label := getText el in
      if String.eqb label "" then ret tt
      else
        let! iconShortcodeRegex := getIconShortcodeRegex in
        let iconIdentifierLength := JS.length (iconIdentifier env) in
        let! _ := scan_codes el iconIdentifierLength
                    (codes_of iconShortcodeRegex label)
                    {| text := label; trimmedLength := 0; html := innerHTML el |} in
        ret tt
  end.

Definition processTreeItems (root : Node) : M State unit :=
  for_each (querySelectorAll root TREE_ITEM_CLASS) (fun treeItem =>
    processTreeItemInner (querySelector treeItem TREE_ITEM_INNER)).

(** [o.disconnect()], [new MutationObserver(callback)] and
    [o.observe(target, ...)] *)
Definition disconnect (o : nat) : M State unit :=
  modify (fun st =>
    set_attached (List.filter (fun a => negb (Nat.eqb (fst a) o)) (attached st)) st).

Definition newMutationObserver : M State nat :=
  fun st => (Ok (created st), set_created (S (created st)) st).

Definition observe (o : nat) (target : Node) : M State unit :=
  modify (fun st => set_attached (attached st ++ [(o, node_id target)]) st).

(** The callback every observer is constructed with. *)
Definition callback (mutations : list MutationRecord) : M State unit :=
  let! en := gets enabled in
  if negb en then
    (let! o := gets observer in
     match o with
     | Some ob => disconnect ob
     | None => ret tt
     end) ;;;
    modify (set_observer None)
  else
    for_each mutations (fun mutation =>
      match type mutation, addedNodes mutation with
      | childList, _ :: _ =>
          for_each (addedNodes mutation) (fun node =>
            match node with
            | TextNode _ => ret tt
            | Element _ _ =>
                if has_class TREE_ITEM_CLASS node then
                  processTreeItemInner (querySelector node TREE_ITEM_INNER)
                else
                  for_each (querySelectorAll node TREE_ITEM_CLASS) (fun item =>
                    processTreeItemInner (querySelector item TREE_ITEM_INNER))
            end)
      | _, _ => ret tt
      end).

(** The listener that [setOutlineIcons] hands to
    [once('allIconsLoaded', ...)]. *)
Definition onAllIconsLoaded : M State unit :=
  modify (set_cachedIconShortcodeRegex None) ;;;
  modify (set_cachedNavItemSize None) ;;;
  let! root := leaf_containerEl in
  processTreeItems root ;;;
  let! o := newMutationObserver in
  modify (set_observer (Some o)) ;;;
  let! target := leaf_containerEl in
  observe o target.

Definition setOutlineIcons : M State unit :=
  modify (fun st => set_onceHandlers (S (onceHandlers st)) st).

Definition register : M State unit :=
  let! en := gets enabled in
  if negb en then
    modify (fun st => set_logs (SkippingRegistration :: logs st) st)
  else
    (let! reg := gets registered in
     let! o := gets observer in
     match reg, o with
     | true, Some ob => disconnect ob ;;; modify (set_observer None)
     | _, _ => ret tt
     end) ;;;
    modify (set_registered true) ;;;
    if requireApiVersion_1_7_2 env then
      let! l := get_leaf in
      match l with
      | Some _ => modify (fun st => set_deferred (S (deferred st)) st)
      | None => throw TypeError
      end
    else setOutlineIcons.

(** What happens to the plugin: its [register] is called, a
    [loadIfDeferred] promise resolves, the emitter fires
    [allIconsLoaded], the host delivers a batch of mutation records to
    an attached observer, the user switches the outline core plugin on
    or off, the outline leaf appears or goes away.  A throw ends the
    handler it occurs in. *)
Inductive Event :=
  | Register
  | LeafLoaded
  | AllIconsLoaded
  | Mutations (o : nat) (batch : list MutationRecord)
  | SetEnabled (b : bool)
  | SetLeaf (l : option OutlineLeaf).

(** The one-shot listeners registered so far all run when the event
    fires, one after the other, and are gone afterwards. *)
Fixpoint repeat_handler (n : nat) (handler : M State unit) (st : State) : State :=
  match n with
  | O => st
  | S n' => repeat_handler n' handler (snd (handler st))
  end.

Definition is_attached (o : nat) (st : State) : bool :=
  existsb (fun a => Nat.eqb (fst a) o) (attached st).

Definition step (e : Event) (st : State) : State :=
  match e with
  | Register => snd (register st)
  | LeafLoaded =>
      match deferred st with
      | O => st
      | S n => snd (setOutlineIcons (set_deferred n st))
      end
  | AllIconsLoaded =>
      repeat_handler (onceHandlers st) onAllIconsLoaded (set_onceHandlers O st)
  | Mutations o batch =>
      if is_attached o st then snd (callback batch st) else st
  | SetEnabled b => set_enabled b st
  | SetLeaf l => set_leaf l st
  end.

Definition run (events : list Event) (st : State) : State :=
  fold_left (fun s e => step e s) events st.

(** The observers attached to a region. *)
Definition observers_of (region : nat) (st : State) : list nat :=
  List.map fst (List.filter (fun a => Nat.eqb (snd a) region) (attached st)).

End WithEnv.

(** The store once the observer the plugin holds, if any, is
    disconnected and forgotten. *)
Definition drop_observer (st : State) : State :=
  set_observer None
    (match observer st with
     | Some ob =>
         set_attached (List.filter (fun a => negb (Nat.eqb (fst a) ob)) (attached st)) st
     | None => st
     end).

Definition icon_name (idLen : Z) (code : Code) : string :=
  JS.slice (code_text code) idLen (JS.length (code_text code) - idLen).

(** The total length of the shortcodes of [codes] whose icon is found. *)
Fixpoint removed_length (idLen : Z) (codes : list Code) : Z :=
  match codes with
  | [] => 0
  | code :: rest =>
      match getIconByName (icon_name idLen code) with
      | Some _ => JS.length (code_text code) + removed_length idLen rest
      | None => removed_length idLen rest
      end
  end.


(** Matches as a global pattern reports them: from left to right
    without overlap, inside the label, each with the text found at its
    index. *)
Fixpoint genuine (label : string) (cursor : Z) (codes : list Code) : Prop :=
  match codes with
  | [] => True
  | code :: rest =>
      cursor <= code_index code /\
      code_index code + JS.length (code_text code) <= JS.length label /\
      JS.substring label (code_index code) (code_index code + JS.length (code_text code))
        = code_text code /\
      genuine label (code_index code + JS.length (code_text code)) rest
  end.

(** The tree items a batch of mutation records makes the callback hand
    to the label scan, in the order it visits them: an added element that
    is a tree item itself, or else the tree items below it. *)
Definition added_items (batch : list MutationRecord) : list Node :=
  List.flat_map (fun mutation =>
    match type mutation with
    | childList =>
        List.flat_map (fun node =>
          match node with
          | TextNode _ => []
          | Element _ _ =>
              if has_class TREE_ITEM_CLASS node then [node]
              else querySelectorAll node TREE_ITEM_CLASS
          end) (addedNodes mutation)
    | _ => []
    end) batch.

(** Whether a mutation record reports an added element. *)
Definition adds_element (mutation : MutationRecord) : bool :=
  match type mutation with
  | childList =>
      existsb (fun node => match node with
                           | Element _ _ => true
                           | TextNode _ => false
                           end) (addedNodes mutation)
  | _ => false
  end.

(** The inner elements of a list of tree items. *)
Definition inner_ids (items : list Node) : list nat :=
  List.flat_map (fun item =>
    match querySelector item TREE_ITEM_INNER with
    | Some (Element e _) => [el_id e]
    | _ => []
    end) items.

(** The font size and the pattern a label scan that starts in a store
    works with: the cached one, or the one it computes. *)
Definition nav_item_size (env : Env) (st : State) : JS.number :=
  match cachedNavItemSize st with
  | Some size => size
  | None =>
      JS.parseFloat (JS.nullish (getPropertyValue (bodyStyle env) "--nav-item-size") "16")
  end.

Definition shortcode_regex (env : Env) (st : State) : ShortcodeRegex :=
  match cachedIconShortcodeRegex st with
  | Some re => re
  | None => createIconShortcodeRegex (iconIdentifier env)
  end.

(** What one round of the loop makes of the element's [innerHTML]:
    [innerHTML.replace(shortcode, iconSpan.outerHTML)] when the icon
    exists. *)
Definition replace_code (idLen : Z) (size : JS.number) (h : string) (code : Code) : string :=
  match getIconByName (icon_name idLen code) with
  | Some iconObject =>
      JS.replace h (code_text code)
                 (iconSpan_outerHTML (icon_name idLen code) iconObject size)
  | None => h
  end.

Definition icon_found (idLen : Z) (code : Code) : bool :=
  match getIconByName (icon_name idLen code) with
  | Some _ => true
  | None => false
  end.

(** The caches hold nothing or what the current style and settings
    give. *)
Definition fresh (env : Env) (st : State) : Prop :=
  (cachedNavItemSize st = None \/
   cachedNavItemSize st
     = Some (JS.parseFloat
               (JS.nullish (getPropertyValue (bodyStyle env) "--nav-item-size") "16"))) /\
  (cachedIconShortcodeRegex st = None \/
   cachedIconShortcodeRegex st = Some (createIconShortcodeRegex (iconIdentifier env))).

(** The same over the environments of a run: the caches hold nothing or
    what the style and the settings gave in one of them. *)
Definition fresh_in (envs : list Env) (st : State) : Prop :=
  (cachedNavItemSize st = None \/
   exists env, In env envs /\
     cachedNavItemSize st
       = Some (JS.parseFloat
                 (JS.nullish (getPropertyValue (bodyStyle env) "--nav-item-size") "16"))) /\
  (cachedIconShortcodeRegex st = None \/
   exists env, In env envs /\
     cachedIconShortcodeRegex st = Some (createIconShortcodeRegex (iconIdentifier env))).

(** A run in which the body style and the settings may change between
    the events: each event comes with the environment it happens in. *)
Definition run_in (trace : list (Env * Event)) (st : State) : State :=
  fold_left (fun s ee => step (fst ee) (snd ee) s) trace st.

(** The first part of an enabled [register]: the observer the plugin
    holds is disconnected when the plugin was registered before. *)
Definition cleared (st : State) : State :=
  if registered st then
    match observer st with
    | Some _ => drop_observer st
    | None => st
    end
  else st.

(** One registration carried through: [register], the deferred leaf
    loaded where the host has deferred views, and the icons loaded. *)
Definition registration (env : Env) : list Event :=
  (Register :: (if requireApiVersion_1_7_2 env then [LeafLoaded] else [])
   ++ [AllIconsLoaded])%list.

(** No listener and no continuation is pending, and the plugin holds the
    observers that are attached: none, or one that it will disconnect on
    the next [register]. *)
Definition settled (st : State) : Prop :=
  onceHandlers st = O /\ deferred st = O /\
  (attached st = [] \/
   exists o region,
     registered st = true /\ observer st = Some o /\ attached st = [(o, region)]).

End WithHost.

End Outline.

(** ** A host for the examples *)

(** Shortcodes are the delimiter, a non-empty run of word characters and
    the delimiter again; three icon names are registered. *)
Module SampleHost.
Import Outline.

Definition is_word (c : ascii) : bool :=
  let n := N_of_ascii c in
  ((48 <=? n) && (n <=? 57) || (65 <=? n) && (n <=? 90)
   || (97 <=? n) && (n <=? 122) || (n =? 95))%N.

Fixpoint read_word (s : string) : string * string :=
  match s with
  | String c s' =>
      if is_word c then let (w, rest) := read_word s' in (String c w, rest)
      else (EmptyString, s)
  | EmptyString => (EmptyString, s)
  end.

Fixpoint scan (fuel : nat) (delim : string) (pos : Z) (s : string) : list RegExpMatch :=
  match fuel with
  | O => []
  | S fuel' =>
      let (w, rest) := read_word (JS.drop (String.length delim) s) in
      if String.prefix delim s && negb (String.eqb w "") && String.prefix delim rest then
        {| match_0 := delim ++ w ++ delim; match_index := pos |}
          :: scan fuel' delim (pos + JS.length (delim ++ w ++ delim))
               (JS.drop (String.length delim) rest)
      else
        match s with
        | String _ s' => scan fuel' delim (pos + 1) s'
        | EmptyString => []
        end
  end.

Definition icons : list string := ["one"; "two"; "star"].

#[global] Instance host : Host :=
  {| ShortcodeRegex := string;
     createIconShortcodeRegex := fun delim => delim;
     matchAll := fun label delim => scan (S (String.length label)) delim 0 label;
     IconObject := string;
     getIconByName := fun name =>
       if existsb (String.eqb name) icons then Some ("<svg " ++ name ++ "/>") else None;
     iconSpan_outerHTML := fun name svg size =>
       "<span data-icon=" ++ name ++ ">" ++ svg ++ "</span>" |}.

Definition env : Env :=
  {| bodyStyle := ∅; iconIdentifier := ":"; requireApiVersion_1_7_2 := false |}.

(** The same on a host that defers its views. *)
Definition env_deferred : Env :=
  {| bodyStyle := ∅; iconIdentifier := ":"; requireApiVersion_1_7_2 := true |}.

Definition colon : ShortcodeRegex := createIconShortcodeRegex (iconIdentifier env).

Definition label (id : nat) (s : string) : Node :=
  Element {| el_id := id; classList := [TREE_ITEM_INNER]; getText := s; innerHTML := s |} [].

Definition treeItem (id : nat) (s : string) : Node :=
  Element {| el_id := id; classList := [TREE_ITEM_CLASS]; getText := s; innerHTML := s |}
          [label (S id) s].

(** A tree item with its label and, below it, another tree item. *)
Definition nested_item : Node :=
  Element {| el_id := 1; classList := [TREE_ITEM_CLASS]; getText := "a :one:";
             innerHTML := "a :one:" |}
          [label 2 "a :one:"; treeItem 3 "b :two:"].

Definition region : Node :=
  Element {| el_id := 100; classList := []; getText := ""; innerHTML := "" |} [].

Definition outlineLeaf : OutlineLeaf := {| containerEl := region |}.

(** A leaf whose container holds a tree item with a shortcode, and an
    environment whose body style sets the nav-item size. *)
Definition busy_leaf : OutlineLeaf :=
  {| containerEl :=
       Element {| el_id := 100; classList := []; getText := ""; innerHTML := "" |}
               [treeItem 1 "x :one: y"] |}.

Definition env_large : Env :=
  {| bodyStyle := <["--nav-item-size" := "24px"]> ∅; iconIdentifier := ":";
     requireApiVersion_1_7_2 := false |}.

(** The store after the leaf appeared, the plugin registered once and the
    icons were loaded. *)
Definition watching : State :=
  run env [SetLeaf (Some outlineLeaf); Register; AllIconsLoaded] init.

Definition sample_batch : list MutationRecord :=
  [ {| type := childList; addedNodes := [treeItem 1 "x :one: y"] |} ].

End SampleHost.

(** ** A document, a vault and rules for the examples *)

(** A document for the examples.  Its selector engine reads attribute
    selectors on [data-icon] with the value between double quotes as the
    selector syntax reads a string: a backslash escapes the next code unit
    or introduces up to six hexadecimal digits, a line break ends the
    selector as not valid, the end of the text closes the string and the
    bracket.  Selectors of any other shape are not supported by this sample
    and count as not valid. *)
Module SampleDocument.
Import CustomRule.

Definition is_newline (c : ascii) : bool :=
  existsb (Ascii.eqb c) ["010"; "012"; "013"]%char.

Definition hex_digit (c : ascii) : option N :=
  let n := N_of_ascii c in
  (if (48 <=? n) && (n <=? 57) then Some (n - 48)
   else if (65 <=? n) && (n <=? 70) then Some (n - 55)
   else if (97 <=? n) && (n <=? 102) then Some (n - 87)
   else None)%N.

Fixpoint read_hex (count : nat) (s : string) (acc : N) : N * string :=
  match count, s with
  | S count', String c s' =>
      match hex_digit c with
      | Some d => read_hex count' s' (acc * 16 + d)%N
      | None => (acc, s)
      end
  | _, _ => (acc, s)
  end.

(** The code unit of a code point; none when an attribute value, which
    is made of code units below 256 here, cannot hold it. *)
Definition unit_of (n : N) : option ascii :=
  if ((0 <? n) && (n <? 256))%N then Some (ascii_of_N n) else None.

Definition skip_one_white (s : string) : string :=
  match s with
  | String c s' => if JS.is_white c then s' else s
  | EmptyString => s
  end.

(** A decoded value, none when it holds a code point that no attribute
    value holds, and the text after the closing quote; no result on a
    string that is not valid. *)
Definition push (c : option ascii) (r : option (option string * string))
    : option (option string * string) :=
  match r with
  | Some (Some v, rest) =>
      Some (match c with Some a => Some (String a v) | None => None end, rest)
  | Some (None, rest) => Some (None, rest)
  | None => None
  end.

Fixpoint string_token (fuel : nat) (s : string) : option (option string * string) :=
  match fuel with
  | O => None
  | S fuel' =>
      match s with
      | EmptyString => Some (Some EmptyString, EmptyString)
      | String c s' =>
          if Ascii.eqb c dquote then Some (Some EmptyString, s')
          else if is_newline c then None
          else if Ascii.eqb c "\" then
            match s' with
            | EmptyString => Some (Some EmptyString, EmptyString)
            | String d s'' =>
                if is_newline d then string_token fuel' s''
                else
                  match hex_digit d with
                  | Some _ =>
                      let (n, rest) := read_hex 6 s' 0%N in
                      push (unit_of n) (string_token fuel' (skip_one_white rest))
                  | None => push (Some d) (string_token fuel' s'')
                  end
            end
          else push (unit_of (N_of_ascii c)) (string_token fuel' s')
      end
  end.

Fixpoint strip_prefix (pre s : string) : option string :=
  match pre, s with
  | EmptyString, _ => Some s
  | String a pre', String b s' => if Ascii.eqb a b then strip_prefix pre' s' else None
  | String _ _, EmptyString => None
  end.

Definition select (selector : string) (nodes : list IconNode) : option (list IconNode) :=
  match strip_prefix (selector_head "data-icon") selector with
  | None => None
  | Some s =>
      match string_token (S (String.length s)) s with
      | Some (value, rest) =>
          if String.eqb rest "]" || String.eqb rest "" then
            Some (match value with
                  | Some v => List.filter (fun n => String.eqb (icon_attr n) v) nodes
                  | None => []
                  end)
          else None
      | None => None
      end
  end.

Lemma strip_prefix_app (pre s : string) : strip_prefix pre (pre ++ s) = Some s.
Proof.
  induction pre as [|a pre IH]; [now destruct s|].
  change (String a pre ++ s) with (String a (pre ++ s)). simpl.
  now rewrite Ascii.eqb_refl.
Qed.

Lemma safe_cons (c : ascii) (value : string) :
  selector_safe (String c value) = true ->
  Ascii.eqb c dquote = false /\ Ascii.eqb c "\" = false /\ is_newline c = false /\
  unit_of (N_of_ascii c) = Some c /\ selector_safe value = true.
Proof.
  unfold selector_safe, is_newline. cbn [existsb JS.has_char].
  rewrite !negb_true_iff, !orb_false_iff.
  intros ((Hq & Hq') & (Hb & Hb') & (Hl & Hl') & (Hf & Hf') & (Hr & Hr') & (Hz & Hz') & _).
  rewrite Hq, Hb, Hl, Hf, Hr, Hq', Hb', Hl', Hf', Hr', Hz'.
  assert (Hu : unit_of (N_of_ascii c) = Some c).
  { unfold unit_of.
    assert (Hlt : (N_of_ascii c <? 256)%N = true)
      by (apply N.ltb_lt, N_ascii_bounded).
    assert (Hpos : (0 <? N_of_ascii c)%N = true).
    { apply N.ltb_lt. destruct (N_of_ascii c) eqn:Hc; [|lia].
      apply (f_equal ascii_of_N) in Hc. rewrite ascii_N_embedding in Hc.
      subst c. discriminate. }
    now rewrite Hlt, Hpos, ascii_N_embedding. }
  rewrite Hu. repeat split; reflexivity.
Qed.

Lemma string_token_safe (value rest : string) (fuel : nat) :
  selector_safe value = true ->
  (String.length value < fuel)%nat ->
  string_token fuel (value ++ String dquote rest) = Some (Some value, rest).
Proof.
  revert fuel. induction value as [|c value IH]; intros fuel Hsafe Hfuel.
  - destruct fuel as [|fuel]; [lia|]. reflexivity.
  - destruct fuel as [|fuel]; [simpl in Hfuel; lia|].
    destruct (safe_cons c value Hsafe) as (Hq & Hb & Hn & Hu & Hsafe').
    change (String c value ++ String dquote rest)
      with (String c (value ++ String dquote rest)).
    cbn [string_token]. rewrite Hq, Hn, Hb, Hu, (IH fuel Hsafe'); [reflexivity|].
    simpl in Hfuel. lia.
Qed.

Lemma length_app_le (a b : string) : (String.length a <= String.length (a ++ b))%nat.
Proof.
  induction a as [|c a IH]; [simpl; lia|].
  change (String c a ++ b) with (String c (a ++ b)). simpl. lia.
Qed.

Lemma select_attribute (value : string) (nodes : list IconNode) :
  selector_safe value = true ->
  select (attribute_selector "data-icon" value) nodes
    = Some (List.filter (fun n => String.eqb (icon_attr n) value) nodes).
Proof.
  intros Hsafe. unfold select, attribute_selector.
  rewrite strip_prefix_app, (string_token_safe value "]" _ Hsafe); [reflexivity|].
  pose proof (length_app_le value (String dquote "]")). lia.
Qed.

#[global] Instance document : Document :=
  {| ICON_ATTRIBUTE_NAME := "data-icon";
     document_querySelectorAll := select;
     document_querySelectorAll_attribute := select_attribute |}.

End SampleDocument.

Module SampleVault.
Import CustomRule.

Definition star_rule : CustomRule :=
  {| rule := "\.md$"; icon := "star"; color := None; for_ := files;
     useFilePath := false; order := 1 |}.

Definition broken_rule : CustomRule :=
  {| rule := "("; icon := "bug"; color := Some "red"; for_ := everything;
     useFilePath := true; order := 0 |}.

Definition broken_folder_rule : CustomRule :=
  {| rule := "("; icon := "box"; color := None; for_ := folders;
     useFilePath := false; order := 2 |}.

Definition todo_md : TAbstractFile := TFile "notes/todo.md".
Definition todo_txt : TAbstractFile := TFile "notes/todo.txt".
Definition notes : TAbstractFile := TFolder "notes".

Definition title (n : nat) (f : TAbstractFile) : HTMLElement :=
  {| el_id := n; data_path := Some (path f) |}.

Definition plugin : Plugin :=
  {| vault := <["notes/todo.md" := todo_md]>
                (<["notes/todo.txt" := todo_txt]> (<["notes" := notes]> ∅));
     data := ∅;
     fileExplorers :=
       [[ {| fi_file := notes; fi_titleEl := Some (title 1 notes) |};
          {| fi_file := todo_md; fi_titleEl := Some (title 2 todo_md) |};
          {| fi_file := todo_txt; fi_titleEl := Some (title 3 todo_txt) |} ]];
     settings_rules := 0%nat |}.

(** A store whose settings array lists the rules out of order. *)
Definition unsorted_store : State :=
  with_heap <[0%nat := [broken_folder_rule; star_rule; broken_rule]]> init.

(** A document with an icon node of the star rule on the title of
    [notes/todo.md], one on the title of [notes/todo.txt], one without a
    parent element, one under an element without [data-path], one under an
    element whose path is not in the vault, and an icon node of another
    rule. *)
Definition document_store : State :=
  with_iconNodes (fun _ =>
    [ {| icon_attr := "star"; parentElement := Some (title 2 todo_md) |};
      {| icon_attr := "star"; parentElement := Some (title 3 todo_txt) |};
      {| icon_attr := "star"; parentElement := None |};
      {| icon_attr := "star";
         parentElement := Some {| el_id := 7; data_path := None |} |};
      {| icon_attr := "star";
         parentElement := Some {| el_id := 8; data_path := Some "gone.md" |} |};
      {| icon_attr := "bug"; parentElement := Some (title 1 notes) |} ])
    (with_iconCache (fun _ =>
       <["notes/todo.md" := {| iconNameWithPrefix := "star"; inCustomRule := true |}]>
         (<["notes" := {| iconNameWithPrefix := "bug"; inCustomRule := true |}]> ∅))
       init).




End SampleVault.

(** * Properties *)

(** ** Stores along a computation *)

(** A computation respects a preorder on stores when the store it ends
    with, returning or throwing, is related to the one it started from. *)
Section Respects.
Context {S : Type} (R : S -> S -> Prop) `{!PreOrder R}.

Definition respects {A} (m : M S A) : Prop :=
  forall st, R st (snd (m st)).

Lemma respects_ret {A} (a : A) : respects (ret a).
Proof. intros st. reflexivity. Qed.

Lemma respects_throw {A} (e : Exn) : respects (@throw S A e).
Proof. intros st. reflexivity. Qed.

Lemma respects_gets {A} (f : S -> A) : respects (gets f).
Proof. intros st. reflexivity. Qed.

Lemma respects_modify (f : S -> S) :
  (forall st, R st (f st)) -> respects (modify f).
Proof. intros Hf st. apply Hf. Qed.

Lemma respects_bind {A B} (m : M S A) (k : A -> M S B) :
  respects m -> (forall a, respects (k a)) -> respects (bind m k).
Proof.
  intros Hm Hk st. unfold bind. specialize (Hm st).
  destruct (m st) as [[a|e] st']; simpl in *; [|assumption].
  etransitivity; [exact Hm|apply Hk].
Qed.

Lemma respects_try_catch {A} (body : M S A) (handler : Exn -> M S A) :
  respects body -> (forall e, respects (handler e)) -> respects (try_catch body handler).
Proof.
  intros Hm Hk st. unfold try_catch. specialize (Hm st).
  destruct (body st) as [[a|e] st']; simpl in *; [assumption|].
  etransitivity; [exact Hm|apply Hk].
Qed.

Lemma respects_for_each {A} (xs : list A) (body : A -> M S unit) :
  (forall x, respects (body x)) -> respects (for_each xs body).
Proof.
  intros Hb. induction xs as [|x xs IH]; simpl.
  - apply respects_ret.
  - apply respects_bind; [apply Hb|intros _; exact IH].
Qed.

End Respects.

(** A computation returns when it never throws. *)
Definition returns {S A} (m : M S A) : Prop :=
  forall st, exists a, fst (m st) = Ok a.

Lemma returns_ret {S A} (a : A) : returns (@ret S A a).
Proof. intros st. now exists a. Qed.

Lemma returns_gets {S A} (f : S -> A) : returns (gets f).
Proof. intros st. now exists (f st). Qed.

Lemma returns_modify {S} (f : S -> S) : returns (modify f).
Proof. intros st. now exists tt. Qed.

Lemma returns_bind {S A B} (m : M S A) (k : A -> M S B) :
  returns m -> (forall a, returns (k a)) -> returns (bind m k).
Proof.
  intros Hm Hk st. unfold bind. destruct (Hm st) as [a Ha].
  destruct (m st) as [r st']. simpl in Ha. subst r. apply Hk.
Qed.

Lemma returns_for_each {S A} (xs : list A) (body : A -> M S unit) :
  (forall x, returns (body x)) -> returns (for_each xs body).
Proof.
  intros Hb. induction xs as [|x xs IH]; simpl.
  - apply returns_ret.
  - apply returns_bind; [apply Hb|intros _; exact IH].
Qed.

Lemma bind_ok {S A B} (m : M S A) (k : A -> M S B) st a st' :
  m st = (Ok a, st') -> bind m k st = k a st'.
Proof. intros Hm. unfold bind. now rewrite Hm. Qed.

Lemma returns_run {S A} (m : M S A) st :
  returns m -> exists a, m st = (Ok a, snd (m st)).
Proof.
  intros Hm. destruct (Hm st) as [a Ha]. exists a.
  destruct (m st) as [r st']. simpl in *. now subst.
Qed.

(** ** Built-ins *)

Module JSFacts.

Lemma split_nonempty sep s : JS.split sep s <> [].
Proof.
  destruct s as [|c s]; simpl; [discriminate|].
  destruct (Ascii.eqb c sep); [discriminate|].
  destruct (JS.split sep s); discriminate.
Qed.

Lemma pop_split sep s : JS.pop (JS.split sep s) = Some (List.last (JS.split sep s) "").
Proof.
  unfold JS.pop. generalize (split_nonempty sep s).
  generalize (JS.split sep s) as l. clear.
  induction l as [|x [|y l] IH]; intros Hne; simpl; try congruence.
  simpl in IH. rewrite IH; [reflexivity|discriminate].
Qed.

(** No separator occurs inside a piece of a split. *)
Lemma split_pieces sep s : Forall (fun piece => JS.has_char sep piece = false) (JS.split sep s).
Proof.
  induction s as [|c s IH]; simpl.
  - repeat constructor.
  - destruct (Ascii.eqb c sep) eqn:E.
    + constructor; [reflexivity|exact IH].
    + destruct (JS.split sep s) as [|h t]; inversion IH; subst.
      * repeat constructor. simpl. now rewrite E.
      * constructor; [simpl; now rewrite E|assumption].
Qed.

Lemma append_assoc (a b c : string) : (a ++ b) ++ c = a ++ (b ++ c).
Proof.
  induction a as [|x a IH]; [reflexivity|].
  change (String x ((a ++ b) ++ c) = String x (a ++ (b ++ c))). now rewrite IH.
Qed.

Lemma append_nil_r (a : string) : a ++ "" = a.
Proof.
  induction a as [|x a IH]; [reflexivity|].
  change (String x (a ++ "") = String x a). now rewrite IH.
Qed.

Lemma join_split sep s : JS.join sep (JS.split sep s) = s.
Proof.
  induction s as [|c s IH]; [reflexivity|]. simpl JS.split.
  pose proof (split_nonempty sep s) as Hne.
  destruct (Ascii.eqb c sep) eqn:E.
  - apply Ascii.eqb_eq in E. subst c.
    destruct (JS.split sep s) as [|h t]; [congruence|].
    change (JS.join sep ("" :: h :: t)) with (String sep (JS.join sep (h :: t))).
    now rewrite IH.
  - destruct (JS.split sep s) as [|h [|y t]]; [congruence| |].
    + simpl in *. now rewrite IH.
    + change (JS.join sep (String c h :: y :: t))
        with (String c (JS.join sep (h :: y :: t))).
      now rewrite IH.
Qed.

Lemma join_last sep (l : list string) :
  l <> [] ->
  exists pre, JS.join sep l = pre ++ List.last l "" /\
    (pre = "" \/ exists pre', pre = pre' ++ String sep "").
Proof.
  induction l as [|x [|y l] IH]; intros Hne; [congruence| |].
  - exists "". split; [reflexivity|now left].
  - destruct IH as (pre & Hj & Hpre); [discriminate|].
    exists (x ++ String sep pre). split.
    + change (JS.join sep (x :: y :: l)) with (x ++ String sep (JS.join sep (y :: l))).
      rewrite Hj. change (List.last (x :: y :: l) "") with (List.last (y :: l) "").
      rewrite append_assoc. reflexivity.
    + right. destruct Hpre as [->|(pre' & ->)].
      * now exists x.
      * exists (x ++ String sep pre'). rewrite append_assoc. reflexivity.
Qed.

(** The final segment of a path: the path ends with it, what precedes it
    is empty or ends with the separator, and it holds no separator. *)
Lemma split_last sep s :
  exists pre, s = pre ++ List.last (JS.split sep s) "" /\
    (pre = "" \/ exists pre', pre = pre' ++ String sep "") /\
    JS.has_char sep (List.last (JS.split sep s) "") = false.
Proof.
  destruct (join_last sep (JS.split sep s) (split_nonempty sep s)) as (pre & Hj & Hpre).
  rewrite join_split in Hj. exists pre. repeat split; try assumption.
  pose proof (split_pieces sep s) as Hp.
  pose proof (split_nonempty sep s) as Hne.
  revert Hp Hne. generalize (JS.split sep s) as l.
  induction l as [|x [|y l] IH]; intros Hp Hne; [congruence| |].
  - now inversion Hp.
  - inversion Hp; subst. apply IH; [assumption|discriminate].
Qed.

(** [includes] finds exactly the occurrences of the needle. *)
Lemma prefix_iff (a s : string) :
  String.prefix a s = true <-> exists post, s = a ++ post.
Proof.
  revert s. induction a as [|x a IH]; intros s.
  - split; [intros _; now exists s|intros _; now destruct s].
  - destruct s as [|y s]; simpl;
      [split; [discriminate|intros (post & Hp); discriminate]|].
    destruct (ascii_dec x y) as [->|Hxy].
    + rewrite IH. split; intros (post & Hp); exists post.
      * change (String y s = String y (a ++ post)). now rewrite Hp.
      * change (String y s = String y (a ++ post)) in Hp. congruence.
    + split; [discriminate|]. intros (post & Hp).
      change (String y s = String x (a ++ post)) in Hp. congruence.
Qed.

Lemma includes_iff (s sub : string) :
  JS.includes s sub = true <-> exists pre post, s = pre ++ sub ++ post.
Proof.
  induction s as [|c s IH]; cbn [JS.includes].
  - rewrite orb_false_r, prefix_iff. split.
    + intros (post & Hp). now exists "", post.
    + intros (pre & post & Hp). destruct pre as [|d pre]; [now exists post|].
      change ("" = String d (pre ++ sub ++ post)) in Hp. discriminate.
  - rewrite orb_true_iff, prefix_iff, IH. split.
    + intros [(post & Hp)|(pre & post & Hp)].
      * now exists "", post.
      * exists (String c pre), post.
        change (String c s = String c (pre ++ sub ++ post)). now rewrite Hp.
    + intros (pre & post & Hp). destruct pre as [|d pre].
      * left. now exists post.
      * right. exists pre, post.
        change (String c s = String d (pre ++ sub ++ post)) in Hp. congruence.
Qed.

(** *** Strings as lists of code units *)

Definition chars (s : string) : list ascii := list_ascii_of_string s.

Lemma chars_append (a b : string) : chars (a ++ b) = (chars a ++ chars b)%list.
Proof.
  induction a as [|x a IH]; [reflexivity|].
  change (chars (String x (a ++ b)) = (x :: chars a ++ chars b)%list).
  unfold chars in *. simpl. now rewrite IH.
Qed.

Lemma chars_length (s : string) : List.length (chars s) = String.length s.
Proof. induction s as [|x s IH]; simpl; [reflexivity|now rewrite IH]. Qed.

Lemma chars_inj (a b : string) : chars a = chars b -> a = b.
Proof.
  intros Hab. rewrite <- (string_of_list_ascii_of_string a),
    <- (string_of_list_ascii_of_string b). unfold chars in Hab. now rewrite Hab.
Qed.

Lemma chars_substring (n m : nat) (s : string) :
  chars (String.substring n m s) = take m (drop n (chars s)).
Proof.
  revert n m. induction s as [|c s IH]; intros n m.
  - destruct n, m; reflexivity.
  - destruct n as [|n].
    + destruct m as [|m]; [reflexivity|]. simpl. unfold chars in *. simpl.
      f_equal. apply (IH O m).
    + simpl. apply (IH n m).
Qed.

Lemma substring_chars (s : string) (a b : Z) :
  0 <= a <= b -> b <= JS.length s ->
  chars (JS.substring s a b) = take (Z.to_nat (b - a)) (drop (Z.to_nat a) (chars s)).
Proof.
  intros Hab Hb. unfold JS.substring, JS.clamp. rewrite chars_substring.
  replace (Z.min (Z.max 0 (Z.min a (JS.length s))) (Z.max 0 (Z.min b (JS.length s))))
    with a by lia.
  replace (Z.max (Z.max 0 (Z.min a (JS.length s))) (Z.max 0 (Z.min b (JS.length s))))
    with b by lia.
  reflexivity.
Qed.

(** *** [sort] with a comparator that subtracts keys *)

Section Sort.
Context {A : Type} (key : A -> Z).

Definition by_key (a b : A) : Z := key a - key b.
Definition key_le (a b : A) : Prop := key a <= key b.

Lemma sort_insert_perm (cmp : A -> A -> Z) (x : A) (l : list A) :
  Permutation (JS.sort_insert cmp x l) (x :: l).
Proof.
  induction l as [|y l IH]; simpl; [reflexivity|].
  destruct (cmp x y <=? 0); [reflexivity|].
  rewrite IH. apply perm_swap.
Qed.

Lemma sort_perm (cmp : A -> A -> Z) (l : list A) : Permutation (JS.sort cmp l) l.
Proof.
  induction l as [|x l IH]; simpl; [reflexivity|].
  rewrite sort_insert_perm. now constructor.
Qed.

Lemma sort_insert_sorted (x : A) (l : list A) :
  StronglySorted key_le l -> StronglySorted key_le (JS.sort_insert by_key x l).
Proof.
  induction l as [|y l IH]; intros Hs; simpl.
  - repeat constructor.
  - inversion Hs as [|? ? Hl Hy]; subst. unfold by_key at 1.
    destruct (key x - key y <=? 0) eqn:E.
    + apply Z.leb_le in E. constructor; [assumption|].
      constructor; [unfold key_le; lia|].
      eapply Forall_impl; [exact Hy|]. unfold key_le. intros; lia.
    + apply Z.leb_gt in E. constructor; [now apply IH|].
      rewrite (sort_insert_perm by_key x l). constructor; [unfold key_le; lia|exact Hy].
Qed.

Lemma sort_sorted (l : list A) : StronglySorted key_le (JS.sort by_key l).
Proof.
  induction l as [|x l IH]; simpl; [constructor|now apply sort_insert_sorted].
Qed.

(** Stability: the elements with one and the same key keep their order. *)
Lemma sort_insert_stable (k : Z) (x : A) (l : list A) :
  List.filter (fun a => key a =? k) (JS.sort_insert by_key x l)
    = List.filter (fun a => key a =? k) (x :: l).
Proof.
  induction l as [|y l IH]; [reflexivity|]. simpl JS.sort_insert. unfold by_key at 1.
  destruct (key x - key y <=? 0) eqn:E; [reflexivity|].
  apply Z.leb_gt in E. simpl in *. rewrite IH.
  destruct (key x =? k) eqn:Ex, (key y =? k) eqn:Ey; try reflexivity.
  apply Z.eqb_eq in Ex, Ey. lia.
Qed.

Lemma sort_stable (k : Z) (l : list A) :
  List.filter (fun a => key a =? k) (JS.sort by_key l)
    = List.filter (fun a => key a =? k) l.
Proof.
  induction l as [|x l IH]; [reflexivity|]. simpl JS.sort.
  rewrite sort_insert_stable. simpl. now rewrite IH.
Qed.

(** An array that is in order already is left as it is. *)
Lemma sort_sorted_id (l : list A) : StronglySorted key_le l -> JS.sort by_key l = l.
Proof.
  induction l as [|x l IH]; intros Hs; [reflexivity|].
  inversion Hs as [|? ? Hl Hx]; subst. simpl. rewrite (IH Hl).
  destruct l as [|y l]; [reflexivity|]. simpl. unfold by_key.
  inversion Hx as [|? ? Hxy _]; subst. unfold key_le in Hxy.
  destruct (key x - key y <=? 0) eqn:E; [reflexivity|]. apply Z.leb_gt in E. lia.
Qed.

End Sort.

(** A replacement without [$] is put in as it is. *)
Lemma substitution_plain (matched before after rep : string) :
  JS.has_char "$" rep = false ->
  JS.substitution matched before after rep = rep.
Proof.
  induction rep as [|c rep IH]; [reflexivity|]. cbn [JS.has_char JS.substitution].
  intros Hno. apply orb_false_iff in Hno. destruct Hno as [Hc Hrep].
  now rewrite Hc, (IH Hrep).
Qed.

Example replace_sample :
  JS.replace "a :x: b :x:" ":x:" "<i/>" = "a <i/> b :x:" /\
  JS.replace "a :x: b" ":x:" "<$&|$$|$1>" = "a <:x:|$|$1> b" /\
  JS.replace "a :x: b" ":x:" "[$`|$']" = "a [a | b] b" /\
  JS.replace "a b" ":x:" "<i/>" = "a b".
Proof. repeat split; reflexivity. Qed.

Lemma replace_from_plain (before s pat rep : string) :
  JS.has_char "$" rep = false ->
  JS.replace_from before s pat rep
    = if String.prefix pat s then rep ++ JS.drop (String.length pat) s
      else match s with
           | EmptyString => EmptyString
           | String c s' =>
               String c (JS.replace_from (before ++ String c EmptyString) s' pat rep)
           end.
Proof.
  intros Hno. destruct s as [|c s]; cbn [JS.replace_from];
    now rewrite (substitution_plain _ _ _ _ Hno).
Qed.

End JSFacts.

(** ** The pattern cache and the matching engine *)

Module CustomRuleFacts.
Import CustomRule.

Section WithEngine.
Context `{RegExpEngine} `{Document}.

Ltac run_js :=
  unfold bind, gets, modify, try_catch, newRegExp, ret, throw, str_includes; simpl.

Lemma doesMatchPath_eq (r : CustomRule) (p : string) (st : State) :
  doesMatchPath r p st =
    (match regexCache (ensure (rule r) st) !! rule r with
     | Some None =>
         match (if useFilePath r then Some p else JS.pop (JS.split "/" p)) with
         | Some s => Ok (JS.includes s (rule r))
         | None => Throw TypeError
         end
     | Some (Some re) =>
         Ok (regexp_test re (if useFilePath r then Some p else JS.pop (JS.split "/" p)))
     | None => Throw TypeError
     end, ensure (rule r) st).
Proof.
  unfold doesMatchPath, ensure. run_js.
  destruct (bool_decide (is_Some (regexCache st !! rule r))) eqn:Hhas; simpl.
  - destruct (regexCache st !! rule r) as [[re|]|]; try reflexivity.
    destruct (if useFilePath r then _ else _); reflexivity.
  - destruct (compile (rule r)) as [re|]; simpl;
      rewrite lookup_insert_eq; try reflexivity.
    destruct (if useFilePath r then _ else _); reflexivity.
Qed.

Lemma ensure_lookup (src : string) (st : State) :
  cache_ok st -> regexCache (ensure src st) !! src = Some (compile src).
Proof.
  intros Hok. unfold ensure.
  destruct (bool_decide (is_Some (regexCache st !! src))) eqn:Hhas.
  - apply bool_decide_eq_true in Hhas. destruct Hhas as [entry Hentry].
    rewrite Hentry. f_equal. now apply Hok.
  - simpl. now rewrite lookup_insert_eq.
Qed.

Lemma ensure_cache_ok (src : string) (st : State) :
  cache_ok st -> cache_ok (ensure src st).
Proof.
  intros Hok. unfold ensure.
  destruct (bool_decide (is_Some (regexCache st !! src))); [assumption|].
  intros s entry. simpl. rewrite lookup_insert.
  case_decide; [intros [= <-]; now subst|apply Hok].
Qed.

Lemma toMatch_subject (r : CustomRule) (p : string) :
  (if useFilePath r then Some p else JS.pop (JS.split "/" p)) = Some (subject r p).
Proof.
  unfold subject. destruct (useFilePath r); [reflexivity|apply JSFacts.pop_split].
Qed.

Lemma doesMatchPath_value (r : CustomRule) (p : string) (st : State) :
  cache_ok st -> fst (doesMatchPath r p st) = Ok (matchesPath r p).
Proof.
  intros Hok. rewrite doesMatchPath_eq. simpl.
  rewrite (ensure_lookup _ _ Hok), toMatch_subject. unfold matchesPath, regexp_test.
  destruct (compile (rule r)); reflexivity.
Qed.

(** Whatever the store holds, [doesMatchPath] returns. *)
Lemma doesMatchPath_returns (r : CustomRule) (p : string) : returns (doesMatchPath r p).
Proof.
  intros st. rewrite doesMatchPath_eq, toMatch_subject. cbn [fst].
  assert (Hsome : is_Some (regexCache (ensure (rule r) st) !! rule r)).
  { unfold ensure. destruct (bool_decide _) eqn:E.
    - now apply bool_decide_eq_true in E.
    - simpl. rewrite lookup_insert_eq. eauto. }
  destruct Hsome as [[re|] ->]; eauto.
Qed.

Lemma doesMatchPath_store (r : CustomRule) (p : string) (st : State) :
  snd (doesMatchPath r p st) = ensure (rule r) st.
Proof. now rewrite doesMatchPath_eq. Qed.

(** *** What every call does to the pattern cache *)

(** The compile log lists each cached source once. *)
Definition log_ok (st : State) : Prop :=
  NoDup (compiled st) /\
  forall src, src ∈ compiled st <-> is_Some (regexCache st !! src).

(** From [st] to [st']: entries stay, and the invariants carry over. *)
Definition step_ok (st st' : State) : Prop :=
  (forall src entry, regexCache st !! src = Some entry ->
                     regexCache st' !! src = Some entry) /\
  (cache_ok st -> cache_ok st') /\
  (log_ok st -> log_ok st').

Lemma step_ok_refl st : step_ok st st.
Proof. split; [|split]; auto. Qed.

Lemma step_ok_trans st1 st2 st3 :
  step_ok st1 st2 -> step_ok st2 st3 -> step_ok st1 st3.
Proof.
  intros (Ha & Hb & Hc) (Ha' & Hb' & Hc'). split; [|split]; auto.
Qed.

#[local] Instance step_ok_preorder : PreOrder step_ok.
Proof. split; [exact step_ok_refl|exact step_ok_trans]. Qed.

Lemma step_ok_same st st' :
  regexCache st' = regexCache st -> compiled st' = compiled st -> step_ok st st'.
Proof.
  intros Hc Hl. unfold step_ok, cache_ok, log_ok. rewrite Hc, Hl.
  split; [|split]; auto.
Qed.

Lemma step_ok_ensure src st : step_ok st (ensure src st).
Proof.
  unfold ensure.
  destruct (bool_decide (is_Some (regexCache st !! src))) eqn:Hhas;
    [apply step_ok_refl|].
  apply bool_decide_eq_false in Hhas.
  split; [|split].
  - intros s entry Hs. simpl.
    rewrite lookup_insert_ne; [assumption|].
    intros ->. apply Hhas. now exists entry.
  - intros Hok. generalize (ensure_cache_ok src st Hok). unfold ensure.
    now rewrite (bool_decide_eq_false_2 _ Hhas).
  - intros [Hnd Hlog]. split; simpl.
    + apply NoDup_cons. split; [|assumption]. now rewrite Hlog.
    + intros s. rewrite lookup_insert, elem_of_cons, Hlog.
      case_decide; subst; split; eauto.
      intros [->|Hs]; [congruence|assumption].
Qed.

(** *** What every call keeps *)

Lemma ensure_fields (src : string) (st : State) :
  iconNodes (ensure src st) = iconNodes st /\ iconCache (ensure src st) = iconCache st /\
  rendered (ensure src st) = rendered st /\ heap (ensure src st) = heap st.
Proof. unfold ensure. destruct (bool_decide _); auto. Qed.

Lemma has_parent_iff (el : HTMLElement) (n : IconNode) :
  has_parent el n = true <-> parentElement n = Some el.
Proof. unfold has_parent. apply bool_decide_eq_true. Qed.

Lemma remove_first_under_filter (el : HTMLElement) (nodes : list IconNode) :
  one_icon_per_element nodes ->
  remove_first_under el nodes = List.filter (fun n => negb (has_parent el n)) nodes.
Proof.
  unfold one_icon_per_element.
  induction nodes as [|n nodes IH]; intros Hnd; [reflexivity|]. simpl in *.
  destruct (has_parent el n) eqn:En; simpl.
  - apply has_parent_iff in En. rewrite En in Hnd. apply NoDup_cons in Hnd.
    destruct Hnd as [Hnot _]. clear IH. induction nodes as [|m nodes IH]; [reflexivity|].
    simpl. destruct (has_parent el m) eqn:Em; simpl.
    + exfalso. apply Hnot. apply has_parent_iff in Em. simpl. rewrite Em. apply elem_of_cons. now left.
    + rewrite <- IH; [reflexivity|]. intros Hin. apply Hnot. simpl.
      destruct (parentElement m); [apply elem_of_cons; now right|exact Hin].
  - f_equal. apply IH. destruct (parentElement n); [now apply NoDup_cons in Hnd|exact Hnd].
Qed.

Lemma one_icon_per_element_filter (f : IconNode -> bool) (nodes : list IconNode) :
  one_icon_per_element nodes -> one_icon_per_element (List.filter f nodes).
Proof.
  unfold one_icon_per_element.
  induction nodes as [|n nodes IH]; intros Hnd; [exact Hnd|]. simpl in *.
  assert (Htail : NoDup (omap parentElement nodes)).
  { destruct (parentElement n); [now apply NoDup_cons in Hnd|exact Hnd]. }
  destruct (f n); [|now apply IH]. simpl.
  destruct (parentElement n) as [p|] eqn:Hp; [|now apply IH].
  apply NoDup_cons in Hnd. destruct Hnd as [Hnot _].
  apply NoDup_cons. split; [|now apply IH].
  intros Hin. apply Hnot. apply list_elem_of_omap in Hin. destruct Hin as (x & Hx & Hpx).
  apply list_elem_of_omap. exists x. split; [|exact Hpx].
  apply list_elem_of_In in Hx. apply filter_In in Hx. apply list_elem_of_In. tauto.
Qed.

Lemma set_icon_under_parents (el : HTMLElement) (i : string) (nodes : list IconNode) :
  omap parentElement (set_icon_under el i nodes) = omap parentElement nodes.
Proof.
  induction nodes as [|n nodes IH]; [reflexivity|]. cbn [set_icon_under].
  destruct (has_parent el n); [reflexivity|].
  change (omap parentElement (n :: set_icon_under el i nodes))
    with (match parentElement n with
          | Some y => y :: omap parentElement (set_icon_under el i nodes)
          | None => omap parentElement (set_icon_under el i nodes)
          end).
  rewrite IH. reflexivity.
Qed.

Lemma render_into_one_icon (el : HTMLElement) (i : string) (nodes : list IconNode) :
  one_icon_per_element nodes -> one_icon_per_element (render_into el i nodes).
Proof.
  unfold one_icon_per_element, render_into. intros Hnd.
  destruct (existsb (has_parent el) nodes) eqn:E.
  - now rewrite set_icon_under_parents.
  - rewrite omap_app. simpl. apply NoDup_app. split; [exact Hnd|]. split.
    + intros x Hx Hel. apply list_elem_of_singleton in Hel. subst x.
      apply list_elem_of_omap in Hx. destruct Hx as (n & Hn & Hp).
      assert (Htrue : existsb (has_parent el) nodes = true).
      { apply existsb_exists. exists n. split; [now apply list_elem_of_In|].
        now apply has_parent_iff. }
      congruence.
    + apply NoDup_singleton.
Qed.

Lemma remove_first_under_one_icon (el : HTMLElement) (nodes : list IconNode) :
  one_icon_per_element nodes -> one_icon_per_element (remove_first_under el nodes).
Proof.
  intros Hnd. rewrite (remove_first_under_filter el nodes Hnd).
  now apply one_icon_per_element_filter.
Qed.

(** A preorder on stores that holds across the six kinds of write the
    module performs holds across every call and every run of calls. *)
Section EveryCall.
Variable R : State -> State -> Prop.
Context `{!PreOrder R}.
Hypothesis R_ensure : forall src st, R st (ensure src st).
Hypothesis R_iconCache : forall f st, R st (with_iconCache f st).
Hypothesis R_rendered : forall f st, R st (with_rendered f st).
Hypothesis R_heap : forall f st, R st (with_heap f st).
Hypothesis R_render : forall el i st, R st (with_iconNodes (render_into el i) st).
Hypothesis R_remove : forall el st, R st (with_iconNodes (remove_first_under el) st).

Lemma every_doesMatchPath r p : respects R (doesMatchPath r p).
Proof. intros st. rewrite doesMatchPath_store. apply R_ensure. Qed.

Lemma every_isApplicable pl r p : respects R (isApplicable pl r p).
Proof.
  unfold isApplicable. destruct (getAbstractFileByPath pl p); [|now apply respects_ret].
  destruct (negb _); [now apply respects_ret|apply every_doesMatchPath].
Qed.

Lemma every_createIconNode pl p i c container :
  respects R (createIconNode pl p i c container).
Proof.
  unfold createIconNode. apply respects_bind; [assumption| |intros _].
  - apply respects_modify. intros st. apply R_rendered.
  - destruct (match container with Some _ => _ | None => _ end);
      [|now apply respects_ret].
    apply respects_modify. intros st. apply R_render.
Qed.

Lemma every_add pl r f container : respects R (add pl r f container).
Proof.
  unfold add. apply respects_bind; [assumption| |].
  - destruct container; [now apply respects_gets|now apply respects_ret].
  - intros carries. destruct carries; [now apply respects_ret|].
    destruct (truthy _); [now apply respects_ret|].
    apply respects_bind; [assumption|apply every_isApplicable|].
    intros doesMatch. destruct doesMatch; [|now apply respects_ret].
    apply respects_bind; [assumption| |intros _].
    { apply respects_modify. intros st. apply R_iconCache. }
    apply respects_bind; [assumption|apply every_createIconNode|].
    intros _. now apply respects_ret.
Qed.

Lemma every_removeFromAllFiles pl r : respects R (removeFromAllFiles pl r).
Proof.
  unfold removeFromAllFiles. apply respects_bind; [assumption| |].
  { intros st. unfold querySelectorAll_icon.
    destruct (document_querySelectorAll _ _); reflexivity. }
  intros nodes. apply respects_for_each; [assumption|]. intros node.
  destruct (parentElement node) as [parent|]; [|now apply respects_ret].
  destruct (usable_data_path parent) as [dataPath|]; [|now apply respects_ret].
  destruct (getAbstractFileByPath pl dataPath); [|now apply respects_ret].
  apply respects_bind; [assumption|apply every_doesMatchPath|].
  intros m. destruct (m && _); [|now apply respects_ret].
  apply respects_bind; [assumption| |intros _].
  - apply respects_modify. intros st. apply R_remove.
  - apply respects_modify. intros st. apply R_iconCache.
Qed.

Lemma every_collect pl r items : respects R (collect pl r items).
Proof.
  induction items as [|fi items IH]; simpl; [now apply respects_ret|].
  apply respects_bind; [assumption|apply every_isApplicable|intros ok].
  apply respects_bind; [assumption|exact IH|intros more; now apply respects_ret].
Qed.

Lemma every_addToAllFiles pl r : respects R (addToAllFiles pl r).
Proof.
  unfold addToAllFiles, getFileItems.
  apply respects_bind; [assumption|apply every_collect|intros items].
  apply respects_for_each; [assumption|]. intros fi.
  apply respects_bind; [assumption|apply every_add|intros _; now apply respects_ret].
Qed.

Lemma every_getSortedRules pl : respects R (getSortedRules pl).
Proof.
  unfold getSortedRules. apply respects_bind; [assumption|now apply respects_gets|].
  intros [rs|]; [|now apply respects_throw].
  apply respects_bind; [assumption| |intros _; now apply respects_ret].
  apply respects_modify. intros st. apply R_heap.
Qed.

Lemma every_exec c st : R st (exec c st).
Proof.
  destruct c; simpl.
  - apply every_doesMatchPath.
  - apply every_isApplicable.
  - apply every_add.
  - apply every_addToAllFiles.
  - apply every_removeFromAllFiles.
  - apply every_collect.
  - apply every_getSortedRules.
Qed.

Lemma every_run calls st : R st (run calls st).
Proof.
  revert st. induction calls as [|c calls IH]; intros st; simpl.
  - reflexivity.
  - transitivity (exec c st); [apply every_exec|apply IH].
Qed.

End EveryCall.

Lemma step_ok_run calls st : step_ok st (run calls st).
Proof.
  apply every_run; try apply _; intros; try apply step_ok_ensure;
    apply step_ok_same; reflexivity.
Qed.

(** From [st] to [st']: no element comes to hold two icon nodes. *)
Definition dom_ok (st st' : State) : Prop :=
  one_icon_per_element (iconNodes st) -> one_icon_per_element (iconNodes st').

#[local] Instance dom_ok_preorder : PreOrder dom_ok.
Proof. split; unfold dom_ok; [intros st; auto|intros a b c Hab Hbc; auto]. Qed.

Lemma dom_ok_run calls st : dom_ok st (run calls st).
Proof.
  apply every_run; try apply _; unfold dom_ok; simpl; intros; auto.
  - now destruct (ensure_fields src st0) as (-> & _).
  - now apply render_into_one_icon.
  - now apply remove_first_under_one_icon.
Qed.

Lemma cache_ok_init : cache_ok init.
Proof. intros src entry. simpl. now rewrite lookup_empty. Qed.

Lemma log_ok_init : log_ok init.
Proof.
  split; simpl; [constructor|]. intros src. rewrite lookup_empty. split.
  - intros Hin. now apply elem_of_nil in Hin.
  - intros [x Hx]. discriminate.
Qed.

Lemma cache_ok_run calls : cache_ok (run calls init).
Proof. apply (step_ok_run calls init), cache_ok_init. Qed.

(** The renderer reuses the icon node of an element, so no store reached
    from the initial one has an element with two icon nodes. *)
Lemma one_icon_per_element_run calls : one_icon_per_element (iconNodes (run calls init)).
Proof. apply (dom_ok_run calls init). constructor. Qed.

Lemma doesMatchFileType_iff (r : CustomRule) (t : CustomRuleFileType) :
  doesMatchFileType r t = true <->
  for_ r = everything \/ (for_ r = files /\ t = file) \/ (for_ r = folders /\ t = folder).
Proof.
  unfold doesMatchFileType. destruct (for_ r), t; simpl; split; intros Hx;
    try reflexivity; try discriminate; try tauto;
    destruct Hx as [Hx|[[Hx Hy]|[Hx Hy]]]; discriminate.
Qed.

(** C4.  A rule whose pattern source does not compile never makes
    [doesMatchPath] raise: the SyntaxError of [new RegExp] is caught, the
    fallback marker is stored, the call answers with substring
    containment of the raw rule string in the comparison subject, and
    after any further calls into the module the marker is still there and
    every rule with that source is still answered by containment. *)
Theorem invalid_pattern_never_raises
    (st : State) (r : CustomRule) (p : string) :
  cache_ok st ->
  compile (rule r) = None ->
  fst (newRegExp (rule r) st) = Throw SyntaxError /\
  fst (doesMatchPath r p st) = Ok (JS.includes (subject r p) (rule r)) /\
  regexCache (snd (doesMatchPath r p st)) !! rule r = Some None /\
  forall (calls : list Call) (r' : CustomRule) (p' : string),
    rule r' = rule r ->
    regexCache (run calls (snd (doesMatchPath r p st))) !! rule r = Some None /\
    fst (doesMatchPath r' p' (run calls (snd (doesMatchPath r p st))))
      = Ok (JS.includes (subject r' p') (rule r)).
Proof.
  intros Hok Hbad.
  assert (Hentry : regexCache (snd (doesMatchPath r p st)) !! rule r = Some None).
  { rewrite doesMatchPath_store, (ensure_lookup _ _ Hok). now rewrite Hbad. }
  assert (Hok1 : cache_ok (snd (doesMatchPath r p st))).
  { rewrite doesMatchPath_store. now apply ensure_cache_ok. }
  split; [|split; [|split]].
  - unfold newRegExp. now rewrite Hbad.
  - rewrite (doesMatchPath_value _ _ _ Hok). unfold matchesPath. now rewrite Hbad.
  - exact Hentry.
  - intros calls r' p' Hsame.
    destruct (step_ok_run calls (snd (doesMatchPath r p st))) as (Hkeep & Hok' & _).
    split; [now apply Hkeep|].
    rewrite (doesMatchPath_value _ _ _ (Hok' Hok1)). unfold matchesPath.
    now rewrite Hsame, Hbad.
Qed.

(** C5.  In every store reached from the initial one by calls into the
    module, no source has been handed to [new RegExp] twice.  A call of
    [doesMatchPath] leaves an entry for the rule's source (compiling it
    when, and only when, there was none); a later call for a rule with
    the same source, whatever its other fields and the path, changes
    nothing in the store, so it compiles nothing, and it reads the entry
    the first call left. *)
Theorem pattern_compiled_once
    (calls : list Call) (r1 r2 : CustomRule) (p1 p2 : string) :
  rule r1 = rule r2 ->
  NoDup (compiled (run calls init)) /\
  NoDup (compiled (snd (doesMatchPath r1 p1 (run calls init)))) /\
  rule r1 ∈ compiled (snd (doesMatchPath r1 p1 (run calls init))) /\
  (regexCache (run calls init) !! rule r1 = None ->
   compiled (snd (doesMatchPath r1 p1 (run calls init)))
     = rule r1 :: compiled (run calls init)) /\
  (is_Some (regexCache (run calls init) !! rule r1) ->
   snd (doesMatchPath r1 p1 (run calls init)) = run calls init) /\
  regexCache (snd (doesMatchPath r1 p1 (run calls init))) !! rule r1
    = Some (compile (rule r1)) /\
  snd (doesMatchPath r2 p2 (snd (doesMatchPath r1 p1 (run calls init))))
    = snd (doesMatchPath r1 p1 (run calls init)) /\
  fst (doesMatchPath r2 p2 (snd (doesMatchPath r1 p1 (run calls init))))
    = Ok (match regexCache (snd (doesMatchPath r1 p1 (run calls init))) !! rule r1 with
          | Some (Some re) => test re (subject r2 p2)
          | _ => JS.includes (subject r2 p2) (rule r1)
          end).
Proof.
  intros Hsame. set (st := run calls init).
  assert (Hok : cache_ok st) by apply cache_ok_run.
  assert (Hlog : log_ok st) by apply (step_ok_run calls init), log_ok_init.
  pose proof (step_ok_ensure (rule r1) st) as (_ & Hok1 & Hlog1).
  specialize (Hok1 Hok). specialize (Hlog1 Hlog).
  rewrite !doesMatchPath_store.
  assert (Hentry : regexCache (ensure (rule r1) st) !! rule r1 = Some (compile (rule r1)))
    by now apply ensure_lookup.
  split; [apply Hlog|]. split; [apply Hlog1|].
  split; [apply Hlog1; rewrite Hentry; eauto|].
  split; [|split; [|split; [|split]]].
  - intros Hnone. unfold ensure. rewrite bool_decide_eq_false_2; [reflexivity|].
    rewrite Hnone. intros [x Hx]. discriminate.
  - intros Hsome. unfold ensure. now rewrite bool_decide_eq_true_2.
  - exact Hentry.
  - rewrite <- Hsame. unfold ensure at 1.
    rewrite bool_decide_eq_true_2; [reflexivity|]. rewrite Hentry. eauto.
  - rewrite (doesMatchPath_value _ _ _ Hok1). unfold matchesPath.
    rewrite Hentry, <- Hsame. destruct (compile (rule r1)); reflexivity.
Qed.

(** C6.  [isApplicable] returns, without raising, and its answer is
    true exactly when the vault has an entry at the path, the rule's
    [for] field admits the entry's type, and [doesMatchPath] holds;
    [doesMatchPath] is the pattern test (or, for a source that does not
    compile, containment) on the comparison subject, which is the whole
    path when [useFilePath] is set and otherwise the final segment of
    the path. *)
Theorem isApplicable_iff
    (pl : Plugin) (r : CustomRule) (p : string) (st : State) :
  cache_ok st ->
  (exists b, fst (isApplicable pl r p st) = Ok b /\
     (b = true <->
      exists entry, getAbstractFileByPath pl p = Some entry /\
        doesMatchFileType r (fileTypeOf entry) = true /\
        fst (doesMatchPath r p st) = Ok true)) /\
  (getAbstractFileByPath pl p = None -> fst (isApplicable pl r p st) = Ok false) /\
  (forall entry, fileTypeOf entry = folder <-> exists q, entry = TFolder q) /\
  (forall t, doesMatchFileType r t = true <->
     for_ r = everything \/ (for_ r = files /\ t = file)
     \/ (for_ r = folders /\ t = folder)) /\
  fst (doesMatchPath r p st)
    = Ok (match compile (rule r) with
          | Some re => test re (subject r p)
          | None => JS.includes (subject r p) (rule r)
          end) /\
  (useFilePath r = true -> subject r p = p) /\
  (useFilePath r = false ->
   JS.has_char "/" (subject r p) = false /\
   exists pre, p = pre ++ subject r p /\
     (pre = "" \/ exists pre', pre = pre' ++ "/")).
Proof.
  intros Hok. split; [|split; [|split; [|split; [|split; [|split]]]]].
  - unfold isApplicable.
    destruct (getAbstractFileByPath pl p) as [entry|] eqn:Hv.
    + destruct (doesMatchFileType r (fileTypeOf entry)) eqn:Ht; simpl.
      * rewrite (doesMatchPath_value _ _ _ Hok). eexists. split; [reflexivity|].
        split.
        -- intros Hm. exists entry. rewrite Hm. auto.
        -- intros (entry' & _ & _ & [= Hm]). exact Hm.
      * exists false. split; [reflexivity|]. split; [discriminate|].
        intros (entry' & [= <-] & Ht' & _). congruence.
    + exists false. split; [reflexivity|]. split; [discriminate|].
      intros (entry' & Hx & _). discriminate.
  - intros Hv. unfold isApplicable. now rewrite Hv.
  - intros [q|q]; unfold fileTypeOf; simpl; split; try discriminate; eauto.
    intros (q' & Hq). discriminate.
  - apply doesMatchFileType_iff.
  - apply (doesMatchPath_value _ _ _ Hok).
  - intros Hu. unfold subject. now rewrite Hu.
  - intros Hu. unfold subject. rewrite Hu.
    destruct (JSFacts.split_last "/" p) as (pre & Hp & Hpre & Hno).
    split; [exact Hno|]. exists pre. split; [exact Hp|exact Hpre].
Qed.

(** *** Removing the icons of a rule *)

Lemma doesMatchPath_run (r : CustomRule) (p : string) (st : State) :
  cache_ok st -> doesMatchPath r p st = (Ok (matchesPath r p), ensure (rule r) st).
Proof.
  intros Hok. rewrite <- (doesMatchPath_value r p st Hok), <- (doesMatchPath_store r p st).
  now destruct (doesMatchPath r p st).
Qed.

(** What one iteration of the loop does to the store. *)
Definition rm_step (pl : Plugin) (r : CustomRule) (n : IconNode) (st : State) : State :=
  match parentElement n with
  | None => st
  | Some parent =>
      match usable_data_path parent with
      | None => st
      | Some dataPath =>
          match getAbstractFileByPath pl dataPath with
          | None => st
          | Some abstractFile =>
              if matchesPath r dataPath && doesMatchFileType r (fileTypeOf abstractFile)
              then with_iconCache (delete dataPath)
                     (with_iconNodes (remove_first_under parent) (ensure (rule r) st))
              else ensure (rule r) st
          end
      end
  end.

Lemma for_each_fold {A} (P : State -> Prop) (body : A -> M State unit)
    (g : A -> State -> State) (xs : list A) (st : State) :
  (forall x s, P s -> body x s = (Ok tt, g x s) /\ P (g x s)) ->
  P st ->
  for_each xs body st = (Ok tt, fold_left (fun s x => g x s) xs st) /\
  P (fold_left (fun s x => g x s) xs st).
Proof.
  intros Hbody. revert st. induction xs as [|x xs IH]; intros st HP; simpl.
  - now split.
  - destruct (Hbody x st HP) as [Hx HPx]. erewrite bind_ok; [|exact Hx]. now apply IH.
Qed.

(** On a selector that is not valid the call ends with the SyntaxError of
    [querySelectorAll], before anything is removed. *)
Lemma removeFromAllFiles_invalid_selector (pl : Plugin) (r : CustomRule) (st : State) :
  document_querySelectorAll (attribute_selector ICON_ATTRIBUTE_NAME (icon r))
    (iconNodes st) = None ->
  removeFromAllFiles pl r st = (Throw SyntaxError, st).
Proof.
  intros Hsel. unfold removeFromAllFiles, querySelectorAll_icon, bind. now rewrite Hsel.
Qed.

Lemma removeFromAllFiles_fold (pl : Plugin) (r : CustomRule) (st : State) :
  selector_safe (icon r) = true ->
  cache_ok st ->
  removeFromAllFiles pl r st =
    (Ok tt,
     fold_left (fun s n => rm_step pl r n s)
       (List.filter (fun n => String.eqb (icon_attr n) (icon r)) (iconNodes st)) st).
Proof.
  intros Hsafe Hok. unfold removeFromAllFiles.
  erewrite bind_ok;
    [|unfold querySelectorAll_icon;
      now rewrite (document_querySelectorAll_attribute _ _ Hsafe)].
  apply (for_each_fold cache_ok); [|exact Hok].
  intros n s Hs. unfold rm_step.
  destruct (parentElement n) as [parent|]; [|now split].
  destruct (usable_data_path parent) as [dataPath|]; [|now split].
  destruct (getAbstractFileByPath pl dataPath) as [af|]; [|now split].
  erewrite bind_ok; [|now apply doesMatchPath_run].
  pose proof (ensure_cache_ok (rule r) s Hs) as Hs'.
  destruct (matchesPath r dataPath && doesMatchFileType r (fileTypeOf af)); [|now split].
  split; [reflexivity|exact Hs'].
Qed.

(** The projections of one iteration. *)
Definition rm_nodes (pl : Plugin) (r : CustomRule) (n : IconNode)
    (nodes : list IconNode) : list IconNode :=
  if still_matches pl r n then
    match parentElement n with
    | Some parent => remove_first_under parent nodes
    | None => nodes
    end
  else nodes.

Definition rm_cache (pl : Plugin) (r : CustomRule) (n : IconNode)
    (cache : gmap string IconAssignment) : gmap string IconAssignment :=
  if still_matches pl r n then
    match owner n with
    | Some dataPath => delete dataPath cache
    | None => cache
    end
  else cache.

Lemma rm_step_fields (pl : Plugin) (r : CustomRule) (n : IconNode) (st : State) :
  iconNodes (rm_step pl r n st) = rm_nodes pl r n (iconNodes st) /\
  iconCache (rm_step pl r n st) = rm_cache pl r n (iconCache st) /\
  rendered (rm_step pl r n st) = rendered st /\
  heap (rm_step pl r n st) = heap st.
Proof.
  destruct (ensure_fields (rule r) st) as (Hn & Hc & Hr & Hh).
  unfold rm_step, rm_nodes, rm_cache, still_matches, owner.
  destruct (parentElement n) as [parent|]; [|auto].
  destruct (usable_data_path parent) as [dataPath|]; [|auto].
  destruct (getAbstractFileByPath pl dataPath) as [af|]; [|auto].
  destruct (matchesPath r dataPath && doesMatchFileType r (fileTypeOf af)); simpl;
    rewrite ?Hn, ?Hc; auto.
Qed.

Lemma rm_fold_fields (pl : Plugin) (r : CustomRule) (ms : list IconNode) (st : State) :
  iconNodes (fold_left (fun s n => rm_step pl r n s) ms st)
    = fold_left (fun nodes n => rm_nodes pl r n nodes) ms (iconNodes st) /\
  iconCache (fold_left (fun s n => rm_step pl r n s) ms st)
    = fold_left (fun cache n => rm_cache pl r n cache) ms (iconCache st) /\
  rendered (fold_left (fun s n => rm_step pl r n s) ms st) = rendered st /\
  heap (fold_left (fun s n => rm_step pl r n s) ms st) = heap st.
Proof.
  revert st. induction ms as [|m ms IH]; intros st; simpl; [auto|].
  destruct (rm_step_fields pl r m st) as (Hn & Hc & Hr & Hh).
  destruct (IH (rm_step pl r m st)) as (Hn' & Hc' & Hr' & Hh').
  rewrite Hn', Hc', Hr', Hh', Hn, Hc, Hr, Hh. auto.
Qed.

Lemma unique_parent (nodes : list IconNode) (m n : IconNode) (el : HTMLElement) :
  one_icon_per_element nodes ->
  In m nodes -> In n nodes ->
  parentElement m = Some el -> parentElement n = Some el -> m = n.
Proof.
  unfold one_icon_per_element.
  induction nodes as [|a nodes IH]; intros Hnd Hm Hn Hpm Hpn; [contradiction|].
  simpl in Hnd.
  assert (Hin : forall x, In x nodes -> parentElement x = Some el ->
                          el ∈ omap parentElement nodes).
  { intros x Hx Hpx. apply list_elem_of_omap. exists x. split; [|exact Hpx].
    now apply list_elem_of_In. }
  destruct Hm as [<-|Hm], Hn as [<-|Hn]; [reflexivity| | |].
  - rewrite Hpm in Hnd. apply NoDup_cons in Hnd. destruct Hnd as [Hnot _].
    exfalso. apply Hnot. now apply (Hin n).
  - rewrite Hpn in Hnd. apply NoDup_cons in Hnd. destruct Hnd as [Hnot _].
    exfalso. apply Hnot. now apply (Hin m).
  - apply IH; try assumption.
    destruct (parentElement a); [now apply NoDup_cons in Hnd|exact Hnd].
Qed.

Lemma filter_filter_andb {A} (f g : A -> bool) (l : list A) :
  List.filter g (List.filter f l) = List.filter (fun x => f x && g x) l.
Proof.
  induction l as [|x l IH]; [reflexivity|]. simpl.
  destruct (f x); simpl; [destruct (g x); now rewrite IH|exact IH].
Qed.

(** Whether one of the nodes [ms] is to be removed and sits under the
    parent of [n]. *)
Definition hit (pl : Plugin) (r : CustomRule) (ms : list IconNode) (n : IconNode) : bool :=
  existsb (fun m => still_matches pl r m &&
                    match parentElement m with
                    | Some parent => has_parent parent n
                    | None => false
                    end) ms.

Lemma rm_nodes_fold (pl : Plugin) (r : CustomRule) (ms nodes : list IconNode) :
  one_icon_per_element nodes ->
  fold_left (fun cur n => rm_nodes pl r n cur) ms nodes
    = List.filter (fun n => negb (hit pl r ms n)) nodes.
Proof.
  revert nodes. induction ms as [|m ms IH]; intros nodes Hnd; simpl.
  - induction nodes as [|n nodes IHn]; [reflexivity|]. simpl. f_equal. apply IHn.
    unfold one_icon_per_element in *. simpl in Hnd.
    destruct (parentElement n); [now apply NoDup_cons in Hnd|exact Hnd].
  - unfold rm_nodes at 2. destruct (still_matches pl r m) eqn:Hm.
    + destruct (parentElement m) as [parent|] eqn:Hp.
      * rewrite (remove_first_under_filter parent nodes Hnd).
        rewrite IH by now apply one_icon_per_element_filter.
        rewrite filter_filter_andb. apply filter_ext. intros n. simpl.
        now rewrite negb_orb.
      * rewrite IH by exact Hnd. apply filter_ext. intros n. reflexivity.
    + rewrite IH by exact Hnd. apply filter_ext. intros n. reflexivity.
Qed.

Lemma still_matches_parent (pl : Plugin) (r : CustomRule) (n : IconNode) :
  still_matches pl r n = true -> exists el, parentElement n = Some el.
Proof.
  unfold still_matches, owner. destruct (parentElement n) as [el|]; [eauto|discriminate].
Qed.

Lemma hit_removable (pl : Plugin) (r : CustomRule) (nodes : list IconNode) (n : IconNode) :
  one_icon_per_element nodes -> In n nodes ->
  hit pl r (List.filter (fun m => String.eqb (icon_attr m) (icon r)) nodes) n
    = removable pl r n.
Proof.
  intros Hnd Hn. unfold hit, removable.
  destruct (String.eqb (icon_attr n) (icon r) && still_matches pl r n) eqn:E.
  - apply andb_true_iff in E. destruct E as [Hsel Hst].
    apply existsb_exists. exists n. split; [apply filter_In; now split|].
    rewrite Hst. destruct (still_matches_parent pl r n Hst) as [el Hel].
    rewrite Hel. simpl. now apply has_parent_iff.
  - apply not_true_is_false. intros Hex. apply existsb_exists in Hex.
    destruct Hex as (m & Hm & Hhit). apply filter_In in Hm. destruct Hm as [Hm Hsel].
    apply andb_true_iff in Hhit. destruct Hhit as [Hst Hpar].
    destruct (parentElement m) as [el|] eqn:Hel; [|discriminate].
    apply has_parent_iff in Hpar.
    assert (m = n) by (eapply unique_parent; eauto). subst m.
    rewrite Hsel, Hst in E. discriminate.
Qed.

Lemma rm_cache_fold (pl : Plugin) (r : CustomRule) (ms : list IconNode)
    (cache : gmap string IconAssignment) (p : string) :
  fold_left (fun c n => rm_cache pl r n c) ms cache !! p
    = if existsb (fun m => still_matches pl r m && bool_decide (owner m = Some p)) ms
      then None else cache !! p.
Proof.
  revert cache. induction ms as [|m ms IH]; intros cache; simpl; [reflexivity|].
  rewrite IH. unfold rm_cache. destruct (still_matches pl r m) eqn:Hm; simpl; [|reflexivity].
  destruct (owner m) as [dp|] eqn:Hown.
  - destruct (bool_decide (Some dp = Some p)) eqn:E; simpl.
    + apply bool_decide_eq_true in E. injection E as ->.
      destruct (existsb _ ms); [reflexivity|apply lookup_delete_eq].
    + apply bool_decide_eq_false in E.
      destruct (existsb _ ms); [reflexivity|]. apply lookup_delete_ne. congruence.
  - rewrite bool_decide_eq_false_2 by discriminate. reflexivity.
Qed.

Lemma existsb_filter {A} (f g : A -> bool) (l : list A) :
  existsb g (List.filter f l) = existsb (fun x => f x && g x) l.
Proof.
  induction l as [|x l IH]; [reflexivity|]. simpl.
  destruct (f x); simpl; now rewrite IH.
Qed.

Lemma removeFromAllFiles_nodes (pl : Plugin) (r : CustomRule) (st : State) :
  selector_safe (icon r) = true ->
  cache_ok st ->
  one_icon_per_element (iconNodes st) ->
  iconNodes (snd (removeFromAllFiles pl r st))
    = List.filter (fun n => negb (removable pl r n)) (iconNodes st).
Proof.
  intros Hsafe Hok Hnd. rewrite (removeFromAllFiles_fold pl r st Hsafe Hok). cbn [snd].
  destruct (rm_fold_fields pl r
              (List.filter (fun n => String.eqb (icon_attr n) (icon r)) (iconNodes st)) st)
    as (Hn & _).
  rewrite Hn, (rm_nodes_fold pl r _ _ Hnd). apply filter_ext_in.
  intros n Hin. now rewrite (hit_removable pl r _ n Hnd Hin).
Qed.


(** The two conditions on the store hold in every store reached from the
    initial one by calls into the module. *)
Corollary removeFromAllFiles_exact_run
    (calls : list Call) (pl : Plugin) (r : CustomRule) :
  selector_safe (icon r) = true ->
  fst (removeFromAllFiles pl r (run calls init)) = Ok tt /\
  iconNodes (snd (removeFromAllFiles pl r (run calls init)))
    = List.filter (fun n => negb (removable pl r n)) (iconNodes (run calls init)).
Proof.
  intros Hsafe. split.
  - now rewrite (removeFromAllFiles_fold pl r _ Hsafe (cache_ok_run calls)).
  - apply removeFromAllFiles_nodes;
      [exact Hsafe|apply cache_ok_run|apply one_icon_per_element_run].
Qed.

(** *** Sorting the rules *)

Lemma with_heap_id (st : State) (k : nat) (rs : list CustomRule) :
  heap st !! k = Some rs -> with_heap <[k := rs]> st = st.
Proof.
  intros Hk. destruct st as [c l i n rd h]. unfold with_heap. simpl in *.
  f_equal. now apply insert_id.
Qed.

(** C9 as the code has it.  [getSortedRules] sorts the settings' own
    [rules] array and returns that array: the result is in ascending [order],
    rules of equal [order] keep their relative position, no rule is lost or
    added, and after the call the settings hold the sorted sequence; the
    settings are left as they were exactly when they were in order
    already. *)
Theorem getSortedRules_sorts_in_place
    (pl : Plugin) (st : State) (rs : list CustomRule) :
  heap st !! settings_rules pl = Some rs ->
  getSortedRules pl st
    = (Ok (settings_rules pl),
       with_heap <[settings_rules pl := JS.sort (fun a b => order a - order b) rs]> st) /\
  heap (snd (getSortedRules pl st)) !! settings_rules pl
    = Some (JS.sort (fun a b => order a - order b) rs) /\
  StronglySorted (fun a b => order a <= order b)
    (JS.sort (fun a b => order a - order b) rs) /\
  Permutation (JS.sort (fun a b => order a - order b) rs) rs /\
  (forall k, List.filter (fun a => order a =? k) (JS.sort (fun a b => order a - order b) rs)
             = List.filter (fun a => order a =? k) rs) /\
  (snd (getSortedRules pl st) = st <-> StronglySorted (fun a b => order a <= order b) rs).
Proof.
  intros Hrs.
  assert (Heq : getSortedRules pl st
    = (Ok (settings_rules pl),
       with_heap <[settings_rules pl := JS.sort (fun a b => order a - order b) rs]> st)).
  { unfold getSortedRules, bind, gets, modify, ret. now rewrite Hrs. }
  split; [exact Heq|]. rewrite Heq. cbn [snd].
  split; [simpl; apply lookup_insert_eq|].
  split; [apply (JSFacts.sort_sorted order)|].
  split; [apply JSFacts.sort_perm|].
  split; [intros k; apply (JSFacts.sort_stable order)|].
  split.
  - intros Hsame. apply (f_equal (fun s => heap s !! settings_rules pl)) in Hsame.
    simpl in Hsame. rewrite lookup_insert_eq, Hrs in Hsame. injection Hsame as Hsame.
    rewrite <- Hsame. apply (JSFacts.sort_sorted order).
  - intros Hsorted.
    change (fun a b => order a - order b) with (JSFacts.by_key order).
    rewrite (JSFacts.sort_sorted_id order rs Hsorted). now apply with_heap_id.
Qed.

(** *** Adding the icon of a rule *)

Lemma doesElementHasIconNode_eq (c : HTMLElement) (st : State) :
  doesElementHasIconNode c st = (Ok (existsb (has_parent c) (iconNodes st)), st).
Proof. reflexivity. Qed.

Lemma isApplicable_returns (pl : Plugin) (r : CustomRule) (p : string) (st : State) :
  cache_ok st ->
  exists b, isApplicable pl r p st = (Ok b, snd (isApplicable pl r p st)).
Proof.
  intros Hok. unfold isApplicable.
  destruct (getAbstractFileByPath pl p); [|now exists false].
  destruct (negb _); [now exists false|].
  exists (matchesPath r p). rewrite <- (doesMatchPath_value r p st Hok).
  now destruct (doesMatchPath r p st).
Qed.

Lemma render_into_has (c : HTMLElement) (i : string) (nodes : list IconNode) :
  existsb (has_parent c) (render_into c i nodes) = true.
Proof.
  unfold render_into. destruct (existsb (has_parent c) nodes) eqn:E.
  - induction nodes as [|n nodes IH]; [discriminate|]. simpl in *.
    destruct (has_parent c n) eqn:En; simpl.
    + unfold has_parent in *. simpl. now rewrite En.
    + rewrite En. simpl. now apply IH.
  - rewrite existsb_app. simpl. unfold has_parent at 2. simpl.
    rewrite bool_decide_eq_true_2 by reflexivity. now rewrite orb_true_r.
Qed.

Lemma createIconNode_eq pl p i col container (st : State) :
  createIconNode pl p i col container st =
    (Ok tt,
     match (match container with Some c => Some c | None => titleElOfPath pl p end) with
     | Some el =>
         with_iconNodes (render_into el i)
           (with_rendered (cons {| rq_path := p; rq_icon := i; rq_color := col;
                                   rq_container := container |}) st)
     | None =>
         with_rendered (cons {| rq_path := p; rq_icon := i; rq_color := col;
                                rq_container := container |}) st
     end).
Proof.
  unfold createIconNode, bind, modify, ret. simpl.
  destruct (match container with Some c => Some c | None => _ end); reflexivity.
Qed.

Lemma createIconNode_run pl p i col container (st : State) :
  createIconNode pl p i col container st
    = (Ok tt, snd (createIconNode pl p i col container st)).
Proof. now rewrite createIconNode_eq. Qed.

(** C1 as the code has it.  A call of [add] whose container carries an
    icon node, or whose path has an icon in the plugin's icon-name lookup,
    returns false and leaves the whole store as it was.  A call that returns
    true found no icon node on the container it was given and no icon name
    for the path in the lookup, and the rule applicable; it has written the
    rule's icon into the Icon Assignment Cache and sent one render request.
    After such a call with a container, the same call with the same container
    returns false and changes nothing. *)
Theorem add_guarded
    (pl : Plugin) (r : CustomRule) (f : TAbstractFile)
    (container : option HTMLElement) (st : State) :
  cache_ok st ->
  (forall c, container = Some c -> existsb (has_parent c) (iconNodes st) = true ->
     add pl r f container st = (Ok false, st)) /\
  (truthy (getIconNameFromPath pl (path f)) = true ->
     add pl r f container st = (Ok false, st)) /\
  (exists b, fst (add pl r f container st) = Ok b) /\
  (fst (add pl r f container st) = Ok true ->
     (forall c, container = Some c -> existsb (has_parent c) (iconNodes st) = false) /\
     truthy (getIconNameFromPath pl (path f)) = false /\
     fst (isApplicable pl r (path f) st) = Ok true /\
     iconCache (snd (add pl r f container st)) !! path f
       = Some {| iconNameWithPrefix := icon r; inCustomRule := true |} /\
     rendered (snd (add pl r f container st))
       = {| rq_path := path f; rq_icon := icon r; rq_color := color r;
            rq_container := container |} :: rendered st /\
     (forall c, container = Some c ->
        add pl r f container (snd (add pl r f container st))
          = (Ok false, snd (add pl r f container st)))) /\
  (fst (add pl r f container st) = Ok false ->
     iconCache (snd (add pl r f container st)) = iconCache st /\
     rendered (snd (add pl r f container st)) = rendered st /\
     iconNodes (snd (add pl r f container st)) = iconNodes st).
Proof.
  intros Hok.
  assert (Hguard1 : forall c st0, container = Some c ->
            existsb (has_parent c) (iconNodes st0) = true ->
            add pl r f container st0 = (Ok false, st0)).
  { intros c st0 -> Hc. unfold add. erewrite bind_ok; [|apply doesElementHasIconNode_eq].
    now rewrite Hc. }
  split; [intros c; apply Hguard1|].
  split.
  { intros Ht. unfold add. destruct container as [c|].
    - erewrite bind_ok; [|apply doesElementHasIconNode_eq].
      destruct (existsb _ _); [reflexivity|]. now rewrite Ht.
    - erewrite bind_ok; [|reflexivity]. now rewrite Ht. }
  destruct (isApplicable_returns pl r (path f) st Hok) as [b Happ].
  set (st1 := snd (isApplicable pl r (path f) st)) in *.
  assert (Hst1 : iconCache st1 = iconCache st /\ rendered st1 = rendered st /\
                 iconNodes st1 = iconNodes st).
  { subst st1. unfold isApplicable. destruct (getAbstractFileByPath pl (path f)); [|auto].
    destruct (negb _); [auto|]. rewrite doesMatchPath_store. unfold ensure.
    destruct (bool_decide _); auto. }
  destruct Hst1 as (Hic & Hrd & Hin).
  set (carries := match container with
                  | Some c => existsb (has_parent c) (iconNodes st)
                  | None => false
                  end).
  assert (Hadd : add pl r f container st =
    if carries then (Ok false, st)
    else if truthy (getIconNameFromPath pl (path f)) then (Ok false, st)
    else if b then
      (Ok true,
       snd (createIconNode pl (path f) (icon r) (color r) container
              (with_iconCache <[path f := {| iconNameWithPrefix := icon r;
                                             inCustomRule := true |}]> st1)))
    else (Ok false, st1)).
  { unfold add, carries. destruct container as [c|].
    - erewrite bind_ok; [|apply doesElementHasIconNode_eq].
      destruct (existsb _ _); [reflexivity|].
      destruct (truthy _); [reflexivity|].
      erewrite bind_ok; [|exact Happ]. destruct b; [|reflexivity].
      erewrite bind_ok; [|reflexivity].
      erewrite bind_ok; [reflexivity|apply createIconNode_run].
    - erewrite bind_ok; [|reflexivity].
      destruct (truthy _); [reflexivity|].
      erewrite bind_ok; [|exact Happ]. destruct b; [|reflexivity].
      erewrite bind_ok; [|reflexivity].
      erewrite bind_ok; [reflexivity|apply createIconNode_run]. }
  split.
  { rewrite Hadd. destruct carries; [now exists false|].
    destruct (truthy _); [now exists false|]. destruct b; eauto. }
  split.
  - intros Htrue. rewrite Hadd in Htrue |- *.
    destruct carries eqn:Hcar; [discriminate|].
    destruct (truthy _) eqn:Ht; [discriminate|].
    destruct b; [|discriminate]. cbn [snd].
    split; [intros c ->; exact Hcar|].
    split; [reflexivity|].
    split; [now rewrite Happ|].
    rewrite createIconNode_eq. cbn [snd].
    split.
    { destruct (match container with Some c => Some c | None => _ end); simpl;
        apply lookup_insert_eq. }
    split.
    { destruct (match container with Some c => Some c | None => _ end); simpl;
        now rewrite Hrd. }
    intros c ->. apply (Hguard1 c); [reflexivity|]. simpl. apply render_into_has.
  - intros Hfalse. rewrite Hadd in Hfalse |- *.
    destruct carries; [auto|]. destruct (truthy _); [auto|].
    destruct b; [discriminate|]. cbn [snd]. auto.
Qed.

End WithEngine.

Import SampleVault.

Lemma invalid_pattern_never_raises_witness :
  cache_ok init /\ compile (rule broken_rule) = None /\
  fst (doesMatchPath broken_rule "notes/a(b" init) = Ok true.
Proof.
  split; [apply cache_ok_init|]. split; [reflexivity|].
  apply (invalid_pattern_never_raises init broken_rule "notes/a(b");
    [apply cache_ok_init|reflexivity].
Defined.

Lemma pattern_compiled_once_witness :
  rule broken_rule = rule broken_folder_rule /\
  snd (doesMatchPath broken_folder_rule "notes"
         (snd (doesMatchPath broken_rule "notes/a(b" (run [] init))))
    = snd (doesMatchPath broken_rule "notes/a(b" (run [] init)).
Proof.
  split; [reflexivity|].
  apply (pattern_compiled_once [] broken_rule broken_folder_rule "notes/a(b" "notes").
  reflexivity.
Defined.

Lemma isApplicable_iff_witness :
  cache_ok init /\
  fst (doesMatchPath star_rule "notes/todo.md" init)
    = Ok (match compile (rule star_rule) with
          | Some re => test re (subject star_rule "notes/todo.md")
          | None => JS.includes (subject star_rule "notes/todo.md") (rule star_rule)
          end).
Proof.
  split; [apply cache_ok_init|].
  apply (isApplicable_iff plugin star_rule "notes/todo.md" init).
  apply cache_ok_init.
Defined.

(** The two scenarios of the specification: the star rule applies to
    [notes/todo.md], whose final segment ends in [.md], and the assignment is
    created; it does not apply to [notes/todo.txt], and nothing is written. *)
Example scenario_todo_md :
  doesMatchFileType star_rule file = true /\
  subject star_rule "notes/todo.md" = "todo.md" /\
  fst (doesMatchPath star_rule "notes/todo.md" init) = Ok true /\
  fst (isApplicable plugin star_rule "notes/todo.md" init) = Ok true /\
  fst (add plugin star_rule todo_md (Some (title 2 todo_md)) init) = Ok true /\
  iconCache (snd (add plugin star_rule todo_md (Some (title 2 todo_md)) init))
    !! "notes/todo.md"
    = Some {| iconNameWithPrefix := "star"; inCustomRule := true |}.
Proof. repeat split; vm_compute; reflexivity. Qed.

Example scenario_todo_txt :
  fst (doesMatchPath star_rule "notes/todo.txt" init) = Ok false /\
  fst (add plugin star_rule todo_txt (Some (title 3 todo_txt)) init) = Ok false /\
  iconCache (snd (add plugin star_rule todo_txt (Some (title 3 todo_txt)) init))
    !! "notes/todo.txt" = None /\
  rendered (snd (add plugin star_rule todo_txt (Some (title 3 todo_txt)) init)) = [].
Proof. repeat split; vm_compute; reflexivity. Qed.

(** A folder is not touched by a rule for files, and a rule whose source
    does not compile matches by containment. *)
Example scenario_types_and_fallback :
  fst (isApplicable plugin star_rule "notes" init) = Ok false /\
  fst (isApplicable plugin star_rule "missing.md" init) = Ok false /\
  fst (doesMatchPath broken_rule "notes/a(b" init) = Ok true /\
  fst (doesMatchPath broken_folder_rule "notes(1)/a" init) = Ok false /\
  compiled (snd (doesMatchPath broken_folder_rule "x"
                   (snd (doesMatchPath broken_rule "y" init)))) = ["("].
Proof. repeat split; vm_compute; reflexivity. Qed.



(** On the sample document the star rule loses the icon node of
    [notes/todo.md] and keeps all the others; the cache loses that path
    only. *)
Example removeFromAllFiles_sample :
  List.map icon_attr (iconNodes (snd (removeFromAllFiles plugin star_rule document_store)))
    = ["star"; "star"; "star"; "star"; "bug"] /\
  List.map owner (iconNodes (snd (removeFromAllFiles plugin star_rule document_store)))
    = [Some "notes/todo.txt"; None; None; Some "gone.md"; Some "notes"] /\
  iconCache (snd (removeFromAllFiles plugin star_rule document_store)) !! "notes/todo.md"
    = None /\
  iconCache (snd (removeFromAllFiles plugin star_rule document_store)) !! "notes"
    = Some {| iconNameWithPrefix := "bug"; inCustomRule := true |}.
Proof. repeat split; vm_compute; reflexivity. Qed.

(** C9 as stated fails: the call reorders the settings' own array. *)
Lemma getSortedRules_reorders_settings :
  heap unsorted_store !! settings_rules plugin
    = Some [broken_folder_rule; star_rule; broken_rule] /\
  heap (snd (getSortedRules plugin unsorted_store)) !! settings_rules plugin
    = Some [broken_rule; star_rule; broken_folder_rule] /\
  heap (snd (getSortedRules plugin unsorted_store)) <> heap unsorted_store.
Proof.
  split; [reflexivity|]. split; [vm_compute; reflexivity|].
  intros Heq. apply (f_equal (fun h => h !! settings_rules plugin)) in Heq.
  vm_compute in Heq. discriminate Heq.
Qed.

Lemma getSortedRules_sorts_in_place_witness :
  heap unsorted_store !! settings_rules plugin
    = Some [broken_folder_rule; star_rule; broken_rule] /\
  heap (snd (getSortedRules plugin unsorted_store)) !! settings_rules plugin
    = Some (JS.sort (fun a b => order a - order b)
              [broken_folder_rule; star_rule; broken_rule]).
Proof.
  split; [reflexivity|].
  apply (getSortedRules_sorts_in_place plugin unsorted_store
           [broken_folder_rule; star_rule; broken_rule]).
  reflexivity.
Defined.

(** C1 as stated fails: without a container the second call is not
    short-circuited.  Both calls return true, the second one assigns the icon
    to a path that holds an assignment in the Icon Assignment Cache, and two
    render requests are sent. *)
Lemma add_twice_without_container :
  fst (add plugin star_rule todo_md None init) = Ok true /\
  iconCache (snd (add plugin star_rule todo_md None init)) !! path todo_md
    = Some {| iconNameWithPrefix := "star"; inCustomRule := true |} /\
  fst (add plugin star_rule todo_md None (snd (add plugin star_rule todo_md None init)))
    = Ok true /\
  List.length
    (rendered (snd (add plugin star_rule todo_md None
                     (snd (add plugin star_rule todo_md None init))))) = 2%nat.
Proof. repeat split; vm_compute; reflexivity. Qed.

Lemma add_guarded_witness :
  cache_ok init /\
  fst (add plugin star_rule todo_md (Some (title 2 todo_md)) init) = Ok true /\
  add plugin star_rule todo_md (Some (title 2 todo_md))
    (snd (add plugin star_rule todo_md (Some (title 2 todo_md)) init))
  = (Ok false, snd (add plugin star_rule todo_md (Some (title 2 todo_md)) init)).
Proof.
  split; [apply cache_ok_init|]. split; [vm_compute; reflexivity|].
  destruct (add_guarded plugin star_rule todo_md (Some (title 2 todo_md)) init cache_ok_init)
    as (_ & _ & _ & Happlied & _).
  destruct Happlied as (_ & _ & _ & _ & _ & Hagain); [vm_compute; reflexivity|].
  exact (Hagain (title 2 todo_md) eq_refl).
Defined.

End CustomRuleFacts.


(** ** The outline plugin *)

Module OutlineFacts.
Import Outline.

Section WithHost.
Context `{Host}.
Variable env : Env.

(** The wiring of the plugin: everything but the two caches and the
    records of what was scanned, written and logged. *)
Definition same_wiring (st st' : State) : Prop :=
  registered st' = registered st /\ observer st' = observer st /\
  enabled st' = enabled st /\ leaf st' = leaf st /\
  attached st' = attached st /\ created st' = created st /\
  onceHandlers st' = onceHandlers st /\ deferred st' = deferred st.

(** A cached nav-item size stays as it is. *)
Definition keeps_size (st st' : State) : Prop :=
  forall v, cachedNavItemSize st = Some v -> cachedNavItemSize st' = Some v.

Definition label_step (st st' : State) : Prop :=
  same_wiring st st' /\ keeps_size st st'.

#[local] Instance same_wiring_preorder : PreOrder same_wiring.
Proof.
  split.
  - intros st. unfold same_wiring. tauto.
  - intros a b c. unfold same_wiring. intros Hab Hbc.
    destruct Hab as (? & ? & ? & ? & ? & ? & ? & ?).
    destruct Hbc as (? & ? & ? & ? & ? & ? & ? & ?).
    repeat split; congruence.
Qed.

#[local] Instance keeps_size_preorder : PreOrder keeps_size.
Proof. split; unfold keeps_size; [intros st; auto|intros a b c Hab Hbc; auto]. Qed.

#[local] Instance label_step_preorder : PreOrder label_step.
Proof.
  split.
  - intros st. split; reflexivity.
  - intros a b c [? ?] [? ?]. split; etransitivity; eauto.
Qed.

Lemma getNavItemSize_eq (st : State) :
  getNavItemSize env st =
    match cachedNavItemSize st with
    | Some size => (Ok size, st)
    | None =>
        let size :=
          JS.parseFloat
            (JS.nullish (getPropertyValue (bodyStyle env) "--nav-item-size") "16") in
        (Ok size, set_cachedNavItemSize (Some size) st)
    end.
Proof.
  unfold getNavItemSize, bind, gets, modify, ret. simpl.
  destruct (cachedNavItemSize st); reflexivity.
Qed.

Lemma label_step_getNavItemSize : respects label_step (getNavItemSize env).
Proof.
  intros st. rewrite getNavItemSize_eq.
  destruct (cachedNavItemSize st) eqn:Hc; simpl; [reflexivity|].
  split; [unfold same_wiring; simpl; tauto|].
  intros v Hv. congruence.
Qed.

Lemma label_step_set_writes st w : label_step st (set_writes w st).
Proof. split; [unfold same_wiring; simpl; tauto|intros v Hv; exact Hv]. Qed.

Lemma label_step_set_scanned st w : label_step st (set_scanned w st).
Proof. split; [unfold same_wiring; simpl; tauto|intros v Hv; exact Hv]. Qed.

Lemma label_step_set_regex st w : label_step st (set_cachedIconShortcodeRegex w st).
Proof. split; [unfold same_wiring; simpl; tauto|intros v Hv; exact Hv]. Qed.

Lemma label_step_scan_code el idLen code l :
  respects label_step (scan_code env el idLen code l).
Proof.
  unfold scan_code. destruct (getIconByName _); [|apply respects_ret; apply _].
  apply respects_bind; [apply _|apply label_step_getNavItemSize|intros size].
  apply respects_bind; [apply _| |intros _; apply respects_ret; apply _].
  apply respects_modify. intros st. apply label_step_set_writes.
Qed.

Lemma label_step_scan_codes el idLen codes l :
  respects label_step (scan_codes env el idLen codes l).
Proof.
  revert l. induction codes as [|c codes IH]; intros l; simpl.
  - apply respects_ret; apply _.
  - apply respects_bind; [apply _|apply label_step_scan_code|intros l'; apply IH].
Qed.

Lemma label_step_getIconShortcodeRegex : respects label_step (getIconShortcodeRegex env).
Proof.
  unfold getIconShortcodeRegex. apply respects_bind; [apply _|apply respects_gets; apply _|].
  intros [re|]; [apply respects_ret; apply _|].
  apply respects_bind; [apply _| |intros _; apply respects_ret; apply _].
  apply respects_modify. intros st. apply label_step_set_regex.
Qed.

Lemma label_step_processTreeItemInner inner :
  respects label_step (processTreeItemInner env inner).
Proof.
  unfold processTreeItemInner. destruct inner as [[d|el ch]|]; try (apply respects_ret; apply _).
  apply respects_bind; [apply _| |intros _].
  { apply respects_modify. intros st. apply label_step_set_scanned. }
  destruct (String.eqb _ _); [apply respects_ret; apply _|].
  apply respects_bind; [apply _|apply label_step_getIconShortcodeRegex|intros re].
  apply respects_bind; [apply _|apply label_step_scan_codes|intros _; apply respects_ret; apply _].
Qed.

Lemma label_step_processTreeItems root :
  respects label_step (processTreeItems env root).
Proof.
  unfold processTreeItems. apply respects_for_each; [apply _|].
  intros item. apply label_step_processTreeItemInner.
Qed.

Lemma returns_getNavItemSize : returns (getNavItemSize env).
Proof.
  intros st. rewrite getNavItemSize_eq. destruct (cachedNavItemSize st); simpl; eauto.
Qed.

Lemma returns_scan_code el idLen code l : returns (scan_code env el idLen code l).
Proof.
  unfold scan_code. destruct (getIconByName _); [|apply returns_ret].
  apply returns_bind; [apply returns_getNavItemSize|intros size].
  apply returns_bind; [apply returns_modify|intros _; apply returns_ret].
Qed.

Lemma returns_scan_codes el idLen codes l : returns (scan_codes env el idLen codes l).
Proof.
  revert l. induction codes as [|c codes IH]; intros l; simpl.
  - apply returns_ret.
  - apply returns_bind; [apply returns_scan_code|intros l'; apply IH].
Qed.

Lemma returns_processTreeItemInner inner : returns (processTreeItemInner env inner).
Proof.
  unfold processTreeItemInner. destruct inner as [[d|el ch]|]; try apply returns_ret.
  apply returns_bind; [apply returns_modify|intros _].
  destruct (String.eqb _ _); [apply returns_ret|].
  apply returns_bind.
  - unfold getIconShortcodeRegex. apply returns_bind; [apply returns_gets|].
    intros [re|]; [apply returns_ret|].
    apply returns_bind; [apply returns_modify|intros _; apply returns_ret].
  - intros re. apply returns_bind; [apply returns_scan_codes|intros _; apply returns_ret].
Qed.

Lemma returns_processTreeItems root : returns (processTreeItems env root).
Proof.
  unfold processTreeItems. apply returns_for_each.
  intros item. apply returns_processTreeItemInner.
Qed.

(** *** Registration and the mutation callback *)

Lemma callback_disabled (batch : list MutationRecord) (st : State) :
  enabled st = false -> callback env batch st = (Ok tt, drop_observer st).
Proof.
  intros Hen. unfold callback, drop_observer, bind, gets, modify, disconnect, ret.
  rewrite Hen. simpl. destruct (observer st); reflexivity.
Qed.

Lemma register_enabled (st : State) :
  requireApiVersion_1_7_2 env = false ->
  enabled st = true ->
  register env st =
    (Ok tt,
     let st1 := if registered st then
                  match observer st with
                  | Some _ => drop_observer st
                  | None => st
                  end
                else st in
     set_onceHandlers (S (onceHandlers st1)) (set_registered true st1)).
Proof.
  intros Hapi Hen.
  unfold register, setOutlineIcons, drop_observer, bind, gets, modify, disconnect, ret.
  rewrite Hen, Hapi. simpl.
  destruct (registered st); [destruct (observer st)|]; reflexivity.
Qed.

Lemma leaf_containerEl_some (st : State) (lf : OutlineLeaf) :
  leaf st = Some lf -> leaf_containerEl st = (Ok (containerEl lf), st).
Proof.
  intros Hl. unfold leaf_containerEl, get_leaf, bind, gets, ret. now rewrite Hl.
Qed.

Lemma onAllIconsLoaded_eq (st : State) (lf : OutlineLeaf) :
  leaf st = Some lf ->
  onAllIconsLoaded env st =
    (Ok tt,
     let st1 := snd (processTreeItems env (containerEl lf)
                       (set_cachedNavItemSize None (set_cachedIconShortcodeRegex None st))) in
     set_attached (attached st1 ++ [(created st1, node_id (containerEl lf))])
       (set_observer (Some (created st1)) (set_created (S (created st1)) st1))).
Proof.
  intros Hl. unfold onAllIconsLoaded.
  set (st0 := set_cachedNavItemSize None (set_cachedIconShortcodeRegex None st)).
  assert (Hl0 : leaf st0 = Some lf) by exact Hl.
  destruct (returns_run (processTreeItems env (containerEl lf)) st0
              (returns_processTreeItems (containerEl lf))) as [[] Hrun].
  destruct (label_step_processTreeItems (containerEl lf) st0) as [Hw _].
  cbv zeta. set (st1 := snd (processTreeItems env (containerEl lf) st0)) in *.
  destruct Hw as (_ & _ & _ & Hlf & _).
  erewrite bind_ok; [|reflexivity].
  erewrite bind_ok; [|reflexivity].
  erewrite bind_ok; [|exact (leaf_containerEl_some st0 lf Hl0)].
  erewrite bind_ok; [|exact Hrun].
  erewrite bind_ok; [|reflexivity].
  erewrite bind_ok; [|reflexivity].
  erewrite bind_ok;
    [|apply leaf_containerEl_some; simpl; rewrite Hlf; exact Hl0].
  reflexivity.
Qed.

(** One run of the [allIconsLoaded] listener with the leaf present
    constructs one observer, makes it the plugin's observer and attaches it
    to the leaf's container; no observer is detached. *)
Lemma onAllIconsLoaded_wiring (st : State) (lf : OutlineLeaf) :
  leaf st = Some lf ->
  observer (snd (onAllIconsLoaded env st)) = Some (created st) /\
  created (snd (onAllIconsLoaded env st)) = S (created st) /\
  attached (snd (onAllIconsLoaded env st))
    = (attached st ++ [(created st, node_id (containerEl lf))])%list /\
  leaf (snd (onAllIconsLoaded env st)) = leaf st /\
  enabled (snd (onAllIconsLoaded env st)) = enabled st /\
  registered (snd (onAllIconsLoaded env st)) = registered st /\
  onceHandlers (snd (onAllIconsLoaded env st)) = onceHandlers st /\
  deferred (snd (onAllIconsLoaded env st)) = deferred st.
Proof.
  intros Hl. rewrite (onAllIconsLoaded_eq st lf Hl). cbv zeta.
  destruct (label_step_processTreeItems (containerEl lf)
              (set_cachedNavItemSize None (set_cachedIconShortcodeRegex None st))) as [Hw _].
  destruct Hw as (Hreg & Hobs & Hen & Hlf & Hatt & Hcr & Honce & Hdef).
  simpl in *. rewrite Hcr, Hatt, Hlf, Hen, Hreg, Honce, Hdef.
  repeat split; reflexivity.
Qed.

(** C7, the part that holds: a [register] that finds an observer held
    by the plugin detaches it and forgets it before anything else. *)
Lemma register_disconnects_previous (st : State) (o : nat) :
  requireApiVersion_1_7_2 env = false ->
  enabled st = true -> registered st = true -> observer st = Some o ->
  observer (snd (register env st)) = None /\
  is_attached o (snd (register env st)) = false.
Proof.
  intros Hapi Hen Hreg Hobs. rewrite (register_enabled st Hapi Hen). simpl.
  rewrite Hreg, Hobs. unfold drop_observer. rewrite Hobs. simpl. split; [reflexivity|].
  unfold is_attached. simpl. induction (attached st) as [|[a b] l IH]; simpl; [reflexivity|].
  destruct (Nat.eqb a o) eqn:E; simpl; [exact IH|]. now rewrite E.
Qed.

(** C7, where the code departs from the specification: two calls of [register]
    before the icons are loaded leave two one-shot listeners behind; when
    [allIconsLoaded] fires each of them constructs and attaches an observer,
    the plugin keeps only the second one, and the region is watched by
    two. *)
Theorem register_twice_attaches_two_observers (st : State) (lf : OutlineLeaf) :
  requireApiVersion_1_7_2 env = false ->
  enabled st = true -> leaf st = Some lf ->
  observer st = None -> attached st = [] -> onceHandlers st = O ->
  let st' := run env [Register; Register; AllIconsLoaded] st in
  attached st' = [(created st, node_id (containerEl lf));
                  (S (created st), node_id (containerEl lf))] /\
  observer st' = Some (S (created st)) /\
  observers_of (node_id (containerEl lf)) st' = [created st; S (created st)].
Proof.
  intros Hapi Hen Hl Hobs Hatt Honce. simpl.
  rewrite (register_enabled st Hapi Hen). cbn [snd].
  set (st1 := set_onceHandlers _ _).
  assert (Hst1 : observer st1 = None /\ enabled st1 = true /\ leaf st1 = Some lf /\
                 attached st1 = [] /\ onceHandlers st1 = 1%nat /\ created st1 = created st /\
                 registered st1 = true).
  { subst st1. destruct (registered st); rewrite ?Hobs; simpl; rewrite ?Honce; auto 10. }
  destruct Hst1 as (Hobs1 & Hen1 & Hl1 & Hatt1 & Honce1 & Hcr1 & Hreg1).
  rewrite (register_enabled st1 Hapi Hen1). cbn [snd].
  rewrite Hreg1, Hobs1. cbv zeta. rewrite Honce1.
  set (st2 := set_onceHandlers 2 (set_registered true st1)).
  change (onceHandlers st2) with 2%nat. cbn [repeat_handler].
  set (st3 := set_onceHandlers O st2).
  assert (Hl3 : leaf st3 = Some lf) by exact Hl1.
  destruct (onAllIconsLoaded_wiring st3 lf Hl3) as (Ho4 & Hc4 & Ha4 & Hl4 & _).
  set (st4 := snd (onAllIconsLoaded env st3)) in *.
  assert (Hl4' : leaf st4 = Some lf) by (rewrite Hl4; exact Hl3).
  destruct (onAllIconsLoaded_wiring st4 lf Hl4') as (Ho5 & Hc5 & Ha5 & _).
  set (st5 := snd (onAllIconsLoaded env st4)) in *.
  assert (Hc3 : created st3 = created st) by exact Hcr1.
  assert (Ha3 : attached st3 = []) by exact Hatt1.
  rewrite Ha5, Ha4, Ha3, Hc4, Hc3 in *.
  split; [reflexivity|]. split; [exact Ho5|].
  unfold observers_of. rewrite Ha5. simpl.
  rewrite Nat.eqb_refl. reflexivity.
Qed.

(** *** What the events do to the caches and to the records *)

Lemma respects_label_keeps {A} (m : M State A) :
  respects label_step m -> respects keeps_size m.
Proof. intros Hm st. apply (Hm st). Qed.

Lemma keeps_size_callback batch : respects keeps_size (callback env batch).
Proof.
  unfold callback. apply respects_bind; [apply _|apply respects_gets; apply _|].
  intros en. destruct (negb en).
  - apply respects_bind; [apply _| |intros _; now apply respects_modify].
    apply respects_bind; [apply _|apply respects_gets; apply _|].
    intros [ob|]; [now apply respects_modify|apply respects_ret; apply _].
  - apply respects_for_each; [apply _|]. intros mutation.
    destruct (type mutation); try (apply respects_ret; apply _).
    destruct (addedNodes mutation) as [|n ns] eqn:Hn; [apply respects_ret; apply _|].
    apply respects_for_each; [apply _|]. intros node.
    destruct node as [d|e ch]; [apply respects_ret; apply _|].
    destruct (has_class _ _).
    + apply respects_label_keeps, label_step_processTreeItemInner.
    + apply respects_for_each; [apply _|]. intros item.
      apply respects_label_keeps, label_step_processTreeItemInner.
Qed.

Lemma keeps_size_register : respects keeps_size (register env).
Proof.
  unfold register. apply respects_bind; [apply _|apply respects_gets; apply _|].
  intros en. destruct (negb en); [now apply respects_modify|].
  apply respects_bind; [apply _| |intros _].
  { apply respects_bind; [apply _|apply respects_gets; apply _|]. intros reg.
    apply respects_bind; [apply _|apply respects_gets; apply _|]. intros o.
    destruct reg, o; try (apply respects_ret; apply _).
    apply respects_bind; [apply _|now apply respects_modify|intros _].
    now apply respects_modify. }
  apply respects_bind; [apply _|now apply respects_modify|intros _].
  destruct (requireApiVersion_1_7_2 env); [|now apply respects_modify].
  apply respects_bind; [apply _| |].
  - unfold get_leaf. apply respects_bind; [apply _|apply respects_gets; apply _|].
    intros [lf|]; [apply respects_ret; apply _|].
    apply respects_bind; [apply _|now apply respects_modify|].
    intros _. apply respects_ret; apply _.
  - intros [lf|]; [now apply respects_modify|apply respects_throw; apply _].
Qed.

Lemma keeps_size_step (e : Event) (st : State) :
  e <> AllIconsLoaded -> keeps_size st (step env e st).
Proof.
  intros He. destruct e; simpl; try congruence.
  - apply keeps_size_register.
  - destruct (deferred st); [reflexivity|]. intros v Hv. exact Hv.
  - destruct (is_attached o st); [apply keeps_size_callback|reflexivity].
  - intros v Hv. exact Hv.
  - intros v Hv. exact Hv.
Qed.

Lemma keeps_size_run (events : list Event) (st : State) :
  Forall (fun e => e <> AllIconsLoaded) events -> keeps_size st (run env events st).
Proof.
  revert st. induction events as [|e events IH]; intros st Hall; simpl.
  - reflexivity.
  - inversion Hall as [|? ? He Hall']; subst.
    transitivity (step env e st); [apply keeps_size_step, He|apply IH, Hall'].
Qed.

(** C10.  With no [--nav-item-size] on the body, [getPropertyValue]
    gives the empty string, which is not null, so the [?? '16'] default is
    not taken: [getNavItemSize] parses the empty string, returns NaN (where
    the default would have parsed to 16) and caches it.  Until the listener
    of [allIconsLoaded] clears the cache, whatever else happens, the cache
    holds NaN, [getNavItemSize] answers NaN without reading the style again,
    and every icon span the label scan renders is sized with NaN. *)
Theorem nav_item_size_without_property (st : State) :
  bodyStyle env !! "--nav-item-size" = None ->
  cachedNavItemSize st = None ->
  getPropertyValue (bodyStyle env) "--nav-item-size" = Some "" /\
  JS.nullish (getPropertyValue (bodyStyle env) "--nav-item-size") "16" = "" /\
  JS.parseFloat "" = JS.NaN /\
  JS.parseFloat "16" = JS.Dec false 16 0 /\
  getNavItemSize env st = (Ok JS.NaN, set_cachedNavItemSize (Some JS.NaN) st) /\
  forall events : list Event,
    Forall (fun e => e <> AllIconsLoaded) events ->
    cachedNavItemSize (run env events (snd (getNavItemSize env st))) = Some JS.NaN /\
    getNavItemSize env (run env events (snd (getNavItemSize env st)))
      = (Ok JS.NaN, run env events (snd (getNavItemSize env st))) /\
    forall (el : ElementData) (idLen : Z) (code : Code) (l : Locals) (iconObject : IconObject),
      getIconByName (JS.slice (code_text code) idLen (JS.length (code_text code) - idLen))
        = Some iconObject ->
      exists l',
        fst (scan_code env el idLen code l (run env events (snd (getNavItemSize env st))))
          = Ok l' /\
        html l' = JS.replace (html l) (code_text code)
                    (iconSpan_outerHTML
                       (JS.slice (code_text code) idLen (JS.length (code_text code) - idLen))
                       iconObject JS.NaN) /\
        writes (snd (scan_code env el idLen code l
                       (run env events (snd (getNavItemSize env st)))))
          = (el_id el, html l') :: writes (run env events (snd (getNavItemSize env st))).
Proof.
  intros Hstyle Hcache.
  assert (Hget : getNavItemSize env st = (Ok JS.NaN, set_cachedNavItemSize (Some JS.NaN) st)).
  { rewrite getNavItemSize_eq, Hcache. unfold getPropertyValue. rewrite Hstyle. reflexivity. }
  split; [unfold getPropertyValue; now rewrite Hstyle|].
  split; [unfold getPropertyValue; now rewrite Hstyle|].
  split; [reflexivity|]. split; [reflexivity|]. split; [exact Hget|].
  intros events Hall. rewrite Hget. cbn [snd].
  set (st' := run env events (set_cachedNavItemSize (Some JS.NaN) st)).
  assert (Hc' : cachedNavItemSize st' = Some JS.NaN).
  { apply (keeps_size_run events _ Hall). reflexivity. }
  assert (Hget' : getNavItemSize env st' = (Ok JS.NaN, st')).
  { rewrite getNavItemSize_eq, Hc'. reflexivity. }
  split; [exact Hc'|]. split; [exact Hget'|].
  intros el idLen code l iconObject Hicon.
  unfold scan_code. rewrite Hicon.
  erewrite bind_ok; [|exact Hget'].
  erewrite bind_ok; [|reflexivity].
  eexists. split; [reflexivity|]. split; reflexivity.
Qed.

Lemma drop_observer_records (st : State) :
  scanned (drop_observer st) = scanned st /\ writes (drop_observer st) = writes st /\
  enabled (drop_observer st) = enabled st.
Proof. unfold drop_observer. destruct (observer st); auto. Qed.

Lemma disabled_batches_idle (later : list (nat * list MutationRecord)) (s : State) :
  enabled s = false ->
  scanned (run env (List.map (fun d => Mutations (fst d) (snd d)) later) s) = scanned s /\
  writes (run env (List.map (fun d => Mutations (fst d) (snd d)) later) s) = writes s.
Proof.
  revert s. induction later as [|[o b] later IH]; intros s Hs; simpl; [auto|].
  destruct (is_attached o s); [|now apply IH].
  rewrite (callback_disabled b s Hs). cbn [snd].
  destruct (drop_observer_records s) as (Hsc & Hwr & Hen).
  destruct (IH (drop_observer s)) as [-> ->]; [congruence|]. auto.
Qed.

Lemma unattached_idle (events : list Event) (s : State) :
  attached s = [] ->
  Forall (fun e => match e with
                   | Mutations _ _ | SetEnabled _ => True
                   | _ => False
                   end) events ->
  scanned (run env events s) = scanned s /\ writes (run env events s) = writes s.
Proof.
  revert s. induction events as [|e events IH]; intros s Hnone Hall; simpl; [auto|].
  inversion Hall as [|? ? He Hall']; subst.
  destruct e; try contradiction; simpl.
  - unfold is_attached. rewrite Hnone. simpl. now apply IH.
  - destruct (IH (set_enabled b s) Hnone Hall') as [-> ->]. auto.
Qed.

(** C8.  When the outline core plugin is disabled, the callback looks at
    [enabled] first and returns at once: it detaches and forgets the
    observer the plugin holds and hands no node of the batch to the label
    scan, nothing is scanned and nothing written.  As long as the plugin
    stays disabled no later batch is processed either, whichever observer
    it is delivered to; and when the observer the plugin held was the only
    one attached, none is left, so that no later batch is processed even
    if the plugin is enabled again. *)
Theorem callback_disabled_discards_batch (st : State) (batch : list MutationRecord) :
  enabled st = false ->
  callback env batch st = (Ok tt, drop_observer st) /\
  observer (drop_observer st) = None /\
  (forall o, observer st = Some o -> is_attached o (drop_observer st) = false) /\
  scanned (drop_observer st) = scanned st /\
  writes (drop_observer st) = writes st /\
  (forall later : list (nat * list MutationRecord),
     scanned (run env (List.map (fun d => Mutations (fst d) (snd d)) later) (drop_observer st))
       = scanned st /\
     writes (run env (List.map (fun d => Mutations (fst d) (snd d)) later) (drop_observer st))
       = writes st) /\
  (forall o region,
     attached st = [(o, region)] -> observer st = Some o ->
     attached (drop_observer st) = [] /\
     forall events : list Event,
       Forall (fun e => match e with
                        | Mutations _ _ | SetEnabled _ => True
                        | _ => False
                        end) events ->
       scanned (run env events (drop_observer st)) = scanned st /\
       writes (run env events (drop_observer st)) = writes st).
Proof.
  intros Hen.
  split; [now apply callback_disabled|]. split; [reflexivity|].
  split.
  { intros o Ho. unfold drop_observer, is_attached. rewrite Ho. simpl.
    induction (attached st) as [|[a b] l IH]; simpl; [reflexivity|].
    destruct (Nat.eqb a o) eqn:E; simpl; [exact IH|]. now rewrite E. }
  destruct (drop_observer_records st) as (Hsc & Hwr & Hen').
  split; [exact Hsc|]. split; [exact Hwr|]. split.
  - intros later. rewrite <- Hsc, <- Hwr. apply disabled_batches_idle. congruence.
  - intros o region Hatt Hobs.
    assert (Hnone : attached (drop_observer st) = []).
    { unfold drop_observer. rewrite Hobs, Hatt. simpl. now rewrite Nat.eqb_refl. }
    split; [exact Hnone|]. intros events Hall.
    rewrite <- Hsc, <- Hwr. now apply unattached_idle.
Qed.

(** *** The label scan *)

Lemma removed_length_app idLen pre post :
  removed_length idLen (pre ++ post) = removed_length idLen pre + removed_length idLen post.
Proof.
  induction pre as [|c pre IH]; simpl; [reflexivity|].
  destruct (getIconByName _); lia.
Qed.

Lemma scan_code_found el idLen code l st iconObject :
  getIconByName (icon_name idLen code) = Some iconObject ->
  exists st',
    scan_code env el idLen code l st =
      (Ok {| text :=
               JS.substring (text l) 0 (code_index code - trimmedLength l)
               ++ JS.substring (text l)
                    (code_index code + JS.length (code_text code) - trimmedLength l)
                    (JS.length (text l));
             trimmedLength := trimmedLength l + JS.length (code_text code);
             html := JS.replace (html l) (code_text code)
                       (iconSpan_outerHTML (icon_name idLen code) iconObject
                          (match cachedNavItemSize st with
                           | Some size => size
                           | None =>
                               JS.parseFloat
                                 (JS.nullish
                                    (getPropertyValue (bodyStyle env) "--nav-item-size")
                                    "16")
                           end)) |}, st').
Proof.
  intros Hicon. unfold scan_code. fold (icon_name idLen code). rewrite Hicon.
  unfold bind at 1. rewrite getNavItemSize_eq.
  destruct (cachedNavItemSize st); simpl; eexists; reflexivity.
Qed.

Lemma scan_code_not_found el idLen code l st :
  getIconByName (icon_name idLen code) = None ->
  scan_code env el idLen code l st = (Ok l, st).
Proof.
  intros Hicon. unfold scan_code. fold (icon_name idLen code). now rewrite Hicon.
Qed.





(** *** The adjusted positions address the shortcode *)

(** The text of the loop against the label it started from: what lies
    at or after [cursor] in the label lies [trimmedLength] earlier in the
    text. *)
Definition aligned (label : string) (cursor : Z) (l : Locals) : Prop :=
  0 <= trimmedLength l /\ trimmedLength l <= cursor /\ cursor <= JS.length label /\
  JS.length (text l) = JS.length label - trimmedLength l /\
  drop (Z.to_nat (cursor - trimmedLength l)) (JSFacts.chars (text l))
    = drop (Z.to_nat cursor) (JSFacts.chars label).

Lemma aligned_advance (label : string) (cursor cursor' : Z) (l : Locals) :
  aligned label cursor l -> cursor <= cursor' -> cursor' <= JS.length label ->
  aligned label cursor' l.
Proof.
  intros (H0 & H1 & H2 & H3 & H4) Hle Hlen. repeat split; try lia.
  replace (Z.to_nat (cursor' - trimmedLength l))
    with (Z.to_nat (cursor - trimmedLength l) + Z.to_nat (cursor' - cursor))%nat by lia.
  replace (Z.to_nat cursor') with (Z.to_nat cursor + Z.to_nat (cursor' - cursor))%nat by lia.
  rewrite <- !drop_drop. now rewrite H4.
Qed.

Lemma aligned_token (label : string) (cursor : Z) (l : Locals) (code : Code) :
  aligned label cursor l ->
  cursor <= code_index code ->
  code_index code + JS.length (code_text code) <= JS.length label ->
  JS.substring (text l) (code_index code - trimmedLength l)
      (code_index code + JS.length (code_text code) - trimmedLength l)
    = JS.substring label (code_index code) (code_index code + JS.length (code_text code)).
Proof.
  intros Hal Hle Hlen.
  assert (Hn : 0 <= JS.length (code_text code)) by (unfold JS.length; lia).
  destruct (aligned_advance label cursor (code_index code) l Hal Hle ltac:(lia))
    as (H0 & H1 & H2 & H3 & H4).
  apply JSFacts.chars_inj.
  rewrite !JSFacts.substring_chars by lia.
  rewrite H4. f_equal. lia.
Qed.

Lemma aligned_splice (label : string) (cursor : Z) (l : Locals) (code : Code) (h : string) :
  aligned label cursor l ->
  cursor <= code_index code ->
  code_index code + JS.length (code_text code) <= JS.length label ->
  aligned label (code_index code + JS.length (code_text code))
    {| text :=
         JS.substring (text l) 0 (code_index code - trimmedLength l)
         ++ JS.substring (text l)
              (code_index code + JS.length (code_text code) - trimmedLength l)
              (JS.length (text l));
       trimmedLength := trimmedLength l + JS.length (code_text code);
       html := h |}.
Proof.
  intros Hal Hle Hlen.
  assert (Hn : 0 <= JS.length (code_text code)) by (unfold JS.length; lia).
  destruct (aligned_advance label cursor (code_index code + JS.length (code_text code)) l
              Hal ltac:(lia) Hlen) as (H0 & H1 & H2 & H3 & H4).
  assert (Hti : trimmedLength l <= code_index code) by (destruct Hal; lia).
  set (i := code_index code) in *. set (n := JS.length (code_text code)) in *.
  set (t := trimmedLength l) in *.
  assert (Hc : JSFacts.chars
                 (JS.substring (text l) 0 (i - t)
                  ++ JS.substring (text l) (i + n - t) (JS.length (text l)))
               = (take (Z.to_nat (i - t)) (JSFacts.chars (text l))
                  ++ drop (Z.to_nat (i + n - t)) (JSFacts.chars (text l)))%list).
  { rewrite JSFacts.chars_append, !JSFacts.substring_chars by lia.
    rewrite Z.sub_0_r. simpl drop at 1. f_equal.
    apply take_ge. rewrite length_drop, JSFacts.chars_length.
    unfold JS.length in *. lia. }
  assert (Hlt : List.length (JSFacts.chars (text l)) = Z.to_nat (JS.length label - t)).
  { rewrite JSFacts.chars_length. unfold JS.length in *. lia. }
  unfold aligned. cbn [text trimmedLength].
  split; [lia|]. split; [lia|]. split; [lia|]. split.
  - unfold JS.length at 1. rewrite <- JSFacts.chars_length, Hc, length_app, length_take,
      length_drop, Hlt. lia.
  - rewrite Hc.
    replace (Z.to_nat (i + n - (t + n))) with (Z.to_nat (i - t)) by lia.
    rewrite drop_app_length'; [exact H4|].
    rewrite length_take, Hlt. lia.
Qed.

(** X22.  When the codes are genuine matches of the label, the positions
    the loop computes for a code cut exactly that code out of the text as it
    has become: the splice is not misaligned by the earlier removals. *)
Theorem label_scan_aligned
    (el : ElementData) (idLen : Z) (label : string)
    (pre post : list Code) (code : Code) (st : State) :
  genuine label 0 (pre ++ code :: post) ->
  exists l1 st1,
    scan_codes env el idLen pre
      {| text := label; trimmedLength := 0; html := innerHTML el |} st = (Ok l1, st1) /\
    trimmedLength l1 = removed_length idLen pre /\
    JS.substring (text l1) (code_index code - trimmedLength l1)
        (code_index code + JS.length (code_text code) - trimmedLength l1)
      = code_text code.
Proof.
  intros Hgen.
  assert (Hstart : aligned label 0 {| text := label; trimmedLength := 0;
                                      html := innerHTML el |}).
  { unfold aligned. cbn [text trimmedLength]. unfold JS.length.
    repeat split; try lia. }
  assert (Hgo : forall codes cursor l s,
    aligned label cursor l -> genuine label cursor (codes ++ code :: post) ->
    exists l1 st1,
      scan_codes env el idLen codes l s = (Ok l1, st1) /\
      trimmedLength l1 = trimmedLength l + removed_length idLen codes /\
      JS.substring (text l1) (code_index code - trimmedLength l1)
          (code_index code + JS.length (code_text code) - trimmedLength l1)
        = code_text code).
  { induction codes as [|c codes IH]; intros cursor l s Hal Hg.
    - destruct Hg as (Hle & Hlen & Htok & _). exists l, s.
      split; [reflexivity|]. split; [simpl; lia|].
      rewrite (aligned_token label cursor l code Hal Hle Hlen). exact Htok.
    - destruct Hg as (Hle & Hlen & Htok & Hrest). simpl scan_codes. simpl removed_length.
      destruct (getIconByName (icon_name idLen c)) as [obj|] eqn:Hicon.
      + destruct (scan_code_found el idLen c l s obj Hicon) as [s1 Hs1].
        erewrite bind_ok; [|exact Hs1].
        match goal with
        | |- context [scan_codes env el idLen codes ?l0 s1] =>
            destruct (IH (code_index c + JS.length (code_text c)) l0 s1)
              as (l1 & st1 & Hrun & Hlen1 & Htok1)
        end.
        * now apply (aligned_splice label cursor).
        * exact Hrest.
        * exists l1, st1. split; [exact Hrun|]. split; [|exact Htok1].
          rewrite Hlen1. cbn [trimmedLength]. lia.
      + erewrite bind_ok; [|now apply scan_code_not_found].
        destruct (IH (code_index c + JS.length (code_text c)) l s)
          as (l1 & st1 & Hrun & Hlen1 & Htok1).
        * apply (aligned_advance label cursor); [exact Hal| |exact Hlen].
          unfold JS.length. lia.
        * exact Hrest.
        * exists l1, st1. split; [exact Hrun|]. split; [exact Hlen1|exact Htok1]. }
  destruct (Hgo pre 0 _ st Hstart Hgen) as (l1 & st1 & Hrun & Hlen & Htok).
  exists l1, st1. split; [exact Hrun|]. split; [exact Hlen|exact Htok].
Qed.

End WithHost.

Import SampleHost.


(** The label of the specification: [:two:], found at index 10, is cut
    out at index 5 once [:one:] is gone, and [:zzz:], which names no icon,
    stays. *)
Example label_scan_sample :
  fst (scan_codes env
         {| el_id := 1; classList := []; getText := ""; innerHTML := "" |} 1
         [ {| code_text := ":one:"; code_index := 2 |} ]
         {| text := "a :one: b :two: c"; trimmedLength := 0; html := "" |} init)
    = Ok {| text := "a  b :two: c"; trimmedLength := 5; html := "" |} /\
  fst (scan_code env
         {| el_id := 1; classList := []; getText := ""; innerHTML := "" |} 1
         {| code_text := ":two:"; code_index := 10 |}
         {| text := "a  b :two: c"; trimmedLength := 5; html := "" |} init)
    = Ok {| text := "a  b  c"; trimmedLength := 10; html := "" |} /\
  JS.substring "a  b :two: c" (10 - 5) (10 + 5 - 5) = ":two:" /\
  fst (scan_codes env
         {| el_id := 1; classList := []; getText := ""; innerHTML := "" |} 1
         (codes_of colon "a :one: b :zzz: c :two:")
         {| text := "a :one: b :zzz: c :two:"; trimmedLength := 0; html := "" |} init)
    = Ok {| text := "a  b :zzz: c "; trimmedLength := 10; html := "" |}.
Proof. repeat split; vm_compute; reflexivity. Qed.

(** On the label of the specification the codes are genuine, and the
    adjusted positions of [:two:] hold [:two:]. *)
Example label_scan_aligned_sample :
  genuine "a :one: b :two: c" 0 (codes_of colon "a :one: b :two: c") /\
  exists l1 st1,
    scan_codes env
      {| el_id := 1; classList := []; getText := "a :one: b :two: c";
         innerHTML := "a :one: b :two: c" |} 1
      [ {| code_text := ":one:"; code_index := 2 |} ]
      {| text := "a :one: b :two: c"; trimmedLength := 0;
         html := "a :one: b :two: c" |} init = (Ok l1, st1) /\
    trimmedLength l1 = removed_length 1 [ {| code_text := ":one:"; code_index := 2 |} ] /\
    JS.substring (text l1) (10 - trimmedLength l1) (10 + 5 - trimmedLength l1) = ":two:".
Proof.
  assert (Hgen : genuine "a :one: b :two: c" 0 (codes_of colon "a :one: b :two: c")).
  { vm_compute. repeat split; discriminate. }
  split; [exact Hgen|].
  apply (label_scan_aligned env
           {| el_id := 1; classList := []; getText := "a :one: b :two: c";
              innerHTML := "a :one: b :two: c" |} 1 "a :one: b :two: c"
           [ {| code_text := ":one:"; code_index := 2 |} ] []
           {| code_text := ":two:"; code_index := 10 |} init).
  exact Hgen.
Defined.

Lemma register_twice_attaches_two_observers_witness :
  requireApiVersion_1_7_2 env = false /\
  attached (run env [Register; Register; AllIconsLoaded] (set_leaf (Some outlineLeaf) init))
    = [(0%nat, 100%nat); (1%nat, 100%nat)].
Proof.
  split; [reflexivity|].
  apply (register_twice_attaches_two_observers env (set_leaf (Some outlineLeaf) init)
           outlineLeaf); reflexivity.
Defined.

Lemma nav_item_size_without_property_witness :
  bodyStyle env !! "--nav-item-size" = None /\
  getNavItemSize env init = (Ok JS.NaN, set_cachedNavItemSize (Some JS.NaN) init).
Proof.
  split; [reflexivity|].
  apply (nav_item_size_without_property env init); reflexivity.
Defined.

Lemma callback_disabled_discards_batch_witness :
  enabled (set_enabled false watching) = false /\
  attached (set_enabled false watching) = [(0%nat, 100%nat)] /\
  callback env sample_batch (set_enabled false watching)
    = (Ok tt, drop_observer (set_enabled false watching)).
Proof.
  split; [reflexivity|]. split; [vm_compute; reflexivity|].
  apply (callback_disabled_discards_batch env (set_enabled false watching) sample_batch).
  reflexivity.
Defined.

(** The same batch while the plugin is enabled is scanned and rewritten. *)
Example callback_enabled_sample :
  scanned (snd (callback env sample_batch watching)) = [2%nat] /\
  writes (snd (callback env sample_batch watching))
    = [(2%nat, "x <span data-icon=one><svg one/></span> y")] /\
  scanned (snd (callback env sample_batch (set_enabled false watching))) = [].
Proof. repeat split; vm_compute; reflexivity. Qed.

End OutlineFacts.

(** ** More on the custom rules *)

Module CustomRuleMore.
Import CustomRule CustomRuleFacts.

Section WithEngine.
Context `{RegExpEngine} `{Document}.

Lemma isApplicable_run (pl : Plugin) (r : CustomRule) (p : string) (st : State) :
  cache_ok st ->
  isApplicable pl r p st = (Ok (applicable pl r p), probe pl r p st).
Proof.
  intros Hok. unfold isApplicable, applicable, probe.
  destruct (getAbstractFileByPath pl p) as [af|]; [|reflexivity].
  destruct (doesMatchFileType r (fileTypeOf af)); simpl; [|reflexivity].
  now apply doesMatchPath_run.
Qed.

Lemma probe_cache_ok (pl : Plugin) (r : CustomRule) (p : string) (st : State) :
  cache_ok st -> cache_ok (probe pl r p st).
Proof.
  intros Hok. unfold probe. destruct (getAbstractFileByPath pl p) as [af|]; [|exact Hok].
  destruct (doesMatchFileType r (fileTypeOf af)); [now apply ensure_cache_ok|exact Hok].
Qed.

Lemma probe_fields (pl : Plugin) (r : CustomRule) (p : string) (st : State) :
  iconNodes (probe pl r p st) = iconNodes st /\
  iconCache (probe pl r p st) = iconCache st /\
  rendered (probe pl r p st) = rendered st /\
  heap (probe pl r p st) = heap st.
Proof.
  unfold probe. destruct (getAbstractFileByPath pl p) as [af|]; [|auto].
  destruct (doesMatchFileType r (fileTypeOf af)); [apply ensure_fields|auto].
Qed.

Lemma collect_run (pl : Plugin) (r : CustomRule) (items : list FileItem) (st : State) :
  cache_ok st ->
  fst (collect pl r items st)
    = Ok (List.filter (fun fi => applicable pl r (path (fi_file fi))) items) /\
  cache_ok (snd (collect pl r items st)) /\
  iconNodes (snd (collect pl r items st)) = iconNodes st /\
  iconCache (snd (collect pl r items st)) = iconCache st /\
  rendered (snd (collect pl r items st)) = rendered st /\
  heap (snd (collect pl r items st)) = heap st.
Proof.
  revert st. induction items as [|fi items IH]; intros st Hok.
  - simpl. auto 10.
  - cbn [collect]. erewrite bind_ok; [|now apply isApplicable_run].
    destruct (IH (probe pl r (path (fi_file fi)) st) (probe_cache_ok _ _ _ _ Hok))
      as (Hres & Hok' & Hn & Hc & Hr & Hh).
    destruct (probe_fields pl r (path (fi_file fi)) st) as (Hn0 & Hc0 & Hr0 & Hh0).
    destruct (collect pl r items (probe pl r (path (fi_file fi)) st)) as [res st'] eqn:Hrun.
    simpl in Hres. subst res.
    erewrite bind_ok; [|exact Hrun]. simpl in *.
    rewrite Hn, Hc, Hr, Hh, Hn0, Hc0, Hr0, Hh0.
    split; [|auto 10]. now destruct (applicable pl r (path (fi_file fi))).
Qed.

(** X1.  [getFileItems] returns, in the order of the registered file
    explorers and of their items, exactly the file items whose path is in
    the vault with the rule's type and is matched by the rule; it does not
    raise, and it leaves the Icon Assignment Cache, the icon nodes, the
    render requests and the settings as they were. *)
Theorem getFileItems_filter (pl : Plugin) (r : CustomRule) (st : State) :
  cache_ok st ->
  fst (getFileItems pl r st)
    = Ok (List.filter (fun fi => applicable pl r (path (fi_file fi)))
            (concat (fileExplorers pl))) /\
  iconNodes (snd (getFileItems pl r st)) = iconNodes st /\
  iconCache (snd (getFileItems pl r st)) = iconCache st /\
  rendered (snd (getFileItems pl r st)) = rendered st /\
  heap (snd (getFileItems pl r st)) = heap st.
Proof.
  intros Hok. unfold getFileItems.
  destruct (collect_run pl r (concat (fileExplorers pl)) st Hok)
    as (Hres & _ & Hn & Hc & Hr & Hh).
  auto 10.
Qed.

(** *** The directory part of a path *)

Lemma split_app_sep (sep : ascii) (a b : string) :
  JS.split sep (a ++ String sep b) = (JS.split sep a ++ JS.split sep b)%list.
Proof.
  induction a as [|c a IH].
  - change ("" ++ String sep b) with (String sep b). simpl.
    now rewrite Ascii.eqb_refl.
  - change (String c a ++ String sep b) with (String c (a ++ String sep b)).
    cbn [JS.split]. rewrite IH.
    destruct (Ascii.eqb c sep); [reflexivity|].
    pose proof (JSFacts.split_nonempty sep a) as Hne.
    destruct (JS.split sep a) as [|h t]; [congruence|reflexivity].
Qed.

Lemma last_split_app_sep (sep : ascii) (a b : string) :
  List.last (JS.split sep (a ++ String sep b)) "" = List.last (JS.split sep b) "".
Proof.
  rewrite split_app_sep. pose proof (JSFacts.split_nonempty sep b) as Hne.
  generalize (JS.split sep a) as l. intros l.
  induction l as [|x l IH]; [reflexivity|].
  simpl. destruct (l ++ JS.split sep b)%list as [|y l'] eqn:E; [|exact IH].
  apply app_eq_nil in E. destruct E as [_ E]. congruence.
Qed.

(** X2.  For a rule that does not use the file path, what precedes the
    last [/] of a path plays no part: prefixing a path with any directory
    gives the same comparison subject, the same answer of [doesMatchPath]
    and the same store. *)
Theorem doesMatchPath_ignores_directory
    (r : CustomRule) (dir p : string) (st : State) :
  useFilePath r = false ->
  subject r (dir ++ "/" ++ p) = subject r p /\
  doesMatchPath r (dir ++ "/" ++ p) st = doesMatchPath r p st.
Proof.
  intros Hu.
  assert (Hs : subject r (dir ++ "/" ++ p) = subject r p).
  { unfold subject. rewrite Hu. apply (last_split_app_sep "/" dir p). }
  split; [exact Hs|].
  rewrite !doesMatchPath_eq, !toMatch_subject, Hs. reflexivity.
Qed.

(** *** Adding, and removing again *)

Lemma split_no_sep (sep : ascii) (p : string) :
  JS.has_char sep p = false -> JS.split sep p = [p].
Proof.
  induction p as [|c p IH]; [reflexivity|]. cbn [JS.has_char JS.split].
  intros Hno. apply orb_false_iff in Hno. destruct Hno as [Hc Hp].
  rewrite (IH Hp).
  now rewrite Hc.
Qed.

(** X25.  For a path without [/] (an entry of the vault's root), the
    rule's [useFilePath] plays no part: the comparison subject is the path
    itself, and two rules with the same pattern give the same answer of
    [doesMatchPath] and the same store, whatever their other fields. *)
Theorem doesMatchPath_top_level (r1 r2 : CustomRule) (p : string) (st : State) :
  rule r1 = rule r2 ->
  JS.has_char "/" p = false ->
  subject r1 p = p /\
  doesMatchPath r1 p st = doesMatchPath r2 p st.
Proof.
  intros Hrule Hno.
  assert (Hs : forall r, subject r p = p).
  { intros r. unfold subject. rewrite (split_no_sep "/" p Hno).
    now destruct (useFilePath r). }
  split; [apply Hs|].
  rewrite !doesMatchPath_eq, !toMatch_subject, !Hs, Hrule. reflexivity.
Qed.

Lemma add_run (pl : Plugin) (r : CustomRule) (f : TAbstractFile)
    (container : option HTMLElement) (st : State) :
  cache_ok st ->
  add pl r f container st =
    if match container with
       | Some c => existsb (has_parent c) (iconNodes st)
       | None => false
       end
    then (Ok false, st)
    else if truthy (getIconNameFromPath pl (path f)) then (Ok false, st)
    else if applicable pl r (path f) then
      (Ok true,
       snd (createIconNode pl (path f) (icon r) (color r) container
              (with_iconCache <[path f := assignment_of r]> (probe pl r (path f) st))))
    else (Ok false, probe pl r (path f) st).
Proof.
  intros Hok. unfold add, assignment_of.
  destruct container as [c|].
  - erewrite bind_ok; [|apply doesElementHasIconNode_eq].
    destruct (existsb _ _); [reflexivity|].
    destruct (truthy _); [reflexivity|].
    erewrite bind_ok; [|now apply isApplicable_run].
    destruct (applicable pl r (path f)); [|reflexivity].
    erewrite bind_ok; [|reflexivity].
    erewrite bind_ok; [reflexivity|apply createIconNode_run].
  - erewrite bind_ok; [|reflexivity].
    destruct (truthy _); [reflexivity|].
    erewrite bind_ok; [|now apply isApplicable_run].
    destruct (applicable pl r (path f)); [|reflexivity].
    erewrite bind_ok; [|reflexivity].
    erewrite bind_ok; [reflexivity|apply createIconNode_run].
Qed.

Lemma add_cache_ok pl r f container (st : State) :
  cache_ok st -> cache_ok (snd (add pl r f container st)).
Proof. intros Hok. now apply (step_ok_run [CallAdd pl r f container] st). Qed.

Lemma add_one_icon pl r f container (st : State) :
  one_icon_per_element (iconNodes st) ->
  one_icon_per_element (iconNodes (snd (add pl r f container st))).
Proof. apply (dom_ok_run [CallAdd pl r f container] st). Qed.

(** What a successful [add] into a container leaves behind. *)
Lemma add_applied (pl : Plugin) (r : CustomRule) (f : TAbstractFile)
    (c : HTMLElement) (st : State) :
  cache_ok st ->
  fst (add pl r f (Some c) st) = Ok true ->
  existsb (has_parent c) (iconNodes st) = false /\
  truthy (getIconNameFromPath pl (path f)) = false /\
  applicable pl r (path f) = true /\
  iconNodes (snd (add pl r f (Some c) st))
    = (iconNodes st ++ [ {| icon_attr := icon r; parentElement := Some c |} ])%list /\
  iconCache (snd (add pl r f (Some c) st)) = <[path f := assignment_of r]> (iconCache st).
Proof.
  intros Hok. rewrite (add_run pl r f (Some c) st Hok).
  destruct (existsb (has_parent c) (iconNodes st)) eqn:Hc; [discriminate|].
  destruct (truthy _) eqn:Ht; [discriminate|].
  destruct (applicable pl r (path f)) eqn:Ha; [|discriminate].
  intros _. rewrite createIconNode_eq. cbn [snd].
  destruct (probe_fields pl r (path f) st) as (Hn & Hic & _).
  simpl. rewrite Hn, Hic. unfold render_into. rewrite Hc. auto.
Qed.


Lemma removeFromAllFiles_cache (pl : Plugin) (r : CustomRule) (st : State) (p : string) :
  selector_safe (icon r) = true ->
  cache_ok st ->
  iconCache (snd (removeFromAllFiles pl r st)) !! p
    = if existsb (fun n => removable pl r n && bool_decide (owner n = Some p))
                 (iconNodes st)
      then None else iconCache st !! p.
Proof.
  intros Hsafe Hok. rewrite (removeFromAllFiles_fold pl r st Hsafe Hok). cbn [snd].
  destruct (rm_fold_fields pl r
              (List.filter (fun n => String.eqb (icon_attr n) (icon r)) (iconNodes st)) st)
    as (_ & Hc & _).
  rewrite Hc, rm_cache_fold, existsb_filter. unfold removable.
  assert (Hext : forall l,
    existsb (fun x => String.eqb (icon_attr x) (icon r) &&
                      (still_matches pl r x && bool_decide (owner x = Some p))) l
    = existsb (fun n => String.eqb (icon_attr n) (icon r) && still_matches pl r n &&
                        bool_decide (owner n = Some p)) l).
  { induction l as [|x l IH]; [reflexivity|]. simpl. now rewrite IH, andb_assoc. }
  now rewrite Hext.
Qed.

(** X26.  For a rule whose icon identifier the selector reads as it is
    written, [removeFromAllFiles] invalidates exactly the entries of the
    Icon Assignment Cache whose path owns an icon node that carries the
    rule's icon and is still matched by the rule: the entry of such a path
    is gone, and the entry of every other path is as it was. *)
Theorem removeFromAllFiles_invalidates
    (pl : Plugin) (r : CustomRule) (st : State) (p : string) :
  selector_safe (icon r) = true ->
  cache_ok st ->
  ((exists n, In n (iconNodes st) /\ removable pl r n = true /\ owner n = Some p) ->
   iconCache (snd (removeFromAllFiles pl r st)) !! p = None) /\
  ((forall n, In n (iconNodes st) -> removable pl r n = true -> owner n <> Some p) ->
   iconCache (snd (removeFromAllFiles pl r st)) !! p = iconCache st !! p).
Proof.
  intros Hsafe Hok. rewrite (removeFromAllFiles_cache pl r st p Hsafe Hok). split.
  - intros (n & Hin & Hrem & Hown).
    replace (existsb _ (iconNodes st)) with true; [reflexivity|].
    symmetry. apply existsb_exists. exists n. split; [exact Hin|].
    rewrite Hrem. now apply bool_decide_eq_true_2.
  - intros Hnone.
    destruct (existsb _ (iconNodes st)) eqn:Hex; [|reflexivity].
    apply existsb_exists in Hex. destruct Hex as (n & Hin & Hn).
    apply andb_true_iff in Hn. destruct Hn as [Hrem Hown].
    apply bool_decide_eq_true in Hown. now destruct (Hnone n Hin Hrem).
Qed.

Lemma removeFromAllFiles_cache_ok pl r (st : State) :
  cache_ok st -> cache_ok (snd (removeFromAllFiles pl r st)).
Proof. intros Hok. now apply (step_ok_run [CallRemoveFromAllFiles pl r] st). Qed.

Lemma removeFromAllFiles_one_icon pl r (st : State) :
  one_icon_per_element (iconNodes st) ->
  one_icon_per_element (iconNodes (snd (removeFromAllFiles pl r st))).
Proof. apply (dom_ok_run [CallRemoveFromAllFiles pl r] st). Qed.

(** X4.  [removeFromAllFiles] undoes [add]: for a rule whose icon
    identifier the selector reads as it is written, on a document in which
    no element holds two icon nodes, when [add] has put the icon of the rule
    into the title element of a path (an element whose [data-path] is that
    path, which is not empty), removing the rule's icons leaves the document
    as removing them before the [add] would have left it, and the path has
    no entry in the Icon Assignment Cache. *)
Theorem removeFromAllFiles_undoes_add
    (pl : Plugin) (r : CustomRule) (f : TAbstractFile) (c : HTMLElement) (st : State) :
  selector_safe (icon r) = true ->
  cache_ok st ->
  one_icon_per_element (iconNodes st) ->
  data_path c = Some (path f) ->
  path f <> "" ->
  fst (add pl r f (Some c) st) = Ok true ->
  iconNodes (snd (removeFromAllFiles pl r (snd (add pl r f (Some c) st))))
    = iconNodes (snd (removeFromAllFiles pl r st)) /\
  iconCache (snd (removeFromAllFiles pl r (snd (add pl r f (Some c) st)))) !! path f
    = None.
Proof.
  intros Hsafe Hok Hnd Hdp Hne Htrue.
  destruct (add_applied pl r f c st Hok Htrue) as (_ & _ & Happ & Hnodes & _).
  assert (Hrem : removable pl r {| icon_attr := icon r; parentElement := Some c |} = true).
  { unfold removable, still_matches, owner, usable_data_path. simpl.
    rewrite String.eqb_refl, Hdp. apply String.eqb_neq in Hne. rewrite Hne.
    unfold applicable in Happ.
    destruct (getAbstractFileByPath pl (path f)); [|discriminate].
    simpl. rewrite andb_comm. exact Happ. }
  assert (Hown : owner {| icon_attr := icon r; parentElement := Some c |} = Some (path f)).
  { unfold owner, usable_data_path. simpl. rewrite Hdp.
    apply String.eqb_neq in Hne. now rewrite Hne. }
  split.
  - rewrite (removeFromAllFiles_nodes pl r _ Hsafe (add_cache_ok _ _ _ _ _ Hok)
               (add_one_icon _ _ _ _ _ Hnd)).
    rewrite (removeFromAllFiles_nodes pl r st Hsafe Hok Hnd), Hnodes, List.filter_app.
    simpl. rewrite Hrem. simpl. apply app_nil_r.
  - rewrite (removeFromAllFiles_cache pl r _ _ Hsafe (add_cache_ok _ _ _ _ _ Hok)).
    rewrite Hnodes, existsb_app. simpl. rewrite Hrem, Hown.
    rewrite bool_decide_eq_true_2 by reflexivity. simpl.
    now rewrite orb_true_r.
Qed.

(** X5.  [removeFromAllFiles] is idempotent on what it is for: for a
    rule whose icon identifier the selector reads as it is written, on a
    document in which no element holds two icon nodes, a second run right
    after the first finds nothing more to remove, neither in the document
    nor in the Icon Assignment Cache. *)
Theorem removeFromAllFiles_idempotent (pl : Plugin) (r : CustomRule) (st : State) :
  selector_safe (icon r) = true ->
  cache_ok st ->
  one_icon_per_element (iconNodes st) ->
  fst (removeFromAllFiles pl r (snd (removeFromAllFiles pl r st))) = Ok tt /\
  iconNodes (snd (removeFromAllFiles pl r (snd (removeFromAllFiles pl r st))))
    = iconNodes (snd (removeFromAllFiles pl r st)) /\
  iconCache (snd (removeFromAllFiles pl r (snd (removeFromAllFiles pl r st))))
    = iconCache (snd (removeFromAllFiles pl r st)).
Proof.
  intros Hsafe Hok Hnd.
  pose proof (removeFromAllFiles_cache_ok pl r st Hok) as Hok1.
  pose proof (removeFromAllFiles_one_icon pl r st Hnd) as Hnd1.
  pose proof (removeFromAllFiles_nodes pl r st Hsafe Hok Hnd) as Hn1.
  split; [now rewrite (removeFromAllFiles_fold pl r _ Hsafe Hok1)|]. split.
  - rewrite (removeFromAllFiles_nodes pl r _ Hsafe Hok1 Hnd1), Hn1, filter_filter_andb.
    apply filter_ext. intros n. now destruct (removable pl r n).
  - apply map_eq. intros p.
    rewrite (removeFromAllFiles_cache pl r _ p Hsafe Hok1), Hn1, existsb_filter.
    assert (Hnone : forall l,
      existsb (fun x => negb (removable pl r x) &&
                        (removable pl r x && bool_decide (owner x = Some p))) l = false).
    { induction l as [|x l IH]; [reflexivity|]. simpl.
      rewrite IH. now destruct (removable pl r x). }
    now rewrite Hnone.
Qed.

(** X6.  Sorting the rules twice is sorting them once: a second
    [getSortedRules] returns the same array and leaves the store, settings
    included, exactly as the first call left it. *)
Theorem getSortedRules_idempotent (pl : Plugin) (st : State) (rs : list CustomRule) :
  heap st !! settings_rules pl = Some rs ->
  getSortedRules pl (snd (getSortedRules pl st))
    = (Ok (settings_rules pl), snd (getSortedRules pl st)).
Proof.
  intros Hrs.
  assert (H1 : getSortedRules pl st
    = (Ok (settings_rules pl),
       with_heap <[settings_rules pl := JS.sort (fun a b => order a - order b) rs]> st)).
  { unfold getSortedRules, bind, gets, modify, ret. now rewrite Hrs. }
  rewrite H1. cbn [snd].
  set (st1 := with_heap _ st).
  assert (Hst1 : heap st1 !! settings_rules pl
                 = Some (JS.sort (fun a b => order a - order b) rs)).
  { subst st1. simpl. apply lookup_insert_eq. }
  unfold getSortedRules, bind, gets, modify, ret. rewrite Hst1. f_equal.
  change (fun a b => order a - order b) with (JSFacts.by_key order).
  rewrite (JSFacts.sort_sorted_id order _ (JSFacts.sort_sorted order rs)).
  apply with_heap_id. exact Hst1.
Qed.

(** *** Applying a rule to all files *)

Lemma add_all_cons (pl : Plugin) (r : CustomRule) (fi : FileItem)
    (items : list FileItem) (st : State) :
  add_all pl r (fi :: items) st
    = add_all pl r items (snd (add pl r (fi_file fi) (fi_titleEl fi) st)).
Proof. reflexivity. Qed.

Lemma add_returns (pl : Plugin) (r : CustomRule) (f : TAbstractFile)
    (container : option HTMLElement) (st : State) :
  cache_ok st -> exists b, add pl r f container st = (Ok b, snd (add pl r f container st)).
Proof.
  intros Hok. rewrite (add_run pl r f container st Hok).
  destruct (match container with Some c => _ | None => false end); [now exists false|].
  destruct (truthy _); [now exists false|].
  destruct (applicable _ _ _); [now exists true|now exists false].
Qed.

Lemma addToAllFiles_run (pl : Plugin) (r : CustomRule) (st : State) :
  cache_ok st ->
  addToAllFiles pl r st
    = (Ok tt,
       add_all pl r
         (List.filter (fun fi => applicable pl r (path (fi_file fi)))
            (concat (fileExplorers pl)))
         (snd (getFileItems pl r st))).
Proof.
  intros Hok. unfold addToAllFiles, getFileItems, add_all.
  destruct (collect_run pl r (concat (fileExplorers pl)) st Hok) as (Hres & Hok' & _).
  destruct (collect pl r (concat (fileExplorers pl)) st) as [res st0] eqn:Hrun.
  simpl in Hres, Hok'. subst res.
  erewrite bind_ok; [|exact Hrun]. cbn [snd].
  apply (for_each_fold cache_ok); [|exact Hok'].
  intros fi s Hs. destruct (add_returns pl r (fi_file fi) (fi_titleEl fi) s Hs) as [b Hb].
  split; [erewrite bind_ok; [reflexivity|exact Hb]|now apply add_cache_ok].
Qed.

Lemma render_into_keeps (c el : HTMLElement) (i : string) (nodes : list IconNode) :
  existsb (has_parent c) nodes = true ->
  existsb (has_parent c) (render_into el i nodes) = true.
Proof.
  intros Hc. unfold render_into. destruct (existsb (has_parent el) nodes).
  - clear -Hc. induction nodes as [|n nodes IH]; [discriminate|]. simpl in *.
    destruct (has_parent el n); simpl.
    + unfold has_parent in *. simpl. exact Hc.
    + apply orb_true_iff in Hc. apply orb_true_iff.
      destruct Hc as [Hc|Hc]; [now left|right; now apply IH].
  - rewrite existsb_app, Hc. reflexivity.
Qed.

Lemma add_keeps_node (pl : Plugin) (r : CustomRule) (f : TAbstractFile)
    (container : option HTMLElement) (c : HTMLElement) (st : State) :
  cache_ok st ->
  existsb (has_parent c) (iconNodes st) = true ->
  existsb (has_parent c) (iconNodes (snd (add pl r f container st))) = true.
Proof.
  intros Hok Hc. rewrite (add_run pl r f container st Hok).
  destruct (probe_fields pl r (path f) st) as (Hn & _).
  destruct (match container with Some c0 => _ | None => false end); [exact Hc|].
  destruct (truthy _); [exact Hc|].
  destruct (applicable _ _ _); cbn [snd]; [|now rewrite Hn].
  rewrite createIconNode_eq. cbn [snd].
  destruct (match container with Some c0 => Some c0 | None => _ end); simpl;
    rewrite Hn; [now apply render_into_keeps|exact Hc].
Qed.

Lemma add_makes_node (pl : Plugin) (r : CustomRule) (f : TAbstractFile)
    (c : HTMLElement) (st : State) :
  cache_ok st ->
  applicable pl r (path f) = true ->
  truthy (getIconNameFromPath pl (path f)) = false ->
  existsb (has_parent c) (iconNodes (snd (add pl r f (Some c) st))) = true.
Proof.
  intros Hok Happ Ht. rewrite (add_run pl r f (Some c) st Hok), Ht, Happ.
  destruct (existsb (has_parent c) (iconNodes st)) eqn:Hc; [exact Hc|].
  rewrite createIconNode_eq. cbn [snd]. simpl. apply render_into_has.
Qed.

Lemma add_all_cache_ok pl r items (st : State) :
  cache_ok st -> cache_ok (add_all pl r items st).
Proof.
  revert st. induction items as [|fi items IH]; intros st Hok; [exact Hok|].
  apply IH. now apply add_cache_ok.
Qed.

Lemma add_all_keeps_node pl r items (c : HTMLElement) (st : State) :
  cache_ok st ->
  existsb (has_parent c) (iconNodes st) = true ->
  existsb (has_parent c) (iconNodes (add_all pl r items st)) = true.
Proof.
  revert st. induction items as [|fi items IH]; intros st Hok Hc; [exact Hc|].
  apply IH; [now apply add_cache_ok|now apply add_keeps_node].
Qed.

Lemma add_all_covers pl r items (st : State) (fi : FileItem) (c : HTMLElement) :
  cache_ok st ->
  In fi items ->
  fi_titleEl fi = Some c ->
  applicable pl r (path (fi_file fi)) = true ->
  truthy (getIconNameFromPath pl (path (fi_file fi))) = false ->
  existsb (has_parent c) (iconNodes (add_all pl r items st)) = true.
Proof.
  intros Hok Hin Hc Happ Ht. revert st Hok Hin.
  induction items as [|x items IH]; intros s Hs [].
  - subst x. rewrite add_all_cons.
    apply add_all_keeps_node; [now apply add_cache_ok|].
    rewrite Hc. now apply add_makes_node.
  - rewrite add_all_cons.
    apply IH; [now apply add_cache_ok|assumption].
Qed.

(** X7.  After [addToAllFiles], every registered file item whose path
    the rule applies to and for which the icon-name lookup has no icon shows
    an icon: its title element carries an icon node. *)
Theorem addToAllFiles_covers
    (pl : Plugin) (r : CustomRule) (st : State) (fi : FileItem) (c : HTMLElement) :
  cache_ok st ->
  In fi (concat (fileExplorers pl)) ->
  fi_titleEl fi = Some c ->
  applicable pl r (path (fi_file fi)) = true ->
  truthy (getIconNameFromPath pl (path (fi_file fi))) = false ->
  fst (addToAllFiles pl r st) = Ok tt /\
  existsb (has_parent c) (iconNodes (snd (addToAllFiles pl r st))) = true.
Proof.
  intros Hok Hin Hc Happ Ht. rewrite (addToAllFiles_run pl r st Hok). cbn [fst snd].
  split; [reflexivity|].
  destruct (collect_run pl r (concat (fileExplorers pl)) st Hok) as (_ & Hok0 & _).
  fold (getFileItems pl r st) in Hok0.
  apply (add_all_covers pl r _ _ fi c Hok0); try assumption.
  apply filter_In. now split.
Qed.

(** What one [add] does to the Icon Assignment Cache and to the icon
    nodes when it is given a container. *)
Lemma add_step (pl : Plugin) (r : CustomRule) (f : TAbstractFile)
    (container : option HTMLElement) (st : State) :
  cache_ok st ->
  (iconCache (snd (add pl r f container st)) = iconCache st \/
   iconCache (snd (add pl r f container st)) = <[path f := assignment_of r]> (iconCache st)
   /\ applicable pl r (path f) = true
   /\ truthy (getIconNameFromPath pl (path f)) = false) /\
  (forall c, container = Some c ->
     iconNodes (snd (add pl r f container st)) = iconNodes st \/
     iconNodes (snd (add pl r f container st))
       = (iconNodes st ++ [ {| icon_attr := icon r; parentElement := Some c |} ])%list).
Proof.
  intros Hok. rewrite (add_run pl r f container st Hok).
  destruct (probe_fields pl r (path f) st) as (Hn & Hic & _).
  destruct (match container with Some c => existsb _ _ | None => false end) eqn:Hcar;
    [split; [now left|intros; now left]|].
  destruct (truthy _) eqn:Ht; [split; [now left|intros; now left]|].
  destruct (applicable _ _ _) eqn:Ha; cbn [snd];
    [|rewrite Hn, Hic; split; [now left|intros; now left]].
  rewrite createIconNode_eq. cbn [snd]. split.
  - right. split; [|auto].
    destruct (match container with Some c => Some c | None => _ end); simpl;
      now rewrite Hic.
  - intros c ->. right. simpl. rewrite Hn. unfold render_into. now rewrite Hcar.
Qed.

(** X8.  [addToAllFiles] writes into the Icon Assignment Cache only for
    paths the rule applies to and for which the icon-name lookup has no
    icon, and what it writes there is the rule's icon marked as coming from
    a custom rule; every other entry is as it was. *)
Theorem addToAllFiles_cache (pl : Plugin) (r : CustomRule) (st : State) (p : string) :
  cache_ok st ->
  iconCache (snd (addToAllFiles pl r st)) !! p = iconCache st !! p \/
  iconCache (snd (addToAllFiles pl r st)) !! p = Some (assignment_of r) /\
  applicable pl r p = true /\
  truthy (getIconNameFromPath pl p) = false.
Proof.
  intros Hok. rewrite (addToAllFiles_run pl r st Hok). cbn [snd].
  destruct (collect_run pl r (concat (fileExplorers pl)) st Hok) as (_ & Hok0 & _ & Hc0 & _).
  fold (getFileItems pl r st) in Hok0, Hc0. rewrite <- Hc0.
  revert Hok0. generalize (snd (getFileItems pl r st)).
  generalize (List.filter (fun fi => applicable pl r (path (fi_file fi)))
                (concat (fileExplorers pl))).
  intros items. induction items as [|x items IH]; intros s Hs; [now left|].
  rewrite add_all_cons.
  destruct (IH _ (add_cache_ok pl r (fi_file x) (fi_titleEl x) s Hs)) as [Hsame|Hnew];
    [|now right].
  rewrite Hsame.
  destruct (add_step pl r (fi_file x) (fi_titleEl x) s Hs) as [[Heq|(Heq & Ha & Ht)] _];
    rewrite Heq; [now left|].
  rewrite lookup_insert. case_decide; [subst p; now right|now left].
Qed.

(** X9.  Custom rules have the lowest priority: when every registered
    file item has a title element, [addToAllFiles] leaves every icon node of
    the document in place and unchanged, and only appends nodes that carry
    the rule's icon. *)
Theorem addToAllFiles_appends (pl : Plugin) (r : CustomRule) (st : State) :
  cache_ok st ->
  Forall (fun fi => is_Some (fi_titleEl fi)) (concat (fileExplorers pl)) ->
  exists added,
    iconNodes (snd (addToAllFiles pl r st)) = (iconNodes st ++ added)%list /\
    Forall (fun n => icon_attr n = icon r) added.
Proof.
  intros Hok Hall. rewrite (addToAllFiles_run pl r st Hok). cbn [snd].
  destruct (collect_run pl r (concat (fileExplorers pl)) st Hok) as (_ & Hok0 & Hn0 & _).
  fold (getFileItems pl r st) in Hok0, Hn0. rewrite <- Hn0.
  assert (Hall' : Forall (fun fi => is_Some (fi_titleEl fi))
                    (List.filter (fun fi => applicable pl r (path (fi_file fi)))
                       (concat (fileExplorers pl)))).
  { apply Forall_forall. intros fi Hfi. apply list_elem_of_In, filter_In in Hfi.
    destruct Hfi as [Hfi _]. apply list_elem_of_In in Hfi.
    now apply (proj1 (Forall_forall _ _) Hall fi). }
  revert Hok0 Hall'. generalize (snd (getFileItems pl r st)).
  generalize (List.filter (fun fi => applicable pl r (path (fi_file fi)))
                (concat (fileExplorers pl))).
  intros items. induction items as [|x items IH]; intros s Hs Hitems.
  - exists []. split; [now rewrite app_nil_r|constructor].
  - rewrite add_all_cons.
    inversion Hitems as [|? ? [c Hc] Hrest]; subst.
    destruct (IH _ (add_cache_ok pl r (fi_file x) (fi_titleEl x) s Hs) Hrest)
      as (added & Hadded & Hicons).
    destruct (add_step pl r (fi_file x) (fi_titleEl x) s Hs) as [_ Hnodes].
    destruct (Hnodes c Hc) as [Heq|Heq]; rewrite Hadded, Heq.
    + now exists added.
    + eexists. rewrite <- app_assoc. split; [reflexivity|].
      constructor; [reflexivity|exact Hicons].
Qed.

Lemma add_all_one_icon pl r items (st : State) :
  one_icon_per_element (iconNodes st) ->
  one_icon_per_element (iconNodes (add_all pl r items st)).
Proof.
  revert st. induction items as [|fi items IH]; intros st Hnd; [exact Hnd|].
  apply IH. now apply add_one_icon.
Qed.

Lemma titled_removable (pl : Plugin) (r : CustomRule) (f : TAbstractFile)
    (c : HTMLElement) :
  data_path c = Some (path f) -> path f <> "" ->
  applicable pl r (path f) = true ->
  removable pl r {| icon_attr := icon r; parentElement := Some c |} = true.
Proof.
  intros Hdp Hne Happ.
  unfold removable, still_matches, owner, usable_data_path. simpl.
  rewrite String.eqb_refl, Hdp. apply String.eqb_neq in Hne. rewrite Hne.
  unfold applicable in Happ.
  destruct (getAbstractFileByPath pl (path f)); [|discriminate].
  simpl. rewrite andb_comm. exact Happ.
Qed.

(** X10.  [removeFromAllFiles] undoes [addToAllFiles]: for a rule whose
    icon identifier the selector reads as it is written, on a document in
    which no element holds two icon nodes, when the title element of every
    registered file item carries the item's path, which is not empty, in
    [data-path], applying the rule to all files and then removing it leaves
    the icon nodes of the document as removing it right away would have left
    them. *)
Theorem removeFromAllFiles_undoes_addToAllFiles
    (pl : Plugin) (r : CustomRule) (st : State) :
  selector_safe (icon r) = true ->
  cache_ok st ->
  one_icon_per_element (iconNodes st) ->
  Forall (fun fi => exists c, fi_titleEl fi = Some c /\
                              data_path c = Some (path (fi_file fi)) /\
                              path (fi_file fi) <> "")
         (concat (fileExplorers pl)) ->
  iconNodes (snd (removeFromAllFiles pl r (snd (addToAllFiles pl r st))))
    = iconNodes (snd (removeFromAllFiles pl r st)).
Proof.
  intros Hsafe Hok Hnd Hall. rewrite (addToAllFiles_run pl r st Hok). cbn [snd].
  destruct (collect_run pl r (concat (fileExplorers pl)) st Hok) as (_ & Hok0 & Hn0 & _).
  fold (getFileItems pl r st) in Hok0, Hn0.
  assert (Hnd0 : one_icon_per_element (iconNodes (snd (getFileItems pl r st))))
    by now rewrite Hn0.
  rewrite (removeFromAllFiles_nodes pl r _ Hsafe (add_all_cache_ok pl r _ _ Hok0)
             (add_all_one_icon pl r _ _ Hnd0)).
  rewrite (removeFromAllFiles_nodes pl r st Hsafe Hok Hnd), <- Hn0.
  assert (Hall' : Forall (fun fi => applicable pl r (path (fi_file fi)) = true /\
                                    exists c, fi_titleEl fi = Some c /\
                                              data_path c = Some (path (fi_file fi)) /\
                                              path (fi_file fi) <> "")
                    (List.filter (fun fi => applicable pl r (path (fi_file fi)))
                       (concat (fileExplorers pl)))).
  { apply Forall_forall. intros fi Hfi. apply list_elem_of_In, filter_In in Hfi.
    destruct Hfi as [Hfi Happ]. split; [exact Happ|]. apply list_elem_of_In in Hfi.
    now apply (proj1 (Forall_forall _ _) Hall fi). }
  clear Hnd0 Hn0. revert Hok0 Hall'. generalize (snd (getFileItems pl r st)).
  generalize (List.filter (fun fi => applicable pl r (path (fi_file fi)))
                (concat (fileExplorers pl))).
  intros items. induction items as [|x items IH]; intros s Hs Hitems; [reflexivity|].
  rewrite add_all_cons.
  inversion Hitems as [|? ? (Happ & c & Hc & Hdp & Hne) Hrest]; subst.
  rewrite (IH _ (add_cache_ok pl r (fi_file x) (fi_titleEl x) s Hs) Hrest).
  destruct (add_step pl r (fi_file x) (fi_titleEl x) s Hs) as [_ Hnodes].
  destruct (Hnodes c Hc) as [Heq|Heq]; rewrite Heq; [reflexivity|].
  rewrite List.filter_app. simpl.
  rewrite (titled_removable pl r (fi_file x) c Hdp Hne Happ). simpl. apply app_nil_r.
Qed.

Lemma probe_probed (pl : Plugin) (r : CustomRule) (p : string) (st : State) :
  probe pl r p st = if probed pl r p then ensure (rule r) st else st.
Proof.
  unfold probe, probed. destruct (getAbstractFileByPath pl p) as [af|]; reflexivity.
Qed.

Lemma ensure_idem (src : string) (st : State) :
  is_Some (regexCache st !! src) -> ensure src st = st.
Proof. intros Hhas. unfold ensure. now rewrite bool_decide_eq_true_2. Qed.


Lemma add_all_entries pl r items (st : State) src entry :
  regexCache st !! src = Some entry ->
  regexCache (add_all pl r items st) !! src = Some entry.
Proof.
  revert st. induction items as [|fi items IH]; intros st Hentry; [exact Hentry|].
  rewrite add_all_cons. apply IH.
  now apply (step_ok_run [CallAdd pl r (fi_file fi) (fi_titleEl fi)] st).
Qed.

Lemma collect_cons_state pl r fi items (st : State) :
  cache_ok st ->
  snd (collect pl r (fi :: items) st)
    = snd (collect pl r items (probe pl r (path (fi_file fi)) st)).
Proof.
  intros Hok. cbn [collect]. erewrite bind_ok; [|now apply isApplicable_run].
  unfold bind.
  destruct (collect pl r items (probe pl r (path (fi_file fi)) st)) as [[more|e] st'];
    reflexivity.
Qed.

Lemma collect_entries pl r items (st : State) src entry :
  cache_ok st ->
  regexCache st !! src = Some entry ->
  regexCache (snd (collect pl r items st)) !! src = Some entry.
Proof.
  revert st. induction items as [|fi items IH]; intros st Hok Hentry; [exact Hentry|].
  rewrite (collect_cons_state pl r fi items st Hok).
  apply IH; [now apply probe_cache_ok|].
  rewrite probe_probed. destruct (probed pl r (path (fi_file fi))); [|exact Hentry].
  now apply (step_ok_ensure (rule r) st).
Qed.

(** Once a file item has reached [doesMatchPath], the pattern cache
    holds the rule's entry. *)
Lemma collect_entry pl r items (st : State) :
  cache_ok st ->
  existsb (fun fi => probed pl r (path (fi_file fi))) items = true ->
  regexCache (snd (collect pl r items st)) !! rule r = Some (compile (rule r)).
Proof.
  revert st. induction items as [|fi items IH]; intros st Hok Hex; [discriminate|].
  rewrite (collect_cons_state pl r fi items st Hok), probe_probed.
  cbn [existsb] in Hex. destruct (probed pl r (path (fi_file fi))).
  - apply collect_entries; [now apply ensure_cache_ok|now apply ensure_lookup].
  - now apply IH.
Qed.

Lemma collect_fixed pl r items (st : State) :
  cache_ok st ->
  (existsb (fun fi => probed pl r (path (fi_file fi))) items = true ->
   is_Some (regexCache st !! rule r)) ->
  collect pl r items st
    = (Ok (List.filter (fun fi => applicable pl r (path (fi_file fi))) items), st).
Proof.
  intros Hok. induction items as [|fi items IH]; intros Hhas; [reflexivity|].
  cbn [collect]. erewrite bind_ok; [|now apply isApplicable_run].
  assert (Hprobe : probe pl r (path (fi_file fi)) st = st).
  { rewrite probe_probed. destruct (probed pl r (path (fi_file fi))) eqn:Hp; [|reflexivity].
    apply ensure_idem, Hhas. cbn [existsb]. now rewrite Hp. }
  rewrite Hprobe. erewrite bind_ok; [|apply IH].
  - cbn [List.filter]. now destruct (applicable pl r (path (fi_file fi))).
  - intros Hex. apply Hhas. cbn [existsb]. rewrite Hex. apply orb_true_r.
Qed.

(** X24.  [addToAllFiles] is idempotent: when every registered file item
    has a title element, a second run right after the first returns without
    raising and leaves the whole store, the document, the Icon Assignment
    Cache, the render requests and the pattern cache, exactly as the first
    run left it. *)
Theorem addToAllFiles_idempotent (pl : Plugin) (r : CustomRule) (st : State) :
  cache_ok st ->
  Forall (fun fi => is_Some (fi_titleEl fi)) (concat (fileExplorers pl)) ->
  addToAllFiles pl r (snd (addToAllFiles pl r st))
    = (Ok tt, snd (addToAllFiles pl r st)).
Proof.
  intros Hok Hall. rewrite (addToAllFiles_run pl r st Hok). cbn [snd].
  destruct (collect_run pl r (concat (fileExplorers pl)) st Hok) as (_ & Hok0 & _).
  fold (getFileItems pl r st) in Hok0.
  set (all := concat (fileExplorers pl)) in *.
  set (items := List.filter (fun fi => applicable pl r (path (fi_file fi))) all).
  set (s0 := snd (getFileItems pl r st)) in *.
  set (s1 := add_all pl r items s0).
  assert (Hok1 : cache_ok s1) by now apply add_all_cache_ok.
  assert (Hcollect : collect pl r all s1 = (Ok items, s1)).
  { apply collect_fixed; [exact Hok1|]. intros Hex. eexists.
    apply add_all_entries. now apply collect_entry. }
  unfold addToAllFiles, getFileItems. fold all.
  erewrite bind_ok; [|exact Hcollect].
  assert (Hadd : forall fi, In fi items ->
            add pl r (fi_file fi) (fi_titleEl fi) s1 = (Ok false, s1)).
  { intros fi Hfi. pose proof Hfi as Hfi'. apply filter_In in Hfi'.
    destruct Hfi' as [Hin Happ].
    destruct (proj1 (Forall_forall _ _) Hall fi (proj2 (list_elem_of_In _ _) Hin))
      as [c Hc].
    rewrite (add_run pl r (fi_file fi) (fi_titleEl fi) s1 Hok1), Hc, Happ.
    destruct (existsb (has_parent c) (iconNodes s1)) eqn:Hcar; [reflexivity|].
    destruct (truthy (getIconNameFromPath pl (path (fi_file fi)))) eqn:Ht;
      [reflexivity|].
    pose proof (add_all_covers pl r items s0 fi c Hok0 Hfi Hc Happ Ht) as Hcov.
    fold s1 in Hcov. congruence. }
  clear Hcollect. revert Hadd. generalize items as l.
  induction l as [|fi l IH]; intros Hadd; [reflexivity|].
  cbn [for_each]. erewrite bind_ok;
    [|erewrite bind_ok; [reflexivity|apply Hadd; now left]].
  apply IH. intros x Hx. apply Hadd. now right.
Qed.

End WithEngine.

Import SampleVault.

Lemma cache_ok_document_store : cache_ok document_store.
Proof. intros src entry. simpl. rewrite lookup_empty. discriminate. Qed.

Lemma one_icon_document_store : one_icon_per_element (iconNodes document_store).
Proof. apply (bool_decide_unpack _). vm_compute. exact I. Qed.

Lemma one_icon_init : one_icon_per_element (iconNodes init).
Proof. apply (bool_decide_unpack _). vm_compute. exact I. Qed.

Lemma getFileItems_filter_witness :
  cache_ok init /\
  fst (getFileItems plugin star_rule init)
    = Ok (List.filter (fun fi => applicable plugin star_rule (path (fi_file fi)))
            (concat (fileExplorers plugin))).
Proof.
  split; [apply cache_ok_init|].
  destruct (getFileItems_filter plugin star_rule init cache_ok_init) as (Hres & _).
  exact Hres.
Defined.

Lemma doesMatchPath_ignores_directory_witness :
  useFilePath star_rule = false /\
  doesMatchPath star_rule ("notes" ++ "/" ++ "todo.md") init
    = doesMatchPath star_rule "todo.md" init.
Proof.
  split; [reflexivity|].
  destruct (doesMatchPath_ignores_directory star_rule "notes" "todo.md" init eq_refl)
    as (_ & Hsame).
  exact Hsame.
Defined.

Lemma doesMatchPath_top_level_witness :
  rule broken_rule = rule broken_folder_rule /\
  JS.has_char "/" "a(b" = false /\
  doesMatchPath broken_rule "a(b" init = doesMatchPath broken_folder_rule "a(b" init.
Proof.
  split; [reflexivity|]. split; [reflexivity|].
  destruct (doesMatchPath_top_level broken_rule broken_folder_rule "a(b" init
              eq_refl eq_refl) as (_ & Hsame).
  exact Hsame.
Defined.


Lemma removeFromAllFiles_undoes_add_witness :
  selector_safe (icon star_rule) = true /\
  cache_ok init /\
  one_icon_per_element (iconNodes init) /\
  data_path (title 2 todo_md) = Some (path todo_md) /\
  path todo_md <> "" /\
  fst (add plugin star_rule todo_md (Some (title 2 todo_md)) init) = Ok true /\
  iconNodes (snd (removeFromAllFiles plugin star_rule
                    (snd (add plugin star_rule todo_md (Some (title 2 todo_md)) init))))
    = iconNodes (snd (removeFromAllFiles plugin star_rule init)).
Proof.
  assert (Hpath : path todo_md <> "") by discriminate.
  assert (Hadd : fst (add plugin star_rule todo_md (Some (title 2 todo_md)) init) = Ok true)
    by (vm_compute; reflexivity).
  split; [reflexivity|]. split; [apply cache_ok_init|]. split; [apply one_icon_init|].
  split; [reflexivity|]. split; [exact Hpath|]. split; [exact Hadd|].
  destruct (removeFromAllFiles_undoes_add plugin star_rule todo_md (title 2 todo_md) init
              eq_refl cache_ok_init one_icon_init eq_refl Hpath Hadd) as (Hnodes & _).
  exact Hnodes.
Defined.

Lemma removeFromAllFiles_invalidates_witness :
  selector_safe (icon star_rule) = true /\
  cache_ok document_store /\
  iconCache (snd (removeFromAllFiles plugin star_rule document_store)) !! "notes/todo.md"
    = None /\
  iconCache (snd (removeFromAllFiles plugin star_rule document_store)) !! "notes"
    = iconCache document_store !! "notes".
Proof.
  split; [reflexivity|]. split; [apply cache_ok_document_store|].
  destruct (removeFromAllFiles_invalidates plugin star_rule document_store "notes/todo.md"
              eq_refl cache_ok_document_store) as (Hgone & _).
  destruct (removeFromAllFiles_invalidates plugin star_rule document_store "notes"
              eq_refl cache_ok_document_store) as (_ & Hkept).
  split.
  - apply Hgone.
    exists {| icon_attr := "star"; parentElement := Some (title 2 todo_md) |}.
    split; [now left|]. split; vm_compute; reflexivity.
  - apply Hkept. intros n Hin Hrem Hown. simpl in Hin.
    repeat (destruct Hin as [<-|Hin]; [vm_compute in Hrem, Hown; congruence|]).
    exact Hin.
Defined.

Lemma removeFromAllFiles_idempotent_witness :
  selector_safe (icon star_rule) = true /\
  cache_ok document_store /\
  one_icon_per_element (iconNodes document_store) /\
  iconNodes (snd (removeFromAllFiles plugin star_rule
                    (snd (removeFromAllFiles plugin star_rule document_store))))
    = iconNodes (snd (removeFromAllFiles plugin star_rule document_store)).
Proof.
  split; [reflexivity|].
  split; [apply cache_ok_document_store|]. split; [apply one_icon_document_store|].
  destruct (removeFromAllFiles_idempotent plugin star_rule document_store
              eq_refl cache_ok_document_store one_icon_document_store) as (_ & Hnodes & _).
  exact Hnodes.
Defined.

Lemma getSortedRules_idempotent_witness :
  heap unsorted_store !! settings_rules plugin
    = Some [broken_folder_rule; star_rule; broken_rule] /\
  getSortedRules plugin (snd (getSortedRules plugin unsorted_store))
    = (Ok (settings_rules plugin), snd (getSortedRules plugin unsorted_store)).
Proof.
  split; [reflexivity|].
  apply (getSortedRules_idempotent plugin unsorted_store
           [broken_folder_rule; star_rule; broken_rule]).
  reflexivity.
Defined.

Lemma addToAllFiles_covers_witness :
  cache_ok init /\
  In {| fi_file := todo_md; fi_titleEl := Some (title 2 todo_md) |}
     (concat (fileExplorers plugin)) /\
  applicable plugin star_rule (path todo_md) = true /\
  truthy (getIconNameFromPath plugin (path todo_md)) = false /\
  existsb (has_parent (title 2 todo_md))
    (iconNodes (snd (addToAllFiles plugin star_rule init))) = true.
Proof.
  assert (Hin : In {| fi_file := todo_md; fi_titleEl := Some (title 2 todo_md) |}
                   (concat (fileExplorers plugin)))
    by (simpl; right; left; reflexivity).
  assert (Happ : applicable plugin star_rule (path todo_md) = true)
    by (vm_compute; reflexivity).
  assert (Ht : truthy (getIconNameFromPath plugin (path todo_md)) = false)
    by (vm_compute; reflexivity).
  split; [apply cache_ok_init|]. split; [exact Hin|]. split; [exact Happ|].
  split; [exact Ht|].
  destruct (addToAllFiles_covers plugin star_rule init
              {| fi_file := todo_md; fi_titleEl := Some (title 2 todo_md) |}
              (title 2 todo_md) cache_ok_init Hin eq_refl Happ Ht) as (_ & Hnode).
  exact Hnode.
Defined.

Lemma addToAllFiles_cache_witness :
  cache_ok init /\
  (iconCache (snd (addToAllFiles plugin star_rule init)) !! "notes/todo.md"
     = iconCache init !! "notes/todo.md" \/
   iconCache (snd (addToAllFiles plugin star_rule init)) !! "notes/todo.md"
     = Some (assignment_of star_rule) /\
   applicable plugin star_rule "notes/todo.md" = true /\
   truthy (getIconNameFromPath plugin "notes/todo.md") = false).
Proof.
  split; [apply cache_ok_init|].
  apply (addToAllFiles_cache plugin star_rule init "notes/todo.md" cache_ok_init).
Defined.

Lemma addToAllFiles_appends_witness :
  cache_ok document_store /\
  Forall (fun fi => is_Some (fi_titleEl fi)) (concat (fileExplorers plugin)) /\
  exists added,
    iconNodes (snd (addToAllFiles plugin broken_rule document_store))
      = (iconNodes document_store ++ added)%list /\
    Forall (fun n => icon_attr n = icon broken_rule) added.
Proof.
  assert (Hall : Forall (fun fi => is_Some (fi_titleEl fi))
                   (concat (fileExplorers plugin)))
    by (repeat constructor; eexists; reflexivity).
  split; [apply cache_ok_document_store|]. split; [exact Hall|].
  apply (addToAllFiles_appends plugin broken_rule document_store
           cache_ok_document_store Hall).
Defined.

Lemma removeFromAllFiles_undoes_addToAllFiles_witness :
  selector_safe (icon star_rule) = true /\
  cache_ok document_store /\
  one_icon_per_element (iconNodes document_store) /\
  Forall (fun fi => exists c, fi_titleEl fi = Some c /\
                              data_path c = Some (path (fi_file fi)) /\
                              path (fi_file fi) <> "")
         (concat (fileExplorers plugin)) /\
  iconNodes (snd (removeFromAllFiles plugin star_rule
                    (snd (addToAllFiles plugin star_rule document_store))))
    = iconNodes (snd (removeFromAllFiles plugin star_rule document_store)).
Proof.
  assert (Hall : Forall (fun fi => exists c, fi_titleEl fi = Some c /\
                                             data_path c = Some (path (fi_file fi)) /\
                                             path (fi_file fi) <> "")
                   (concat (fileExplorers plugin))).
  { repeat constructor; eexists; (split; [reflexivity|]); (split; [reflexivity|]);
      discriminate. }
  split; [reflexivity|].
  split; [apply cache_ok_document_store|]. split; [apply one_icon_document_store|].
  split; [exact Hall|].
  apply (removeFromAllFiles_undoes_addToAllFiles plugin star_rule document_store
           eq_refl cache_ok_document_store one_icon_document_store Hall).
Defined.

Lemma addToAllFiles_idempotent_witness :
  cache_ok document_store /\
  Forall (fun fi => is_Some (fi_titleEl fi)) (concat (fileExplorers plugin)) /\
  addToAllFiles plugin star_rule (snd (addToAllFiles plugin star_rule document_store))
    = (Ok tt, snd (addToAllFiles plugin star_rule document_store)).
Proof.
  assert (Hall : Forall (fun fi => is_Some (fi_titleEl fi))
                   (concat (fileExplorers plugin)))
    by (repeat constructor; eexists; reflexivity).
  split; [apply cache_ok_document_store|]. split; [exact Hall|].
  apply (addToAllFiles_idempotent plugin star_rule document_store
           cache_ok_document_store Hall).
Defined.

(** On the sample vault the star rule, applied to all files of an empty
    document, puts one icon node, under the title of [notes/todo.md], and
    one entry into the Icon Assignment Cache; the broken rule, which matches
    by containment and matches none of the paths, adds nothing. *)
Example addToAllFiles_sample :
  fst (getFileItems plugin star_rule init)
    = Ok [ {| fi_file := todo_md; fi_titleEl := Some (title 2 todo_md) |} ] /\
  iconNodes (snd (addToAllFiles plugin star_rule init))
    = [ {| icon_attr := "star"; parentElement := Some (title 2 todo_md) |} ] /\
  iconCache (snd (addToAllFiles plugin star_rule init)) !! "notes/todo.md"
    = Some (assignment_of star_rule) /\
  iconCache (snd (addToAllFiles plugin star_rule init)) !! "notes/todo.txt" = None /\
  iconNodes (snd (addToAllFiles plugin broken_rule document_store))
    = iconNodes document_store.
Proof. repeat split; vm_compute; reflexivity. Qed.

End CustomRuleMore.


(** ** More on the outline plugin *)

Module OutlineMore.
Import Outline OutlineFacts.

Lemma for_each_ext {S A} (xs : list A) (body body' : A -> M S unit) (st : S) :
  (forall x s, body x s = body' x s) ->
  for_each xs body st = for_each xs body' st.
Proof.
  intros Hb. revert st. induction xs as [|x xs IH]; intros st; [reflexivity|].
  simpl. unfold bind. rewrite Hb.
  destruct (body' x st) as [[[]|e] st']; [apply IH|reflexivity].
Qed.

Lemma for_each_app {S A} (xs ys : list A) (body : A -> M S unit) (st : S) :
  for_each (xs ++ ys) body st
    = bind (for_each xs body) (fun _ => for_each ys body) st.
Proof.
  revert st. induction xs as [|x xs IH]; intros st; [reflexivity|].
  simpl. unfold bind.
  destruct (body x st) as [[[]|e] st']; [|reflexivity].
  rewrite IH. reflexivity.
Qed.

Lemma for_each_flat_map {S A B} (f : A -> list B) (xs : list A)
    (body : B -> M S unit) (st : S) :
  for_each (List.flat_map f xs) body st
    = for_each xs (fun x => for_each (f x) body) st.
Proof.
  revert st. induction xs as [|x xs IH]; intros st; [reflexivity|].
  simpl. rewrite for_each_app. unfold bind.
  destruct (for_each (f x) body st) as [[[]|e] st']; [apply IH|reflexivity].
Qed.

Lemma for_each_one {S A} (x : A) (body : A -> M S unit) (st : S) :
  for_each [x] body st = body x st.
Proof.
  simpl. unfold bind, ret. destruct (body x st) as [[[]|e] st']; reflexivity.
Qed.

Section WithHost.
Context `{Host}.
Variable env : Env.

(** *** The mutation callback *)

(** With the outline core plugin enabled, the callback is one loop of
    the label scan over the tree items that were added. *)
Lemma callback_enabled (batch : list MutationRecord) (st : State) :
  enabled st = true ->
  callback env batch st
    = for_each (added_items batch)
        (fun item => processTreeItemInner env (querySelector item TREE_ITEM_INNER)) st.
Proof.
  intros Hen. unfold callback, added_items.
  erewrite bind_ok; [|reflexivity]. rewrite Hen. cbn [negb].
  rewrite for_each_flat_map. apply for_each_ext. intros mutation s.
  destruct (type mutation); [|reflexivity|reflexivity].
  destruct (addedNodes mutation) as [|node nodes] eqn:Hnodes; [reflexivity|].
  rewrite for_each_flat_map. apply for_each_ext. intros n s'.
  destruct n as [d|e ch]; [reflexivity|].
  destruct (has_class TREE_ITEM_CLASS (Element e ch)); [|reflexivity].
  now rewrite for_each_one.
Qed.

(** Records that report no added element leave the store as it is. *)
Lemma added_items_inert (batch : list MutationRecord) :
  Forall (fun mutation => adds_element mutation = false) batch ->
  added_items batch = [].
Proof.
  induction 1 as [|mutation batch Hm _ IH]; [reflexivity|].
  unfold added_items in *. cbn [List.flat_map]. rewrite IH, app_nil_r.
  unfold adds_element in Hm. destruct (type mutation); [|reflexivity|reflexivity].
  induction (addedNodes mutation) as [|node nodes IHn]; [reflexivity|].
  simpl in Hm. destruct node as [d|e ch]; [|discriminate].
  simpl. now apply IHn.
Qed.

(** *** The label scan *)

Lemma getIconShortcodeRegex_effect (st : State) :
  exists st',
    getIconShortcodeRegex env st = (Ok (shortcode_regex env st), st') /\
    scanned st' = scanned st /\ writes st' = writes st /\
    nav_item_size env st' = nav_item_size env st.
Proof.
  unfold getIconShortcodeRegex, shortcode_regex, bind, gets, modify, ret. simpl.
  destruct (cachedIconShortcodeRegex st); eexists; (split; [reflexivity|]); auto.
Qed.

Lemma scan_code_effect el idLen code l (st : State) :
  exists l' st',
    scan_code env el idLen code l st = (Ok l', st') /\
    html l' = replace_code idLen (nav_item_size env st) (html l) code /\
    nav_item_size env st' = nav_item_size env st /\
    scanned st' = scanned st /\
    writes st'
      = ((if icon_found idLen code then [(el_id el, html l')] else []) ++ writes st)%list.
Proof.
  unfold scan_code, replace_code, icon_found, icon_name.
  destruct (getIconByName _) as [iconObject|]; [|eexists _, _; split; [reflexivity|]; auto].
  pose proof (getNavItemSize_eq env st) as Hsz. unfold nav_item_size.
  destruct (cachedNavItemSize st) as [size|] eqn:Hsize; cbv zeta in Hsz;
    (erewrite bind_ok; [|exact Hsz]); (erewrite bind_ok; [|reflexivity]);
    eexists _, _; (split; [reflexivity|]); simpl; rewrite ?Hsize; auto.
Qed.

Lemma scan_codes_effect el idLen codes l (st : State) :
  exists l' st',
    scan_codes env el idLen codes l st = (Ok l', st') /\
    html l' = fold_left (replace_code idLen (nav_item_size env st)) codes (html l) /\
    nav_item_size env st' = nav_item_size env st /\
    scanned st' = scanned st /\
    exists new,
      writes st' = (new ++ writes st)%list /\
      List.length new = List.length (List.filter (icon_found idLen) codes) /\
      Forall (fun w => fst w = el_id el) new /\
      List.hd (el_id el, html l) new = (el_id el, html l').
Proof.
  revert l st. induction codes as [|code codes IH]; intros l st.
  - exists l, st. split; [reflexivity|]. split; [reflexivity|].
    split; [reflexivity|]. split; [reflexivity|].
    exists []. auto.
  - destruct (scan_code_effect el idLen code l st)
      as (l1 & st1 & Hrun1 & Hhtml1 & Hsize1 & Hsc1 & Hw1).
    destruct (IH l1 st1) as (l' & st' & Hrun & Hhtml & Hsize & Hsc & new & Hw & Hlen & Hall & Hhd).
    exists l', st'. cbn [scan_codes]. erewrite bind_ok; [|exact Hrun1].
    split; [exact Hrun|]. cbn [fold_left]. rewrite <- Hhtml1, <- Hsize1.
    split; [exact Hhtml|]. split; [congruence|]. split; [congruence|].
    exists (new ++ (if icon_found idLen code then [(el_id el, html l1)] else []))%list.
    rewrite Hw, Hw1, <- app_assoc. split; [reflexivity|].
    cbn [List.filter]. rewrite length_app.
    destruct (icon_found idLen code) eqn:Hfound; simpl.
    + split; [lia|]. split.
      * apply Forall_app. split; [exact Hall|]. now constructor.
      * destruct new as [|w new]; [simpl in *; congruence|exact Hhd].
    + rewrite app_nil_r. split; [lia|]. split; [exact Hall|].
      unfold replace_code in Hhtml1. unfold icon_found in Hfound.
      destruct (getIconByName _); [discriminate|].
      destruct new as [|w new]; [simpl in *; congruence|exact Hhd].
Qed.

(** X11.  What the label scan makes of an element with a label: it
    does not raise, it records the element once, it assigns to the
    [innerHTML] of that element only, once for each shortcode of the label
    whose icon exists, and the last assignment leaves the element with its
    [innerHTML] after, shortcode after shortcode in the order of their
    positions, [replace] was applied to it with the shortcode and the icon's
    span for each shortcode whose icon exists: the first occurrence of the
    shortcode gives way to the span, in which [replace] expands [$$], [$&],
    [$`] and [$'] (a span without [$] is put in as it is,
    [JSFacts.substitution_plain]). *)
Theorem processTreeItemInner_rewrites
    (el : ElementData) (children : list Node) (st : State) :
  getText el <> "" ->
  exists st' new,
    processTreeItemInner env (Some (Element el children)) st = (Ok tt, st') /\
    scanned st' = el_id el :: scanned st /\
    writes st' = (new ++ writes st)%list /\
    List.length new
      = List.length
          (List.filter (icon_found (JS.length (iconIdentifier env)))
             (codes_of (shortcode_regex env st) (getText el))) /\
    Forall (fun w => fst w = el_id el) new /\
    List.hd (el_id el, innerHTML el) new
      = (el_id el,
         fold_left (replace_code (JS.length (iconIdentifier env)) (nav_item_size env st))
           (codes_of (shortcode_regex env st) (getText el)) (innerHTML el)).
Proof.
  intros Hlabel. unfold processTreeItemInner.
  erewrite bind_ok; [|reflexivity].
  apply String.eqb_neq in Hlabel. rewrite Hlabel.
  set (st0 := set_scanned (el_id el :: scanned st) st).
  destruct (getIconShortcodeRegex_effect st0) as (st1 & Hre & Hsc1 & Hw1 & Hsize1).
  erewrite bind_ok; [|exact Hre].
  destruct (scan_codes_effect el (JS.length (iconIdentifier env))
              (codes_of (shortcode_regex env st0) (getText el))
              {| text := getText el; trimmedLength := 0; html := innerHTML el |} st1)
    as (l' & st' & Hrun & Hhtml & _ & Hsc & new & Hw & Hlen & Hall & Hhd).
  erewrite bind_ok; [|exact Hrun].
  exists st', new. split; [reflexivity|].
  split; [now rewrite Hsc, Hsc1|]. split; [now rewrite Hw, Hw1|].
  split; [exact Hlen|]. split; [exact Hall|].
  cbn [html] in Hhd, Hhtml. rewrite Hhd, Hhtml, Hsize1. reflexivity.
Qed.

Lemma processTreeItemInner_scanned (inner : option Node) (st : State) :
  exists st',
    processTreeItemInner env inner st = (Ok tt, st') /\
    scanned st'
      = (match inner with
         | Some (Element e _) => [el_id e]
         | _ => []
         end ++ scanned st)%list.
Proof.
  destruct inner as [[d|el ch]|]; try (exists st; split; reflexivity).
  destruct (String.eqb (getText el) "") eqn:Hlabel.
  - unfold processTreeItemInner. erewrite bind_ok; [|reflexivity]. rewrite Hlabel.
    eexists. split; reflexivity.
  - unfold processTreeItemInner. erewrite bind_ok; [|reflexivity]. rewrite Hlabel.
    set (st0 := set_scanned (el_id el :: scanned st) st).
    destruct (getIconShortcodeRegex_effect st0) as (st1 & Hre & Hsc1 & _).
    erewrite bind_ok; [|exact Hre].
    destruct (scan_codes_effect el (JS.length (iconIdentifier env))
                (codes_of (shortcode_regex env st0) (getText el))
                {| text := getText el; trimmedLength := 0; html := innerHTML el |} st1)
      as (l' & st' & Hrun & _ & _ & Hsc & _).
    erewrite bind_ok; [|exact Hrun].
    exists st'. split; [reflexivity|]. now rewrite Hsc, Hsc1.
Qed.

Lemma scan_items_scanned (items : list Node) (st : State) :
  exists st',
    for_each items
      (fun item => processTreeItemInner env (querySelector item TREE_ITEM_INNER)) st
      = (Ok tt, st') /\
    scanned st' = (rev (inner_ids items) ++ scanned st)%list.
Proof.
  revert st. induction items as [|item items IH]; intros st.
  - exists st. split; reflexivity.
  - destruct (processTreeItemInner_scanned (querySelector item TREE_ITEM_INNER) st)
      as (st1 & Hrun1 & Hsc1).
    destruct (IH st1) as (st' & Hrun & Hsc).
    exists st'. cbn [for_each]. erewrite bind_ok; [|exact Hrun1].
    split; [exact Hrun|]. rewrite Hsc, Hsc1.
    unfold inner_ids. cbn [List.flat_map]. rewrite rev_app_distr, <- app_assoc.
    f_equal. destruct (querySelector item TREE_ITEM_INNER) as [[d|e ch]|]; reflexivity.
Qed.

Lemma scan_items_wiring (items : list Node) (st : State) :
  observer (snd (for_each items
                   (fun item =>
                      processTreeItemInner env (querySelector item TREE_ITEM_INNER)) st))
    = observer st /\
  attached (snd (for_each items
                   (fun item =>
                      processTreeItemInner env (querySelector item TREE_ITEM_INNER)) st))
    = attached st.
Proof.
  revert st. induction items as [|item items IH]; intros st; [split; reflexivity|].
  destruct (processTreeItemInner_scanned (querySelector item TREE_ITEM_INNER) st)
    as (st1 & Hrun1 & _).
  destruct (label_step_processTreeItemInner env (querySelector item TREE_ITEM_INNER) st)
    as [(_ & Hobs & _ & _ & Hatt & _) _].
  rewrite Hrun1 in Hobs, Hatt. cbn [snd] in Hobs, Hatt.
  cbn [for_each]. erewrite bind_ok; [|exact Hrun1].
  destruct (IH st1) as (Hobs' & Hatt'). split; congruence.
Qed.

(** X12.  With the outline core plugin enabled, the mutation callback
    does not raise and hands to the label scan exactly the inner elements of
    the tree items that the [childList] records of the batch report as
    added, an added element that is a tree item itself or else the tree
    items below it, in the order of the records and of their nodes; it
    leaves the plugin's observer and the attached observers as they are. *)
Theorem callback_scans_added_items (batch : list MutationRecord) (st : State) :
  enabled st = true ->
  fst (callback env batch st) = Ok tt /\
  scanned (snd (callback env batch st))
    = (rev (inner_ids (added_items batch)) ++ scanned st)%list /\
  observer (snd (callback env batch st)) = observer st /\
  attached (snd (callback env batch st)) = attached st.
Proof.
  intros Hen. rewrite (callback_enabled batch st Hen).
  destruct (scan_items_scanned (added_items batch) st) as (st' & Hrun & Hsc).
  destruct (scan_items_wiring (added_items batch) st) as (Hobs & Hatt).
  rewrite Hrun in *. split; [reflexivity|]. split; [exact Hsc|].
  split; [exact Hobs|exact Hatt].
Qed.

(** X13.  With the outline core plugin enabled, a batch whose records
    are no [childList] records or add no element (attribute changes, text
    changes, removals, added text nodes) leaves the store exactly as it is:
    no label is scanned and no cache is filled. *)
Theorem callback_ignores_other_records (batch : list MutationRecord) (st : State) :
  enabled st = true ->
  Forall (fun mutation => adds_element mutation = false) batch ->
  callback env batch st = (Ok tt, st).
Proof.
  intros Hen Hbatch. rewrite (callback_enabled batch st Hen).
  now rewrite (added_items_inert batch Hbatch).
Qed.

(** X14.  An added element that is a tree item itself is scanned for its
    own inner element only: the tree items below it are not visited, while
    the scan of a whole region, as the load handler runs it, visits every
    tree item below the region. *)
Theorem callback_skips_nested_items
    (e : ElementData) (children : list Node) (st : State) :
  enabled st = true ->
  has_class TREE_ITEM_CLASS (Element e children) = true ->
  scanned (snd (callback env [ {| type := childList;
                                  addedNodes := [Element e children] |} ] st))
    = (inner_ids [Element e children] ++ scanned st)%list /\
  (List.length (inner_ids [Element e children]) <= 1)%nat /\
  scanned (snd (processTreeItems env (Element e children) st))
    = (rev (inner_ids (querySelectorAll (Element e children) TREE_ITEM_CLASS))
       ++ scanned st)%list.
Proof.
  intros Hen Hcls.
  destruct (scan_items_scanned (added_items [ {| type := childList;
                                                 addedNodes := [Element e children] |} ]) st)
    as (st' & Hrun & Hsc).
  rewrite (callback_enabled _ st Hen), Hrun. cbn [snd]. rewrite Hsc.
  unfold added_items. cbn [List.flat_map type addedNodes]. rewrite Hcls. cbn [app].
  assert (Hone : (List.length (inner_ids [Element e children]) <= 1)%nat).
  { unfold inner_ids. cbn [List.flat_map]. rewrite app_nil_r.
    destruct (querySelector _ _) as [[d|e' ch']|]; simpl; lia. }
  split; [|split; [exact Hone|]].
  - f_equal. unfold inner_ids in *. cbn [List.flat_map] in *. rewrite app_nil_r in *.
    destruct (querySelector _ _) as [[d|e' ch']|]; reflexivity.
  - unfold processTreeItems.
    destruct (scan_items_scanned (querySelectorAll (Element e children) TREE_ITEM_CLASS) st)
      as (st2 & Hrun2 & Hsc2).
    now rewrite Hrun2.
Qed.

(** X15.  The load handler with the outline leaf present, whether or
    not the outline core plugin is enabled: it does not raise, it scans every
    tree item below the leaf's container in document order, and then
    constructs one observer, keeps it as the plugin's observer and attaches
    it to the container beside the observers that were attached before. *)
Theorem onAllIconsLoaded_scans_and_watches (st : State) (lf : OutlineLeaf) :
  leaf st = Some lf ->
  fst (onAllIconsLoaded env st) = Ok tt /\
  scanned (snd (onAllIconsLoaded env st))
    = (rev (inner_ids (querySelectorAll (containerEl lf) TREE_ITEM_CLASS))
       ++ scanned st)%list /\
  observer (snd (onAllIconsLoaded env st)) = Some (created st) /\
  attached (snd (onAllIconsLoaded env st))
    = (attached st ++ [(created st, node_id (containerEl lf))])%list.
Proof.
  intros Hl.
  destruct (onAllIconsLoaded_wiring env st lf Hl) as (Hobs & _ & Hatt & _).
  split; [now rewrite (onAllIconsLoaded_eq env st lf Hl)|].
  split; [|split; [exact Hobs|exact Hatt]].
  rewrite (onAllIconsLoaded_eq env st lf Hl). cbv zeta. cbn [snd]. simpl.
  unfold processTreeItems.
  destruct (scan_items_scanned (querySelectorAll (containerEl lf) TREE_ITEM_CLASS)
              (set_cachedNavItemSize None (set_cachedIconShortcodeRegex None st)))
    as (st' & Hrun & Hsc).
  now rewrite Hrun.
Qed.

(** *** The caches *)

(** A filled cache stays as it is, and an empty one stays empty or is
    filled with what the current style and settings give. *)
Definition cache_step (st st' : State) : Prop :=
  match cachedNavItemSize st with
  | Some v => cachedNavItemSize st' = Some v
  | None =>
      cachedNavItemSize st' = None \/
      cachedNavItemSize st'
        = Some (JS.parseFloat
                  (JS.nullish (getPropertyValue (bodyStyle env) "--nav-item-size") "16"))
  end /\
  match cachedIconShortcodeRegex st with
  | Some re => cachedIconShortcodeRegex st' = Some re
  | None =>
      cachedIconShortcodeRegex st' = None \/
      cachedIconShortcodeRegex st' = Some (createIconShortcodeRegex (iconIdentifier env))
  end.

Lemma cache_step_same (st st' : State) :
  cachedNavItemSize st' = cachedNavItemSize st ->
  cachedIconShortcodeRegex st' = cachedIconShortcodeRegex st ->
  cache_step st st'.
Proof.
  intros Hs Hr. unfold cache_step. rewrite Hs, Hr.
  destruct (cachedNavItemSize st), (cachedIconShortcodeRegex st); auto.
Qed.

#[local] Instance cache_step_preorder : PreOrder cache_step.
Proof.
  split.
  - intros st. now apply cache_step_same.
  - intros a b c [Hs1 Hr1] [Hs2 Hr2]. unfold cache_step in *. split.
    + destruct (cachedNavItemSize a).
      * now rewrite Hs1 in Hs2.
      * destruct Hs1 as [Hs1|Hs1]; rewrite Hs1 in Hs2; auto.
    + destruct (cachedIconShortcodeRegex a).
      * now rewrite Hr1 in Hr2.
      * destruct Hr1 as [Hr1|Hr1]; rewrite Hr1 in Hr2; auto.
Qed.

Lemma cache_step_fresh (st st' : State) :
  fresh env st -> cache_step st st' -> fresh env st'.
Proof.
  intros [Hs Hr] [Hs' Hr']. unfold fresh. split.
  - destruct Hs as [Hs|Hs]; rewrite Hs in Hs'; auto.
  - destruct Hr as [Hr|Hr]; rewrite Hr in Hr'; auto.
Qed.

Ltac cache_same := apply respects_modify; intros ?; now apply cache_step_same.

Lemma cache_step_getNavItemSize : respects cache_step (getNavItemSize env).
Proof.
  intros st. rewrite getNavItemSize_eq.
  destruct (cachedNavItemSize st) eqn:Hs; cbn [snd]; [reflexivity|].
  unfold cache_step. rewrite Hs. simpl. split; [now right|].
  destruct (cachedIconShortcodeRegex st); auto.
Qed.

Lemma cache_step_getIconShortcodeRegex : respects cache_step (getIconShortcodeRegex env).
Proof.
  intros st. unfold getIconShortcodeRegex, bind, gets, modify, ret. simpl.
  destruct (cachedIconShortcodeRegex st) eqn:Hr; cbn [snd]; [reflexivity|].
  unfold cache_step. rewrite Hr. simpl. split; [|now right].
  destruct (cachedNavItemSize st); auto.
Qed.

Lemma cache_step_scan_codes el idLen codes l :
  respects cache_step (scan_codes env el idLen codes l).
Proof.
  revert l. induction codes as [|c codes IH]; intros l; simpl.
  - apply respects_ret; apply _.
  - apply respects_bind; [apply _| |intros l'; apply IH].
    unfold scan_code. destruct (getIconByName _); [|apply respects_ret; apply _].
    apply respects_bind; [apply _|apply cache_step_getNavItemSize|intros size].
    apply respects_bind; [apply _|cache_same|intros _; apply respects_ret; apply _].
Qed.

Lemma cache_step_processTreeItemInner inner :
  respects cache_step (processTreeItemInner env inner).
Proof.
  unfold processTreeItemInner.
  destruct inner as [[d|el ch]|]; try (apply respects_ret; apply _).
  apply respects_bind; [apply _|cache_same|intros _].
  destruct (String.eqb _ _); [apply respects_ret; apply _|].
  apply respects_bind; [apply _|apply cache_step_getIconShortcodeRegex|intros re].
  apply respects_bind;
    [apply _|apply cache_step_scan_codes|intros _; apply respects_ret; apply _].
Qed.

Lemma cache_step_callback batch : respects cache_step (callback env batch).
Proof.
  unfold callback. apply respects_bind; [apply _|apply respects_gets; apply _|].
  intros en. destruct (negb en).
  - apply respects_bind; [apply _| |intros _; cache_same].
    apply respects_bind; [apply _|apply respects_gets; apply _|].
    intros [ob|]; [cache_same|apply respects_ret; apply _].
  - apply respects_for_each; [apply _|]. intros mutation.
    destruct (type mutation); try (apply respects_ret; apply _).
    destruct (addedNodes mutation) as [|n ns] eqn:Hn; [apply respects_ret; apply _|].
    apply respects_for_each; [apply _|]. intros node.
    destruct node as [d|e ch]; [apply respects_ret; apply _|].
    destruct (has_class _ _).
    + apply cache_step_processTreeItemInner.
    + apply respects_for_each; [apply _|]. intros item.
      apply cache_step_processTreeItemInner.
Qed.

Lemma cache_step_register : respects cache_step (register env).
Proof.
  unfold register. apply respects_bind; [apply _|apply respects_gets; apply _|].
  intros en. destruct (negb en); [cache_same|].
  apply respects_bind; [apply _| |intros _].
  { apply respects_bind; [apply _|apply respects_gets; apply _|]. intros reg.
    apply respects_bind; [apply _|apply respects_gets; apply _|]. intros o.
    destruct reg, o; try (apply respects_ret; apply _).
    apply respects_bind; [apply _|cache_same|intros _]. cache_same. }
  apply respects_bind; [apply _|cache_same|intros _].
  destruct (requireApiVersion_1_7_2 env); [|cache_same].
  apply respects_bind; [apply _| |].
  - unfold get_leaf. apply respects_bind; [apply _|apply respects_gets; apply _|].
    intros [lf|]; [apply respects_ret; apply _|].
    apply respects_bind; [apply _|cache_same|].
    intros _. apply respects_ret; apply _.
  - intros [lf|]; [cache_same|apply respects_throw; apply _].
Qed.

Lemma cache_step_step (e : Event) (st : State) :
  e <> AllIconsLoaded -> cache_step st (step env e st).
Proof.
  intros He. destruct e; simpl; try congruence.
  - apply cache_step_register.
  - destruct (deferred st); [reflexivity|now apply cache_step_same].
  - destruct (is_attached o st); [apply cache_step_callback|reflexivity].
  - now apply cache_step_same.
  - now apply cache_step_same.
Qed.

Lemma cache_step_run (events : list Event) (st : State) :
  Forall (fun e => e <> AllIconsLoaded) events -> cache_step st (run env events st).
Proof.
  revert st. induction events as [|e events IH]; intros st Hall; simpl.
  - reflexivity.
  - inversion Hall as [|? ? He Hall']; subst.
    transitivity (step env e st); [apply cache_step_step, He|apply IH, Hall'].
Qed.

(** One run of the load handler leaves the caches fresh, whatever they
    held and whether or not the leaf is there. *)
Lemma onAllIconsLoaded_fresh (st : State) : fresh env (snd (onAllIconsLoaded env st)).
Proof.
  destruct (leaf st) as [lf|] eqn:Hl.
  - rewrite (onAllIconsLoaded_eq env st lf Hl). cbv zeta. cbn [snd].
    set (st0 := set_cachedNavItemSize None (set_cachedIconShortcodeRegex None st)).
    assert (Hfresh : fresh env (snd (processTreeItems env (containerEl lf) st0))).
    { apply (cache_step_fresh st0); [split; now left|].
      unfold processTreeItems. apply respects_for_each; [apply _|].
      intros item. apply cache_step_processTreeItemInner. }
    exact Hfresh.
  - unfold onAllIconsLoaded, leaf_containerEl, get_leaf, bind, gets, modify, ret, throw.
    simpl. rewrite Hl. simpl. split; now left.
Qed.

Lemma repeat_handler_fresh (n : nat) (st : State) :
  fresh env (repeat_handler (S n) (onAllIconsLoaded env) st).
Proof.
  revert st. induction n as [|n IH]; intros st.
  - apply onAllIconsLoaded_fresh.
  - change (fresh env (repeat_handler (S n) (onAllIconsLoaded env)
                         (snd (onAllIconsLoaded env st)))). apply IH.
Qed.

Lemma fresh_step (e : Event) (st : State) : fresh env st -> fresh env (step env e st).
Proof.
  intros Hf.
  destruct e;
    try (apply (cache_step_fresh st); [exact Hf|now apply cache_step_step]).
  simpl. destruct (onceHandlers st) as [|n]; [exact Hf|apply repeat_handler_fresh].
Qed.


(** X23.  The nav-item size is read from the style at most once between
    two reloads: once the cache holds a number, until [allIconsLoaded]
    fires, whatever else happens, [getNavItemSize] answers that number and
    leaves the store as it is. *)
Theorem nav_item_size_cached_until_reload
    (st : State) (size : JS.number) (events : list Event) :
  Forall (fun e => e <> AllIconsLoaded) events ->
  cachedNavItemSize st = Some size ->
  getNavItemSize env (run env events st) = (Ok size, run env events st).
Proof.
  intros Hall Hsize. destruct (cache_step_run events st Hall) as [Hkeep _].
  rewrite Hsize in Hkeep. rewrite getNavItemSize_eq. now rewrite Hkeep.
Qed.

(** *** Registration *)

Lemma run_cons (e : Event) (events : list Event) (st : State) :
  run env (e :: events) st = run env events (step env e st).
Proof. reflexivity. Qed.

Lemma run_app (events events' : list Event) (st : State) :
  run env (events ++ events') st = run env events' (run env events st).
Proof. apply fold_left_app. Qed.

Lemma cleared_settled (st : State) :
  settled st ->
  attached (cleared st) = [] /\ created (cleared st) = created st /\
  leaf (cleared st) = leaf st /\ enabled (cleared st) = enabled st /\
  onceHandlers (cleared st) = O /\ deferred (cleared st) = O.
Proof.
  intros (Honce & Hdef & Hatt). unfold cleared, drop_observer.
  destruct Hatt as [Hatt|(o & region & Hreg & Hobs & Hatt)].
  - destruct (registered st); [destruct (observer st)|]; simpl; rewrite ?Hatt;
      auto 10.
  - rewrite Hreg, Hobs. simpl. rewrite Hatt. simpl. rewrite Nat.eqb_refl. auto 10.
Qed.

Lemma register_deferred (st : State) (lf : OutlineLeaf) :
  requireApiVersion_1_7_2 env = true ->
  enabled st = true -> leaf st = Some lf ->
  register env st
    = (Ok tt,
       set_deferred (S (deferred (cleared st))) (set_registered true (cleared st))).
Proof.
  intros Hapi Hen Hl.
  unfold register, cleared, get_leaf, drop_observer, bind, gets, modify, disconnect, ret.
  rewrite Hen, Hapi. simpl.
  destruct (registered st); [destruct (observer st)|]; simpl; rewrite Hl; reflexivity.
Qed.

Lemma registration_round (st : State) (lf : OutlineLeaf) :
  enabled st = true -> leaf st = Some lf -> settled st ->
  attached (run env (registration env) st) = [(created st, node_id (containerEl lf))] /\
  observer (run env (registration env) st) = Some (created st) /\
  registered (run env (registration env) st) = true /\
  created (run env (registration env) st) = S (created st) /\
  enabled (run env (registration env) st) = true /\
  leaf (run env (registration env) st) = Some lf /\
  onceHandlers (run env (registration env) st) = O /\
  deferred (run env (registration env) st) = O.
Proof.
  intros Hen Hl Hset.
  destruct (cleared_settled st Hset) as (Hatt & Hcr & Hlf & Hen' & Honce & Hdef).
  assert (Hload : forall s,
    leaf s = Some lf -> enabled s = true -> registered s = true ->
    attached s = [] -> created s = created st -> deferred s = O ->
    onceHandlers s = 1%nat ->
    attached (step env AllIconsLoaded s) = [(created st, node_id (containerEl lf))] /\
    observer (step env AllIconsLoaded s) = Some (created st) /\
    registered (step env AllIconsLoaded s) = true /\
    created (step env AllIconsLoaded s) = S (created st) /\
    enabled (step env AllIconsLoaded s) = true /\
    leaf (step env AllIconsLoaded s) = Some lf /\
    onceHandlers (step env AllIconsLoaded s) = O /\
    deferred (step env AllIconsLoaded s) = O).
  { intros s Hsl Hsen Hsreg Hsatt Hscr Hsdef Hsonce.
    cbn [step]. rewrite Hsonce. cbn [repeat_handler].
    destruct (onAllIconsLoaded_wiring env (set_onceHandlers O s) lf Hsl)
      as (Ho & Hc & Ha & Hl' & He & Hr & Hn & Hd).
    simpl in *. rewrite Ho, Hc, Ha, Hl', He, Hr, Hn, Hd, Hsatt, Hscr.
    auto 10. }
  unfold registration, run.
  destruct (requireApiVersion_1_7_2 env) eqn:Hapi; cbn [app fold_left].
  - cbn [step]. rewrite (register_deferred st lf Hapi Hen Hl). cbn [snd].
    cbn [deferred set_deferred]. rewrite Hdef.
    apply Hload; simpl; rewrite ?Hlf, ?Hen', ?Hatt, ?Hcr, ?Honce; auto.
  - cbn [step]. rewrite (register_enabled env st Hapi Hen). cbn [snd]. cbv zeta.
    fold (cleared st).
    apply Hload; simpl; rewrite ?Hlf, ?Hen', ?Hatt, ?Hcr, ?Honce, ?Hdef; auto.
Qed.

(** X18.  Registering again only after the icons were loaded keeps one
    observer: from a settled store, with the outline core plugin enabled
    and the leaf present, however many registrations are carried through
    one after the other, exactly one observer is attached in the end, the
    one constructed last, and it is the one the plugin holds. *)
Theorem registration_keeps_one_observer (st : State) (lf : OutlineLeaf) (n : nat) :
  enabled st = true -> leaf st = Some lf -> settled st ->
  attached (run env (concat (replicate (S n) (registration env))) st)
    = [((created st + n)%nat, node_id (containerEl lf))] /\
  observer (run env (concat (replicate (S n) (registration env))) st)
    = Some (created st + n)%nat.
Proof.
  revert st. induction n as [|n IH]; intros st Hen Hl Hset;
    destruct (registration_round st lf Hen Hl Hset)
      as (Hatt & Hobs & Hreg & Hcr & Hen1 & Hl1 & Honce & Hdef).
  - cbn [replicate concat]. rewrite app_nil_r, Nat.add_0_r. auto.
  - change (concat (replicate (S (S n)) (registration env)))
      with (registration env ++ concat (replicate (S n) (registration env)))%list.
    rewrite run_app.
    assert (Hset1 : settled (run env (registration env) st)).
    { split; [exact Honce|]. split; [exact Hdef|]. right. eauto. }
    destruct (IH _ Hen1 Hl1 Hset1) as (Ha & Ho).
    rewrite Ha, Ho, Hcr. replace (S (created st) + n)%nat with (created st + S n)%nat by lia.
    auto.
Qed.

(** X19.  While the outline core plugin is disabled and nothing was
    pending when it was disabled, the plugin does nothing to the outline:
    whatever is registered, loaded, delivered to an observer or done to the
    leaf, as long as the core plugin is not enabled again, no label is
    scanned, no [innerHTML] is assigned, no observer is constructed and none
    is attached that was not attached before. *)
Theorem disabled_plugin_stays_idle (st : State) (events : list Event) :
  enabled st = false -> onceHandlers st = O -> deferred st = O ->
  Forall (fun e => e <> SetEnabled true) events ->
  scanned (run env events st) = scanned st /\
  writes (run env events st) = writes st /\
  created (run env events st) = created st /\
  registered (run env events st) = registered st /\
  incl (attached (run env events st)) (attached st).
Proof.
  intros Hen Honce Hdef Hall. revert st Hen Honce Hdef.
  induction Hall as [|e events He _ IH]; intros st Hen Honce Hdef.
  - simpl. auto using incl_refl.
  - rewrite run_cons.
    assert (Hstep : enabled (step env e st) = false /\
                    onceHandlers (step env e st) = O /\
                    deferred (step env e st) = O /\
                    scanned (step env e st) = scanned st /\
                    writes (step env e st) = writes st /\
                    created (step env e st) = created st /\
                    registered (step env e st) = registered st /\
                    incl (attached (step env e st)) (attached st)).
    { destruct e as [| | |o batch|b|l]; cbn [step].
      - unfold register, bind, gets, modify. rewrite Hen. simpl.
        auto 10 using incl_refl.
      - rewrite Hdef. auto 10 using incl_refl.
      - rewrite Honce. simpl. auto 10 using incl_refl.
      - destruct (is_attached o st); [|auto 10 using incl_refl].
        rewrite (callback_disabled env batch st Hen). cbn [snd].
        unfold drop_observer. destruct (observer st); simpl; auto 10 using incl_refl.
        repeat (split; [assumption || reflexivity|]).
        intros a Ha. apply filter_In in Ha. tauto.
      - destruct b; [congruence|]. simpl. auto 10 using incl_refl.
      - simpl. auto 10 using incl_refl. }
    destruct Hstep as (Hen1 & Honce1 & Hdef1 & Hsc & Hw & Hcr & Hreg & Hatt).
    destruct (IH _ Hen1 Honce1 Hdef1) as (Hsc' & Hw' & Hcr' & Hreg' & Hatt').
    rewrite Hsc', Hw', Hcr', Hreg'. repeat (split; [assumption|]).
    intros a Ha. apply Hatt, Hatt', Ha.
Qed.

Lemma onAllIconsLoaded_no_leaf (st : State) :
  leaf st = None ->
  onAllIconsLoaded env st
    = (Throw TypeError,
       set_logs (LeafUndefined :: logs st)
         (set_cachedNavItemSize None (set_cachedIconShortcodeRegex None st))).
Proof.
  intros Hl.
  unfold onAllIconsLoaded, leaf_containerEl, get_leaf, bind, gets, modify, ret, throw.
  simpl. now rewrite Hl.
Qed.

(** X20.  When the load handler runs while there is no outline leaf, it
    raises a TypeError on reading the leaf's view, after it has emptied the
    two caches: when [allIconsLoaded] fires without a leaf, no label is
    scanned, no [innerHTML] is assigned, no observer is constructed or
    attached, and the observer the plugin holds stays as it is. *)
Theorem allIconsLoaded_without_leaf (st : State) :
  leaf st = None ->
  fst (onAllIconsLoaded env st) = Throw TypeError /\
  cachedNavItemSize (snd (onAllIconsLoaded env st)) = None /\
  cachedIconShortcodeRegex (snd (onAllIconsLoaded env st)) = None /\
  scanned (step env AllIconsLoaded st) = scanned st /\
  writes (step env AllIconsLoaded st) = writes st /\
  created (step env AllIconsLoaded st) = created st /\
  attached (step env AllIconsLoaded st) = attached st /\
  observer (step env AllIconsLoaded st) = observer st.
Proof.
  intros Hl. rewrite (onAllIconsLoaded_no_leaf st Hl). cbn [fst snd].
  split; [reflexivity|]. split; [reflexivity|]. split; [reflexivity|].
  cbn [step].
  assert (Hrep : forall n s,
    leaf s = None ->
    let s' := repeat_handler n (onAllIconsLoaded env) s in
    scanned s' = scanned s /\ writes s' = writes s /\ created s' = created s /\
    attached s' = attached s /\ observer s' = observer s).
  { induction n as [|n IH]; intros s Hs; [simpl; auto 10|].
    cbn [repeat_handler]. rewrite (onAllIconsLoaded_no_leaf s Hs). cbn [snd].
    destruct (IH (set_logs (LeafUndefined :: logs s)
                    (set_cachedNavItemSize None (set_cachedIconShortcodeRegex None s))) Hs)
      as (H1 & H2 & H3 & H4 & H5).
    cbv zeta. rewrite H1, H2, H3, H4, H5. simpl. auto 10. }
  destruct (Hrep (onceHandlers st) (set_onceHandlers O st) Hl)
    as (H1 & H2 & H3 & H4 & H5).
  rewrite H1, H2, H3, H4, H5. simpl. auto 10.
Qed.

(** X21.  On a host with deferred views, [register] without an outline
    leaf raises a TypeError on reading the leaf, after it has disconnected
    the observer of an earlier registration and marked the plugin as
    registered: nothing is left pending, so that no observer is attached
    when the icons are loaded. *)
Theorem register_without_leaf (st : State) :
  requireApiVersion_1_7_2 env = true ->
  enabled st = true -> leaf st = None -> settled st ->
  fst (register env st) = Throw TypeError /\
  registered (snd (register env st)) = true /\
  attached (snd (register env st)) = [] /\
  onceHandlers (snd (register env st)) = O /\
  deferred (snd (register env st)) = O /\
  attached (run env [Register; LeafLoaded; AllIconsLoaded] st) = [].
Proof.
  intros Hapi Hen Hl Hset.
  destruct (cleared_settled st Hset) as (Hatt & Hcr & Hlf & Hen' & Honce & Hdef).
  assert (Hreg : register env st
                 = (Throw TypeError,
                    set_logs (LeafUndefined :: logs (cleared st))
                      (set_registered true (cleared st)))).
  { unfold register, cleared, get_leaf, drop_observer, bind, gets, modify, disconnect,
      ret, throw.
    rewrite Hen, Hapi. simpl.
    destruct (registered st); [destruct (observer st)|]; simpl; rewrite Hl; reflexivity. }
  cbn [run fold_left step]. rewrite Hreg. cbn [fst snd]. simpl.
  repeat (split; [assumption || reflexivity|]).
  rewrite Hdef. simpl. rewrite Honce. simpl. exact Hatt.
Qed.

End WithHost.

(** *** Reloads while the style and the settings change *)

Section Reloads.
Context `{Host}.

Lemma fresh_fresh_in (env : Env) (envs : list Env) (st : State) :
  fresh env st -> In env envs -> fresh_in envs st.
Proof.
  intros [Hs Hr] Hin. split.
  - destruct Hs as [Hs|Hs]; [now left|right; eauto].
  - destruct Hr as [Hr|Hr]; [now left|right; eauto].
Qed.

Lemma fresh_in_cache_step (env : Env) (envs : list Env) (st st' : State) :
  fresh_in envs st -> cache_step env st st' -> In env envs -> fresh_in envs st'.
Proof.
  intros [Hs Hr] [Hs' Hr'] Hin. split.
  - destruct Hs as [Hs|(e & He & Hs)]; rewrite Hs in Hs'; [|right; eauto].
    destruct Hs' as [Hs'|Hs']; [now left|right; eauto].
  - destruct Hr as [Hr|(e & He & Hr)]; rewrite Hr in Hr'; [|right; eauto].
    destruct Hr' as [Hr'|Hr']; [now left|right; eauto].
Qed.

Lemma fresh_in_step (env : Env) (envs : list Env) (e : Event) (st : State) :
  fresh_in envs st -> In env envs -> fresh_in envs (step env e st).
Proof.
  intros Hf Hin.
  destruct e;
    try (apply (fresh_in_cache_step env envs st); [exact Hf| |exact Hin];
         now apply cache_step_step).
  simpl. destruct (onceHandlers st) as [|n]; [exact Hf|].
  apply (fresh_fresh_in env); [apply repeat_handler_fresh|exact Hin].
Qed.

Lemma fresh_in_run_in (trace : list (Env * Event)) (envs : list Env) (st : State) :
  fresh_in envs st ->
  (forall ee, In ee trace -> In (fst ee) envs) ->
  fresh_in envs (run_in trace st).
Proof.
  revert st. induction trace as [|[env e] trace IH]; intros st Hf Hin; [exact Hf|].
  unfold run_in. cbn [fold_left]. fold (run_in trace).
  apply IH.
  - apply fresh_in_step; [exact Hf|]. apply (Hin (env, e)). now left.
  - intros ee Hee. apply Hin. now right.
Qed.

(** X16.  When [allIconsLoaded] fires with a listener of the plugin
    pending, whatever the two caches held is dropped.  From then on,
    whatever else happens and however the body style and the settings change
    between the events, the nav-item size cache is empty or holds the number
    parsed from the style as it was at the reload or at a later event, and
    the shortcode pattern cache is empty or holds the pattern of the
    identifier as it was at the reload or at a later event: nothing older
    than the reload is left, though what is cached need not be of the style
    and the identifier as they are now. *)
Theorem allIconsLoaded_refreshes_caches
    (env : Env) (trace : list (Env * Event)) (st : State) :
  onceHandlers st <> O ->
  fresh_in (env :: List.map fst trace) (run_in ((env, AllIconsLoaded) :: trace) st).
Proof.
  intros Hn. unfold run_in. cbn [fold_left fst snd]. fold (run_in trace).
  apply fresh_in_run_in.
  - apply (fresh_fresh_in env); [|now left].
    simpl. destruct (onceHandlers st) as [|n]; [congruence|apply repeat_handler_fresh].
  - intros ee Hee. right. now apply in_map.
Qed.

End Reloads.

Import SampleHost.

Lemma processTreeItemInner_rewrites_witness :
  getText {| el_id := 2; classList := [TREE_ITEM_INNER]; getText := "x :one: y";
             innerHTML := "x :one: y" |} <> "" /\
  exists st' new,
    processTreeItemInner env (Some (label 2 "x :one: y")) init = (Ok tt, st') /\
    scanned st' = 2%nat :: scanned init /\
    writes st' = (new ++ writes init)%list.
Proof.
  assert (Hlabel : getText {| el_id := 2; classList := [TREE_ITEM_INNER];
                              getText := "x :one: y"; innerHTML := "x :one: y" |} <> "")
    by discriminate.
  split; [exact Hlabel|].
  destruct (processTreeItemInner_rewrites env
              {| el_id := 2; classList := [TREE_ITEM_INNER]; getText := "x :one: y";
                 innerHTML := "x :one: y" |} [] init Hlabel)
    as (st' & new & Hrun & Hsc & Hw & _).
  exists st', new. split; [exact Hrun|]. split; [exact Hsc|exact Hw].
Defined.

Lemma callback_scans_added_items_witness :
  enabled watching = true /\
  scanned (snd (callback env sample_batch watching))
    = (rev (inner_ids (added_items sample_batch)) ++ scanned watching)%list.
Proof.
  split; [reflexivity|].
  destruct (callback_scans_added_items env sample_batch watching eq_refl)
    as (_ & Hsc & _).
  exact Hsc.
Defined.

Lemma callback_ignores_other_records_witness :
  enabled watching = true /\
  Forall (fun mutation => adds_element mutation = false)
    [ {| type := attributes; addedNodes := [] |};
      {| type := childList; addedNodes := [TextNode "x :one: y"] |};
      {| type := characterData; addedNodes := [treeItem 1 "x :one: y"] |} ] /\
  callback env
    [ {| type := attributes; addedNodes := [] |};
      {| type := childList; addedNodes := [TextNode "x :one: y"] |};
      {| type := characterData; addedNodes := [treeItem 1 "x :one: y"] |} ] watching
    = (Ok tt, watching).
Proof.
  assert (Hbatch : Forall (fun mutation => adds_element mutation = false)
            [ {| type := attributes; addedNodes := [] |};
              {| type := childList; addedNodes := [TextNode "x :one: y"] |};
              {| type := characterData; addedNodes := [treeItem 1 "x :one: y"] |} ])
    by (repeat constructor).
  split; [reflexivity|]. split; [exact Hbatch|].
  apply (callback_ignores_other_records env _ watching eq_refl Hbatch).
Defined.

Lemma callback_skips_nested_items_witness :
  enabled watching = true /\
  has_class TREE_ITEM_CLASS nested_item = true /\
  scanned (snd (callback env [ {| type := childList; addedNodes := [nested_item] |} ]
                  watching))
    = (inner_ids [nested_item] ++ scanned watching)%list.
Proof.
  split; [reflexivity|]. split; [reflexivity|].
  destruct (callback_skips_nested_items env
              {| el_id := 1; classList := [TREE_ITEM_CLASS]; getText := "a :one:";
                 innerHTML := "a :one:" |}
              [label 2 "a :one:"; treeItem 3 "b :two:"] watching eq_refl eq_refl)
    as (Hsc & _).
  exact Hsc.
Defined.

(** On the sample the callback scans the label of the added tree item
    and not the one of the tree item below it; the scan of a region that
    holds the same nodes scans both. *)
Example nested_item_sample :
  scanned (snd (callback env [ {| type := childList; addedNodes := [nested_item] |} ]
                  watching)) = [2%nat] /\
  scanned (snd (processTreeItems env
                  (Element {| el_id := 100; classList := []; getText := "";
                              innerHTML := "" |} [nested_item]) watching))
    = [4%nat; 2%nat].
Proof. split; vm_compute; reflexivity. Qed.

Lemma onAllIconsLoaded_scans_and_watches_witness :
  leaf (set_leaf (Some outlineLeaf) init) = Some outlineLeaf /\
  observer (snd (onAllIconsLoaded env (set_leaf (Some outlineLeaf) init)))
    = Some (created (set_leaf (Some outlineLeaf) init)).
Proof.
  split; [reflexivity|].
  destruct (onAllIconsLoaded_scans_and_watches env (set_leaf (Some outlineLeaf) init)
              outlineLeaf eq_refl) as (_ & _ & Hobs & _).
  exact Hobs.
Defined.

Lemma allIconsLoaded_refreshes_caches_witness :
  onceHandlers (run env [SetLeaf (Some busy_leaf); Register] init) <> O /\
  fresh_in (env :: List.map fst [(env_large, Mutations 0 sample_batch)])
    (run_in ((env, AllIconsLoaded) :: [(env_large, Mutations 0 sample_batch)])
       (run env [SetLeaf (Some busy_leaf); Register] init)).
Proof.
  assert (Hn : onceHandlers (run env [SetLeaf (Some busy_leaf); Register] init) <> O)
    by discriminate.
  split; [exact Hn|].
  apply (allIconsLoaded_refreshes_caches env [(env_large, Mutations 0 sample_batch)]
           (run env [SetLeaf (Some busy_leaf); Register] init) Hn).
Defined.

(** On the sample the reload fills the size cache from the style of the
    moment, which has no [--nav-item-size]; a later batch under a style
    that has one finds the cache filled and leaves it; the next reload
    under that style refills it from it. *)
Example reload_sample :
  cachedNavItemSize
    (run_in [(env, AllIconsLoaded)]
       (run env [SetLeaf (Some busy_leaf); Register] init)) = Some JS.NaN /\
  cachedNavItemSize
    (run_in [(env, AllIconsLoaded); (env_large, Mutations 0 sample_batch)]
       (run env [SetLeaf (Some busy_leaf); Register] init)) = Some JS.NaN /\
  cachedNavItemSize
    (run_in [(env, AllIconsLoaded); (env_large, Register); (env_large, AllIconsLoaded)]
       (run env [SetLeaf (Some busy_leaf); Register] init))
    = Some (JS.Dec false 24 0).
Proof. repeat split; vm_compute; reflexivity. Qed.


Lemma nav_item_size_cached_until_reload_witness :
  Forall (fun e => e <> AllIconsLoaded) [Mutations 0 sample_batch; Register] /\
  cachedNavItemSize (snd (callback env sample_batch watching)) = Some JS.NaN /\
  getNavItemSize env
    (run env [Mutations 0 sample_batch; Register] (snd (callback env sample_batch watching)))
    = (Ok JS.NaN,
       run env [Mutations 0 sample_batch; Register]
         (snd (callback env sample_batch watching))).
Proof.
  assert (Hall : Forall (fun e => e <> AllIconsLoaded)
                   [Mutations 0 sample_batch; Register])
    by (repeat constructor; discriminate).
  assert (Hsize : cachedNavItemSize (snd (callback env sample_batch watching))
                  = Some JS.NaN) by (vm_compute; reflexivity).
  split; [exact Hall|]. split; [exact Hsize|].
  apply (nav_item_size_cached_until_reload env
           (snd (callback env sample_batch watching)) JS.NaN
           [Mutations 0 sample_batch; Register] Hall Hsize).
Defined.

Lemma settled_with_leaf : settled (set_leaf (Some outlineLeaf) init).
Proof. split; [reflexivity|]. split; [reflexivity|]. now left. Qed.

Lemma registration_keeps_one_observer_witness :
  enabled (set_leaf (Some outlineLeaf) init) = true /\
  leaf (set_leaf (Some outlineLeaf) init) = Some outlineLeaf /\
  settled (set_leaf (Some outlineLeaf) init) /\
  attached (run env (concat (replicate 2 (registration env)))
              (set_leaf (Some outlineLeaf) init))
    = [((created (set_leaf (Some outlineLeaf) init) + 1)%nat,
        node_id (containerEl outlineLeaf))].
Proof.
  split; [reflexivity|]. split; [reflexivity|]. split; [exact settled_with_leaf|].
  destruct (registration_keeps_one_observer env (set_leaf (Some outlineLeaf) init)
              outlineLeaf 1 eq_refl eq_refl settled_with_leaf) as (Hatt & _).
  exact Hatt.
Defined.

(** Registering twice with the icons loaded in between, on either kind
    of host, leaves one observer; compare the two observers that
    [Register; Register; AllIconsLoaded] leaves. *)
Example registration_sample :
  attached (run env [Register; AllIconsLoaded; Register; AllIconsLoaded]
              (set_leaf (Some outlineLeaf) init)) = [(1%nat, 100%nat)] /\
  attached (run env_deferred
              [Register; LeafLoaded; AllIconsLoaded; Register; LeafLoaded; AllIconsLoaded]
              (set_leaf (Some outlineLeaf) init)) = [(1%nat, 100%nat)] /\
  attached (run env [Register; Register; AllIconsLoaded]
              (set_leaf (Some outlineLeaf) init)) = [(0%nat, 100%nat); (1%nat, 100%nat)].
Proof. repeat split; vm_compute; reflexivity. Qed.

Lemma disabled_plugin_stays_idle_witness :
  enabled (set_enabled false watching) = false /\
  onceHandlers (set_enabled false watching) = O /\
  deferred (set_enabled false watching) = O /\
  Forall (fun e => e <> SetEnabled true)
    [Register; AllIconsLoaded; Mutations 0 sample_batch] /\
  scanned (run env [Register; AllIconsLoaded; Mutations 0 sample_batch]
             (set_enabled false watching))
    = scanned (set_enabled false watching).
Proof.
  assert (Hall : Forall (fun e => e <> SetEnabled true)
                   [Register; AllIconsLoaded; Mutations 0 sample_batch])
    by (repeat constructor; discriminate).
  split; [reflexivity|]. split; [reflexivity|]. split; [reflexivity|].
  split; [exact Hall|].
  destruct (disabled_plugin_stays_idle env (set_enabled false watching)
              [Register; AllIconsLoaded; Mutations 0 sample_batch]
              eq_refl eq_refl eq_refl Hall) as (Hsc & _).
  exact Hsc.
Defined.

Lemma allIconsLoaded_without_leaf_witness :
  leaf (run env [Register] init) = None /\
  fst (onAllIconsLoaded env (run env [Register] init)) = Throw TypeError /\
  attached (step env AllIconsLoaded (run env [Register] init))
    = attached (run env [Register] init).
Proof.
  split; [reflexivity|].
  destruct (allIconsLoaded_without_leaf env (run env [Register] init) eq_refl)
    as (Hthrow & _ & _ & _ & _ & _ & Hatt & _).
  split; [exact Hthrow|exact Hatt].
Defined.

Lemma register_without_leaf_witness :
  requireApiVersion_1_7_2 env_deferred = true /\
  enabled init = true /\ leaf init = None /\ settled init /\
  fst (register env_deferred init) = Throw TypeError /\
  registered (snd (register env_deferred init)) = true.
Proof.
  assert (Hset : settled init).
  { split; [reflexivity|]. split; [reflexivity|]. now left. }
  split; [reflexivity|]. split; [reflexivity|]. split; [reflexivity|].
  split; [exact Hset|].
  destruct (register_without_leaf env_deferred init eq_refl eq_refl eq_refl Hset)
    as (Hthrow & Hreg & _).
  split; [exact Hthrow|exact Hreg].
Defined.

End OutlineMore.
